(** * Rubik's-Cube-Solver: the cube state, the move engine, the scrambler
      and the JSON import, embedded from the JavaScript sources.

    - [src/logic/Cube.js]       : class [Cube]
    - [src/logic/Scrambler.js]  : class [Scrambler]
    - [src/components/JsonImport.jsx] : [handleImport], [validateCubeData]

    JavaScript arrays are lists read with [!!] and written with an
    update that throws, extends or overwrites exactly as the engine
    does; a statement that can throw is a state transformer into [res],
    which keeps the state reached when the exception left the method
    (the cube object is mutated in place, so that state stays visible). *)

From Stdlib Require Import String Ascii List Arith Lia.
From Stdlib Require Import DecimalString.
From stdpp Require Import base option list strings.

Local Open Scope string_scope.

(** ** JavaScript values held in a sticker slot *)

(** A sticker is a string ('W', 'Y', ...); a slot never written, or read
    past the end of a row, is [undefined]. *)
Inductive value : Type :=
  | Undefined
  | Str (s : string).

#[global] Instance value_eq_dec : EqDecision value.
Proof. solve_decision. Defined.

Abbreviation Row := (list value).
Abbreviation Grid := (list (list value)).

(** The only exception the engine can raise: reading a property of
    [undefined], or spreading it. *)
Inductive exn : Type := TypeError.

(** Outcome of a statement run on a state of type [St]. *)
Inductive res (St : Type) : Type :=
  | Done (s : St)
  | Raised (e : exn) (s : St).
Arguments Done {St} s.
Arguments Raised {St} e s.

Definition state_of {St} (r : res St) : St :=
  match r with Done s => s | Raised _ s => s end.

(** [a >>> b] : run statement [a], then [b] unless [a] threw. *)
Definition seq_stmt {St} (a b : St -> res St) : St -> res St :=
  fun s => match a s with
           | Done s' => b s'
           | Raised e s' => Raised e s'
           end.
Infix ">>>" := seq_stmt (at level 62, right associativity).

(** [for (let i = start; i < start + count; i++) body(i)] *)
Fixpoint for_range {St} (start count : nat) (body : nat -> St -> res St)
  (s : St) : res St :=
  match count with
  | 0 => Done s
  | S k => match body start s with
           | Done s' => for_range (S start) k body s'
           | Raised e s' => Raised e s'
           end
  end.

(** [for (let i = 0; i < n; i++) body(i)] *)
Definition for_upto {St} (n : nat) (body : nat -> St -> res St)
  : St -> res St :=
  for_range 0 n body.

(** ** Arrays *)

(** [a[i]] on a row: [undefined] past the end. *)
Definition at_index (row : Row) (i : nat) : value :=
  default Undefined (row !! i).

(** [g[i][j]]: [None] is the TypeError of indexing the undefined [g[i]]. *)
Definition cell (g : Grid) (i j : nat) : option value :=
  row ← g !! i; Some (at_index row j).

(** [a[i] = v]: overwrites inside the array, extends it past the end. *)
Definition array_set (row : Row) (i : nat) (v : value) : Row :=
  if decide (i < length row) then <[i:=v]> row
  else row ++ replicate (i - length row) Undefined ++ [v].

(** [g[i][j] = v]: [None] is the TypeError of assigning into the
    undefined [g[i]]. *)
Definition store (g : Grid) (i j : nat) (v : value) : option Grid :=
  row ← g !! i; Some (<[i:=array_set row j v]> g).

(** [Array(n).fill().map(() => Array(n))]: n rows of n empty slots. *)
Definition empty_matrix (n : nat) : Grid := replicate n (replicate n Undefined).

(** [Array(n).fill().map(() => Array(n).fill(c))] *)
Definition filled_matrix (n : nat) (c : string) : Grid :=
  replicate n (replicate n (Str c)).

(** ** Strings of the move notation *)

(** [s.includes(ch)] for a one-character needle. *)
Fixpoint includes (ch : ascii) (s : string) : bool :=
  match s with
  | EmptyString => false
  | String a s' => if Ascii.eqb a ch then true else includes ch s'
  end.

(** [s.replace(ch, '')] for a one-character pattern: only the first
    occurrence is removed. *)
Fixpoint remove_first (ch : ascii) (s : string) : string :=
  match s with
  | EmptyString => EmptyString
  | String a s' => if Ascii.eqb a ch then s' else String a (remove_first ch s')
  end.

Definition apostrophe : ascii := "'"%char.

(** ** Cube.js *)

(** The keys of [this.faces], in the order the constructor inserts them
    (the order [for ... in] visits them). *)
Inductive FaceId : Type := Up | Down | Left | Right | Front | Back.

#[global] Instance FaceId_eq_dec : EqDecision FaceId.
Proof. solve_decision. Defined.

Definition face_keys : list FaceId := [Up; Down; Left; Right; Front; Back].

Definition face_key (f : FaceId) : string :=
  match f with
  | Up => "U" | Down => "D" | Left => "L"
  | Right => "R" | Front => "F" | Back => "B"
  end.

Record Faces : Type := mkFaces {
  U : Grid; D : Grid; L : Grid; R : Grid; F : Grid; B : Grid
}.

Record Cube : Type := mkCube {
  size : nat;
  faces : Faces
}.

(** [this.faces[face]] *)
Definition get_face (f : FaceId) (c : Cube) : Grid :=
  match f with
  | Up => U (faces c) | Down => D (faces c) | Left => L (faces c)
  | Right => R (faces c) | Front => F (faces c) | Back => B (faces c)
  end.

(** [this.faces[face] = g] *)
Definition set_face (f : FaceId) (g : Grid) (c : Cube) : Cube :=
  let fs := faces c in
  mkCube (size c)
    match f with
    | Up => mkFaces g (D fs) (L fs) (R fs) (F fs) (B fs)
    | Down => mkFaces (U fs) g (L fs) (R fs) (F fs) (B fs)
    | Left => mkFaces (U fs) (D fs) g (R fs) (F fs) (B fs)
    | Right => mkFaces (U fs) (D fs) (L fs) g (F fs) (B fs)
    | Front => mkFaces (U fs) (D fs) (L fs) (R fs) g (B fs)
    | Back => mkFaces (U fs) (D fs) (L fs) (R fs) (F fs) g
    end.

(** [defaultColors] of [initializeFaces]. *)
Definition defaultColors (f : FaceId) : string :=
  match f with
  | Up => "W" | Down => "Y" | Left => "G"
  | Right => "B" | Front => "R" | Back => "O"
  end.

Definition initializeFaces (size : nat) (initializeAsBlank : bool) : Faces :=
  let fill f :=
    if initializeAsBlank then filled_matrix size "W"
    else filled_matrix size (defaultColors f) in
  mkFaces (fill Up) (fill Down) (fill Left) (fill Right) (fill Front) (fill Back).

(** [new Cube(size, initializeAsBlank)] *)
Definition new_Cube (size : nat) (initializeAsBlank : bool) : Cube :=
  mkCube size (initializeFaces size initializeAsBlank).

(** One step of the inner loop of a face rotation:
    [newMatrix[r][c] = faceMatrix[i][j]]. *)
Definition copy_cell (faceMatrix : Grid) (i j r c : nat) (newMatrix : Grid)
  : res Grid :=
  match cell faceMatrix i j with
  | None => Raised TypeError newMatrix
  | Some v =>
      match store newMatrix r c v with
      | None => Raised TypeError newMatrix
      | Some m => Done m
      end
  end.

(** The matrix built by [rotateFaceClockwise]:
    [newMatrix[j][size - 1 - i] = faceMatrix[i][j]]. *)
Definition rotate_cw_matrix (n : nat) (faceMatrix : Grid) : res Grid :=
  for_upto n (fun i =>
    for_upto n (fun j => copy_cell faceMatrix i j j (n - 1 - i)))
    (empty_matrix n).

(** The matrix built by [rotateFaceCounterClockwise]:
    [newMatrix[size - 1 - j][i] = faceMatrix[i][j]]. *)
Definition rotate_ccw_matrix (n : nat) (faceMatrix : Grid) : res Grid :=
  for_upto n (fun i =>
    for_upto n (fun j => copy_cell faceMatrix i j (n - 1 - j) i))
    (empty_matrix n).

(** [newMatrix] is local: a throw inside the loops leaves the cube as it
    was, and [this.faces[face] = newMatrix] runs only after them. *)
Definition rotateFaceClockwise (face : FaceId) (c : Cube) : res Cube :=
  match rotate_cw_matrix (size c) (get_face face c) with
  | Done m => Done (set_face face m c)
  | Raised e _ => Raised e c
  end.

Definition rotateFaceCounterClockwise (face : FaceId) (c : Cube) : res Cube :=
  match rotate_ccw_matrix (size c) (get_face face c) with
  | Done m => Done (set_face face m c)
  | Raised e _ => Raised e c
  end.

(** [this.faces.dst[r][c] = v] *)
Definition put (dst : FaceId) (r c : nat) (v : value) (cu : Cube) : res Cube :=
  match store (get_face dst cu) r c v with
  | None => Raised TypeError cu
  | Some g => Done (set_face dst g cu)
  end.

(** [this.faces.dst[r][c] = this.faces.src[r'][c']] *)
Definition assign (dst : FaceId) (r c : nat) (src : FaceId) (r' c' : nat)
  (cu : Cube) : res Cube :=
  match cell (get_face src cu) r' c' with
  | None => Raised TypeError cu
  | Some v => put dst r c v cu
  end.

(** [[...this.faces.U[this.size - 1]]]: the index is -1 on a cube of size
    0, where no row is found. *)
Definition last_row (n : nat) (g : Grid) : option Row :=
  match n with
  | 0 => None
  | S k => g !! k
  end.

Definition moveFFaceStickers (clockwise : bool) (cu : Cube) : res Cube :=
  let n := size cu in
  if clockwise then
    (* const temp = [...this.faces.U[2]]; *)
    match U (faces cu) !! 2 with
    | None => Raised TypeError cu
    | Some temp =>
        (for_upto n (fun i => assign Up (n - 1) i Left (n - 1 - i) (n - 1)) >>>
         for_upto n (fun i => assign Left i (n - 1) Down 0 i) >>>
         for_upto n (fun i => assign Down 0 i Right (n - 1 - i) 0) >>>
         for_upto n (fun i => put Right i 0 (at_index temp i))) cu
    end
  else
    (* const temp = [...this.faces.U[this.size - 1]]; *)
    match last_row n (U (faces cu)) with
    | None => Raised TypeError cu
    | Some temp =>
        (for_upto n (fun i => assign Up (n - 1) i Right i 0) >>>
         for_upto n (fun i => assign Right i 0 Down 0 (n - 1 - i)) >>>
         for_upto n (fun i => assign Down 0 i Left i (n - 1)) >>>
         for_upto n (fun i => put Left (n - 1 - i) (n - 1) (at_index temp i))) cu
    end.

(** The five other sticker movers have empty bodies. *)
Definition moveBFaceStickers (clockwise : bool) (cu : Cube) : res Cube := Done cu.
Definition moveUFaceStickers (clockwise : bool) (cu : Cube) : res Cube := Done cu.
Definition moveDFaceStickers (clockwise : bool) (cu : Cube) : res Cube := Done cu.
Definition moveLFaceStickers (clockwise : bool) (cu : Cube) : res Cube := Done cu.
Definition moveRFaceStickers (clockwise : bool) (cu : Cube) : res Cube := Done cu.

(** [move(moveName)]: a [switch] on the name without its first
    apostrophe; there is no [default] branch. *)
Definition move (moveName : string) : Cube -> res Cube :=
  let isPrime := includes apostrophe moveName in
  let face := remove_first apostrophe moveName in
  if String.eqb face "F" then
    if isPrime then rotateFaceCounterClockwise Front >>> moveFFaceStickers false
    else rotateFaceClockwise Front >>> moveFFaceStickers true
  else if String.eqb face "B" then
    if isPrime then rotateFaceCounterClockwise Back >>> moveBFaceStickers false
    else rotateFaceClockwise Back >>> moveBFaceStickers true
  else if String.eqb face "U" then
    if isPrime then rotateFaceCounterClockwise Up >>> moveUFaceStickers false
    else rotateFaceClockwise Up >>> moveUFaceStickers true
  else if String.eqb face "D" then
    if isPrime then rotateFaceCounterClockwise Down >>> moveDFaceStickers false
    else rotateFaceClockwise Down >>> moveDFaceStickers true
  else if String.eqb face "L" then
    if isPrime then rotateFaceCounterClockwise Left >>> moveLFaceStickers false
    else rotateFaceClockwise Left >>> moveLFaceStickers true
  else if String.eqb face "R" then
    if isPrime then rotateFaceCounterClockwise Right >>> moveRFaceStickers false
    else rotateFaceClockwise Right >>> moveRFaceStickers true
  else Done.

(** [for (const move of moves) cube.move(move)], the loop of
    [Cube.scramble] and of [Scrambler.applyScramble]. *)
Fixpoint apply_moves (moves : list string) : Cube -> res Cube :=
  match moves with
  | [] => Done
  | m :: rest => move m >>> apply_moves rest
  end.


(** Completion of a function body scanned by loops that may [return]
    early: fall through, return a value, or throw. *)
Inductive completion (A : Type) : Type :=
  | Continue
  | Return (a : A)
  | Throws (e : exn).
Arguments Continue {A}.
Arguments Return {A} a.
Arguments Throws {A} e.

(** [for (let i = start; i < start + count; i++) body(i)] with early exit. *)
Fixpoint scan_range {A} (start count : nat) (body : nat -> completion A)
  : completion A :=
  match count with
  | 0 => Continue
  | S k => match body start with
           | Continue => scan_range (S start) k body
           | r => r
           end
  end.

(** [for (const x of xs) body(x)] with early exit. *)
Fixpoint scan_list {A X} (xs : list X) (body : X -> completion A)
  : completion A :=
  match xs with
  | [] => Continue
  | x :: rest => match body x with
                 | Continue => scan_list rest body
                 | r => r
                 end
  end.

(** The body of the [for (const face in this.faces)] loop of [isSolved]. *)
Definition face_uniform (c : Cube) (face : FaceId) : completion bool :=
  let g := get_face face c in
  match cell g 0 0 with
  | None => Throws TypeError
  | Some color =>
      scan_range 0 (size c) (fun i =>
        scan_range 0 (size c) (fun j =>
          match cell g i j with
          | None => Throws TypeError
          | Some v => if decide (v = color) then Continue else Return false
          end))
  end.

Definition isSolved (c : Cube) : completion bool :=
  match scan_list face_keys (face_uniform c) with
  | Continue => Return true
  | r => r
  end.

(** ** Sticker census *)

(** The six colour codes ([colors] in [generateRandomConfiguration]). *)
Definition colors : list string := ["W"; "Y"; "G"; "B"; "R"; "O"].

Definition count_in_grid (col : string) (g : Grid) : nat :=
  length (filter (fun v => v = Str col) (concat g)).

(** Number of stickers of colour [col] on the whole cube. *)
Definition count_color (col : string) (c : Cube) : nat :=
  foldr (fun face acc => count_in_grid col (get_face face c) + acc) 0 face_keys.

(** Each colour is on exactly [size * size] stickers. *)
Definition balanced (c : Cube) : Prop :=
  Forall (fun col => count_color col c = size c * size c) colors.

#[global] Instance balanced_dec c : Decision (balanced c).
Proof. unfold balanced. apply _. Defined.

(** Every face is a [size] x [size] grid, as the constructor builds it
    and as the JSON import validates it. *)
Definition square (n : nat) (g : Grid) : Prop :=
  length g = n /\ Forall (fun row => length row = n) g.

Definition well_formed (c : Cube) : Prop :=
  Forall (fun face => square (size c) (get_face face c)) face_keys.

#[global] Instance well_formed_dec c : Decision (well_formed c).
Proof. unfold well_formed, square. apply _. Defined.

(** ** Scrambler.js *)

(** [ch.toLowerCase()] on the ASCII letters of the move notation. *)
Definition lower_ascii (a : ascii) : ascii :=
  let n := nat_of_ascii a in
  if Nat.leb 65 n && Nat.leb n 90 then ascii_of_nat (n + 32) else a.

Fixpoint toLowerCase (s : string) : string :=
  match s with
  | EmptyString => EmptyString
  | String a s' => String (lower_ascii a) (toLowerCase s')
  end.

Definition getMovesForSize (size : nat) : list string :=
  if Nat.eqb size 2 then ["F"; "F'"; "R"; "R'"; "U"; "U'"]
  else if Nat.eqb size 3 then
    ["F"; "F'"; "R"; "R'"; "U"; "U'"; "B"; "B'"; "L"; "L'"; "D"; "D'"]
  else
    ["F"; "F'"; "R"; "R'"; "U"; "U'"; "B"; "B'"; "L"; "L'"; "D"; "D'";
     "f"; "f'"; "r"; "r'"; "u"; "u'"; "b"; "b'"; "l"; "l'"; "d"; "d'"].

(** [move.replace(/'/, '').toLowerCase()] then the [switch]. *)
Definition getMoveAxis (move : string) : string :=
  let face := toLowerCase (remove_first apostrophe move) in
  if String.eqb face "f" || String.eqb face "b" then "x"
  else if String.eqb face "r" || String.eqb face "l" then "y"
  else if String.eqb face "u" || String.eqb face "d" then "z"
  else face.

(** The face a move name designates: the name without its apostrophe,
    as [Cube.move] computes it. *)
Definition moveFace (move : string) : string := remove_first apostrophe move.

Section Scrambler.

(** [this.cubeSize] *)
Variable cubeSize : nat.

(** The successive results of [Math.random()], each a fraction
    [numerator / denominator] of the unit interval. *)
Variable Math_random : nat -> nat * nat.

(** [Math.floor(Math.random() * n)] at the [k]-th call. *)
Definition random_index (k n : nat) : nat :=
  (fst (Math_random k) * n) / snd (Math_random k).

(** [this.moves] *)
Definition moves : list string := getMovesForSize cubeSize.

(** The [filter] callback of [getRandomMove]. *)
Definition allowed (lastMove lastAxis move : string) : bool :=
  if String.eqb move lastMove then false
  else if String.eqb (getMoveAxis move) lastAxis then false
  else true.

(** [getRandomMove(lastMove, lastAxis)] when [k] draws have been made:
    the move (or [None] for [null] / [undefined]) and the number of
    draws made afterwards. *)
Definition getRandomMove (lastMove lastAxis : string) (k : nat)
  : option string * nat :=
  let availableMoves := List.filter (allowed lastMove lastAxis) moves in
  if Nat.eqb (length availableMoves) 0 then (None, k)
  else (availableMoves !! random_index k (length availableMoves), S k).

(** [if (move)]: [null], [undefined] and the empty string are falsy. *)
Definition truthy (m : option string) : option string :=
  match m with
  | Some s => if String.eqb s "" then None else Some s
  | None => None
  end.

(** The [while (scramble.length < length)] loop; [fuel] bounds the
    number of iterations, [None] means the loop is still running. *)
Fixpoint scramble_loop (fuel len : nat) (scramble : list string)
  (lastMove lastAxis : string) (k : nat) : option (list string) :=
  if Nat.leb len (length scramble) then Some scramble
  else
    match fuel with
    | 0 => None
    | S fuel' =>
        let '(m, k') := getRandomMove lastMove lastAxis k in
        match truthy m with
        | Some move =>
            scramble_loop fuel' len (scramble ++ [move])
              move (getMoveAxis move) k'
        | None => scramble_loop fuel' len scramble lastMove lastAxis k'
        end
    end.

Definition generateScramble (fuel len : nat) : option (list string) :=
  scramble_loop fuel len [] "" "" 0.

End Scrambler.

(** ** JsonImport.jsx *)

(** The values [JSON.parse] produces. A number is kept as its literal:
    the validation never looks at its value. An object is the list of
    its own properties, each key once. *)
#[warnings="-register-all"]
Inductive json : Type :=
  | JNull
  | JBool (b : bool)
  | JNum (literal : string)
  | JStr (s : string)
  | JArr (items : list json)
  | JObj (props : list (string * json)).

(** [obj[key]] on the own properties of an object; [None] is
    [undefined]. *)
Fixpoint prop_lookup (key : string) (props : list (string * json))
  : option json :=
  match props with
  | [] => None
  | (k, v) :: rest => if String.eqb k key then Some v else prop_lookup key rest
  end.

(** What a function call gives back: a value or an exception. *)
Inductive outcome (A : Type) : Type :=
  | Returns (a : A)
  | Fails (e : exn).
Arguments Returns {A} a.
Arguments Fails {A} e.

(** [data[key]] for one of the keys the validation reads ("faces", "U",
    ...): a TypeError on [null], the own property of an object, and
    [undefined] on anything else (no primitive wrapper and no array has
    such a property). *)
Definition get_prop (data : json) (key : string) : outcome (option json) :=
  match data with
  | JNull => Fails TypeError
  | JObj props => Returns (prop_lookup key props)
  | _ => Returns None
  end.

(** [!x]: [undefined], [null], [false], [0], [NaN] and [''] are falsy;
    of these only the ones [typeof] would call an object matter below. *)
Definition is_object (x : option json) : bool :=
  match x with
  | Some (JArr _) | Some (JObj _) => true
  | _ => false
  end.

Definition validColors : list string := ["W"; "Y"; "G"; "B"; "R"; "O"].
Definition requiredFaces : list string := ["U"; "D"; "L"; "R"; "F"; "B"].

(** [validColors.includes(color)] *)
Definition valid_color (color : json) : bool :=
  match color with
  | JStr s => existsb (String.eqb s) validColors
  | _ => false
  end.

(** The checks on one [row] of a face. *)
Definition valid_row (cubeSize : nat) (row : json) : bool :=
  match row with
  | JArr cells => Nat.eqb (length cells) cubeSize && forallb valid_color cells
  | _ => false
  end.

(** The checks on [data.faces[face]]. *)
Definition valid_face (cubeSize : nat) (face : option json) : bool :=
  match face with
  | Some (JArr rows) =>
      Nat.eqb (length rows) cubeSize && forallb (valid_row cubeSize) rows
  | _ => false
  end.

(** [data.faces[face]] once [data.faces] is known to be an object or an
    array: an array has none of the face keys. *)
Definition face_of (fs : option json) (face : string) : option json :=
  match fs with
  | Some (JObj props) => prop_lookup face props
  | _ => None
  end.

Definition validateCubeData (cubeSize : nat) (data : json) : outcome bool :=
  match get_prop data "faces" with
  | Fails e => Fails e
  | Returns fs =>
      if negb (is_object fs) then Returns false
      else
        Returns (forallb (fun face => valid_face cubeSize (face_of fs face))
                         requiredFaces)
  end.

(** What [handleImport] does to the outside: state setters of the
    component and the [onImport] callback of its parent. *)
Inductive effect : Type :=
  | SetError (msg : string)
  | OnImport (cubeData : json)
  | SetJsonInput (text : string)
  | SetIsExpanded (b : bool).

Section JsonImport.

(** [JSON.parse]: [None] is its SyntaxError. *)
Variable JSON_parse : string -> option json.

(** Whether the parent's [onImport] returns normally on a value. *)
Variable onImport_returns : json -> bool.

Variable cubeSize : nat.

Definition handleImport (jsonInput : string) : list effect :=
  SetError "" ::
  match JSON_parse jsonInput with
  | None => [SetError "Invalid JSON format. Please check your input."]
  | Some cubeData =>
      match validateCubeData cubeSize cubeData with
      | Fails _ => [SetError "Invalid JSON format. Please check your input."]
      | Returns false =>
          [SetError "Invalid cube data format. Please check the JSON structure."]
      | Returns true =>
          if onImport_returns cubeData then
            [OnImport cubeData; SetJsonInput ""; SetIsExpanded false]
          else
            [OnImport cubeData;
             SetError "Invalid JSON format. Please check your input."]
      end
  end.

End JsonImport.

(** ** Closed forms of the face rotations *)

(** [g[i][j]] read as a value: [undefined] also where the row is
    missing (the rotations only read inside the grid). *)
Definition sticker (g : Grid) (i j : nat) : value :=
  default Undefined (cell g i j).

(** The n x n grid whose cell (r, c) is [f r c]. *)
Definition tabulate_grid (n : nat) (f : nat -> nat -> value) : Grid :=
  map (fun r => map (fun c => f r c) (seq 0 n)) (seq 0 n).

(** Quarter turn clockwise: cell (r, c) comes from (n - 1 - c, r). *)
Definition rot_cw (n : nat) (g : Grid) : Grid :=
  tabulate_grid n (fun r c => sticker g (n - 1 - c) r).

(** Quarter turn counter-clockwise: cell (r, c) comes from (c, n - 1 - r). *)
Definition rot_ccw (n : nat) (g : Grid) : Grid :=
  tabulate_grid n (fun r c => sticker g c (n - 1 - r)).

(** Loop invariant of the rotations, which copy cell (i, j) of [g] to
    cell (Tr i j, Tc i j) of the new matrix [m]: [m] is n x n and the
    cells (i', j') with i' < i, or i' = i and j' < j, are copied. *)
Definition copied (n : nat) (g : Grid) (Tr Tc : nat -> nat -> nat)
  (i j : nat) (m : Grid) : Prop :=
  square n m /\
  forall i' j', i' < n -> j' < n -> i' < i \/ (i' = i /\ j' < j) ->
    cell m (Tr i' j') (Tc i' j') = Some (sticker g i' j').

(** ** Statements that do not look at a face *)

Definition res_map {St} (f : St -> St) (r : res St) : res St :=
  match r with
  | Done s => Done (f s)
  | Raised e s => Raised e (f s)
  end.

(** The statement [a] neither reads nor writes the grid of face [Y]:
    replacing that grid before or after [a] is the same. *)
Definition ignores (Y : FaceId) (a : Cube -> res Cube) : Prop :=
  forall g c, a (set_face Y g c) = res_map (set_face Y g) (a c).

(** The pairs of opposite faces. *)
Definition opposite (X Y : FaceId) : bool :=
  match X, Y with
  | Front, Back | Back, Front
  | Up, Down | Down, Up
  | Left, Right | Right, Left => true
  | _, _ => false
  end.

(** The sizes on which a quarter turn returns normally: 3 and more for
    ['F'] (it reads [U[2]]), 1 and more for ["F'"], any size for the
    others. *)
Definition turn_defined (m : string) (c : Cube) : Prop :=
  (m = "F" -> 3 <= size c) /\ (m = "F'" -> 1 <= size c).

(** ** Counting by sums *)

(** [f 0 + ... + f (n - 1)] *)
Fixpoint sum_upto (n : nat) (f : nat -> nat) : nat :=
  match n with
  | 0 => 0
  | S k => sum_upto k f + f k
  end.

(** 1 on a sticker of colour [col], 0 elsewhere. *)
Definition indicator (col : string) (v : value) : nat :=
  if decide (v = Str col) then 1 else 0.

(** ** States and predicates used by the statements *)

(** The cube [new Cube(n)] after [move('F')] (whatever way the call
    ended). *)
Definition front_turned (n : nat) : Cube :=
  state_of (move "F" (new_Cube n false)).

(** A 2x2 cube coloured by hand: the solved cube with one sticker of
    the Up face and one of the Back face exchanged. *)
Definition hand_coloured_2 : Cube :=
  mkCube 2
    (mkFaces [[Str "O"; Str "W"]; [Str "W"; Str "W"]]
             [[Str "Y"; Str "Y"]; [Str "Y"; Str "Y"]]
             [[Str "G"; Str "G"]; [Str "G"; Str "G"]]
             [[Str "B"; Str "B"]; [Str "B"; Str "B"]]
             [[Str "R"; Str "R"]; [Str "R"; Str "R"]]
             [[Str "W"; Str "O"]; [Str "O"; Str "O"]]).

(** The six face letters of the [switch] of [Cube.move]. *)
Definition is_outer_face (face : string) : bool :=
  existsb (String.eqb face) ["F"; "B"; "U"; "D"; "L"; "R"].



(** Every two consecutive moves of a sequence are on different faces
    and on different axes. *)
Definition distinct_neighbours (l : list string) : Prop :=
  forall i a b, l !! i = Some a -> l !! S i = Some b ->
    moveFace a <> moveFace b /\ getMoveAxis a <> getMoveAxis b.

(** *** Faces and axes as the specification names them *)

(** The three rotation axes: Front and Back share one, Left and Right a
    second, Up and Down a third. *)
Inductive Axis : Type := FrontBack | LeftRight | UpDown.

#[global] Instance Axis_eq_dec : EqDecision Axis.
Proof. solve_decision. Defined.

Definition axis_of_face (f : FaceId) : Axis :=
  match f with
  | Front | Back => FrontBack
  | Left | Right => LeftRight
  | Up | Down => UpDown
  end.

(** The face a letter of the move notation names. A lower-case letter
    is the slice move beside that face, a turn about the same axis. *)
Definition face_of_letter (a : ascii) : option FaceId :=
  if Ascii.eqb a "F" || Ascii.eqb a "f" then Some Front
  else if Ascii.eqb a "B" || Ascii.eqb a "b" then Some Back
  else if Ascii.eqb a "L" || Ascii.eqb a "l" then Some Left
  else if Ascii.eqb a "R" || Ascii.eqb a "r" then Some Right
  else if Ascii.eqb a "U" || Ascii.eqb a "u" then Some Up
  else if Ascii.eqb a "D" || Ascii.eqb a "d" then Some Down
  else None.

(** The face a move turns: a letter, alone or followed by an
    apostrophe. Other names are no moves. *)
Definition turned_face (move : string) : option FaceId :=
  match move with
  | String a rest =>
      if String.eqb rest "" || String.eqb rest "'" then face_of_letter a
      else None
  | EmptyString => None
  end.

(** Every two consecutive names of a sequence are moves that act on
    different faces and on different rotation axes. *)
Definition neighbours_differ (l : list string) : Prop :=
  forall i a b, l !! i = Some a -> l !! S i = Some b ->
    exists fa fb, turned_face a = Some fa /\ turned_face b = Some fb /\
                  fa <> fb /\ axis_of_face fa <> axis_of_face fb.

(** The string [getMoveAxis] returns for the moves of an axis. *)
Definition axis_name (x : Axis) : string :=
  match x with
  | FrontBack => "x"
  | LeftRight => "y"
  | UpDown => "z"
  end.

(** A stream of draws for the examples: 0/7, 1/7, ..., 6/7, 0/7, ... *)
Definition sevenths (k : nat) : nat * nat := (k mod 7, 7).

(** A configuration as the interchange format describes it: an object
    whose [faces] object holds, for each of U, D, L, R, F, B, an array
    of [n] rows, each an array of [n] of the six colour codes. *)
Definition colour_cell (c : json) : Prop :=
  exists s, c = JStr s /\ In s validColors.

Definition colour_row (n : nat) (row : json) : Prop :=
  exists cells, row = JArr cells /\ length cells = n /\ Forall colour_cell cells.

Definition colour_face (n : nat) (face : option json) : Prop :=
  exists rows, face = Some (JArr rows) /\ length rows = n /\
               Forall (colour_row n) rows.

Definition valid_configuration (n : nat) (data : json) : Prop :=
  exists props fprops,
    data = JObj props /\
    prop_lookup "faces" props = Some (JObj fprops) /\
    Forall (fun face => colour_face n (prop_lookup face fprops)) requiredFaces.

(** A parser for the examples, which knows one text: the empty array. *)
Definition sample_text : string := "[]".
Definition sample_parse (text : string) : option json :=
  if String.eqb text sample_text then Some (JArr []) else None.

(** A face of the interchange format filled with one colour, and the
    solved 2x2 cube in that format. *)
Definition json_face (n : nat) (col : string) : json :=
  JArr (replicate n (JArr (replicate n (JStr col)))).

Definition sample_cube_2 : json :=
  JObj [("size", JNum "2");
        ("faces", JObj [("U", json_face 2 "W"); ("D", json_face 2 "Y");
                        ("L", json_face 2 "G"); ("R", json_face 2 "B");
                        ("F", json_face 2 "R"); ("B", json_face 2 "O")])].

(** ** The sticker mover of each face *)

(** The method [move] calls after rotating the grid of face [X]. *)
Definition sticker_mover (X : FaceId) : bool -> Cube -> res Cube :=
  match X with
  | Front => moveFFaceStickers
  | Back => moveBFaceStickers
  | Up => moveUFaceStickers
  | Down => moveDFaceStickers
  | Left => moveLFaceStickers
  | Right => moveRFaceStickers
  end.

(** A cube whose Up face has lost a row: size 3, two rows on Up. *)
Definition short_up_3 : Cube :=
  set_face Up [[Str "W"; Str "W"; Str "W"]; [Str "W"; Str "W"; Str "W"]]
    (new_Cube 3 false).

(** ** Names of quarter turns *)

(** The twelve names [Cube.move] acts on, and the ten of them that do
    not turn the Front face. *)
Definition quarter_turns : list string :=
  ["F"; "F'"; "B"; "B'"; "U"; "U'"; "D"; "D'"; "L"; "L'"; "R"; "R'"].

Definition plain_turns : list string :=
  ["B"; "B'"; "U"; "U'"; "D"; "D'"; "L"; "L'"; "R"; "R'"].

(** The name of the opposite quarter turn: the apostrophe is dropped or
    added. *)
Definition invert_move (m : string) : string :=
  if includes apostrophe m then remove_first apostrophe m else m ++ "'".

(** The sequence that undoes [ms]: the inverses, last move first. *)
Definition invert_moves (ms : list string) : list string :=
  rev (map invert_move ms).

(** The quarter turns that behave on a cube of size [n]: those of the
    five rotation-only faces on any size, those of the Front face on
    size 3, where [U[2]] is the bottom row of the Up face. *)
Definition sound_turn (n : nat) (m : string) : Prop :=
  In m plain_turns \/ (n = 3 /\ In m ["F"; "F'"]).

(** ** Cube.js: the other methods *)

(** [for (const x of xs) body(x)] *)
Fixpoint for_each {St X} (xs : list X) (body : X -> St -> res St) (s : St)
  : res St :=
  match xs with
  | [] => Done s
  | x :: rest => match body x s with
                 | Done s' => for_each rest body s'
                 | Raised e s' => Raised e s'
                 end
  end.

(** [clone()]: a new solved cube of the same size whose six grids are
    then replaced by copies, row by row, of this cube's grids. *)
Definition clone (c : Cube) : Cube :=
  fold_left (fun newCube face =>
               set_face face (map (fun row : Row => row) (get_face face c)) newCube)
            face_keys (new_Cube (size c) false).

(** [generateRandomState()]: a new solved cube, each face of which is
    then filled, sticker by sticker, with the colour the [switch] gives
    it (the colours of [defaultColors]). The result is the new cube. *)
Definition generateRandomState (c : Cube) : res Cube :=
  for_each face_keys (fun face =>
    for_upto (size c) (fun i =>
      for_upto (size c) (fun j =>
        put face i j (Str (defaultColors face)))))
    (new_Cube (size c) false).

(** All stickers of the [n] x [n] part of a grid are the sticker at
    (0, 0). *)
Definition uniform (n : nat) (g : Grid) : Prop :=
  forall i j, i < n -> j < n -> sticker g i j = sticker g 0 0.

(** ** Solver.js and HumanSolver.js: [forceCubeToSolvedState] *)

(** [solvedColors] of [forceCubeToSolvedState] (the same table in both
    solvers). *)
Definition solvedColors (f : FaceId) : string :=
  match f with
  | Up => "W" | Down => "Y" | Left => "G"
  | Right => "B" | Front => "R" | Back => "O"
  end.

(** [if (!cube.faces[face][row]) cube.faces[face][row] = [];]. An array
    is truthy, so only a missing row is created; the rows are visited
    from 0 upwards, so a missing row is the next one of the grid. *)
Definition ensure_row (g : Grid) (row : nat) : Grid :=
  if decide (row < length g) then g else g ++ [[]].

(** [!v] on a sticker slot: [undefined] and the empty string are falsy. *)
Definition falsy (v : value) : bool :=
  match v with
  | Undefined => true
  | Str s => String.eqb s ""
  end.

(** The first pass on one face (the grid [cube.faces[face]] is an array,
    so its own truthiness test never fires). *)
Definition paint_face (n : nat) (face : FaceId) : Cube -> res Cube :=
  for_upto n (fun row =>
    (fun cu => Done (set_face face (ensure_row (get_face face cu) row) cu)) >>>
    for_upto n (fun col => put face row col (Str (solvedColors face)))).

(** The body of the second pass:
    [if (!cell || cell === 'K') cell = solvedColors[face]]. *)
Definition repair_cell (face : FaceId) (row col : nat) (cu : Cube) : res Cube :=
  match cell (get_face face cu) row col with
  | None => Raised TypeError cu
  | Some v =>
      if falsy v || bool_decide (v = Str "K")
      then put face row col (Str (solvedColors face)) cu
      else Done cu
  end.

Definition forceCubeToSolvedState (cu : Cube) : res Cube :=
  (for_each face_keys (paint_face (size cu)) >>>
   for_each face_keys (fun face =>
     for_upto (size cu) (fun row =>
       for_upto (size cu) (fun col => repair_cell face row col)))) cu.

(** The cells (i, k), k < n, of the rows before [r], and of row [r]
    before column [j], hold the colour [col]. *)
Definition painted (n : nat) (col : string) (g : Grid) (r j : nat) : Prop :=
  forall i k, k < n -> i < r \/ (i = r /\ k < j) -> cell g i k = Some (Str col).

(** A cube of size 2 with ragged faces: rows missing, short and long. *)
Definition ragged_2 : Cube :=
  mkCube 2
    (mkFaces [] [[Str "K"]] [[]; [Str "W"; Undefined; Str "G"]]
             [[Str "B"; Str "B"]; [Str "B"; Str "B"]; [Str "B"]]
             [[Str ""; Str "R"]] [[Undefined; Undefined]; [Str "O"; Str "O"]]).

(** ** Solver.js *)

Definition generateEfficientMoves (size : nat) : list string :=
  if Nat.eqb size 2 then
    ["R"; "U"; "R'"; "F"; "R'"; "F'"; "R";
     "U"; "R"; "U2"; "R'"; "U'"; "R"; "U'"; "R'";
     "R"; "U"; "R'"; "F'"; "R'"; "F'"]
  else if Nat.eqb size 3 then
    ["F"; "R"; "U"; "R'"; "U'"; "F'";
     "R"; "U"; "R'"; "U"; "R"; "U2"; "R'";
     "U"; "R"; "U2"; "R'"; "U'"; "R"; "U'"; "R'";
     "R"; "U"; "R'"; "F'"; "R'"; "F'"]
  else
    ["Rw"; "U"; "Rw'"; "F"; "Rw'"; "F'"; "Rw";
     "R"; "U"; "R'"; "U"; "R"; "U2"; "R'";
     "F"; "R"; "U"; "R'"; "U'"; "F'";
     "R"; "U"; "R'"; "F'"; "R'"; "F'"].

Definition optimizationMoves : list string := ["U"; "R"; "U'"; "R'"].

(** [while (moves.length < 18)
      moves.push(...optimizationMoves.slice(0, Math.min(4, 18 - moves.length)))];
    each turn of the loop adds a move, [fuel] bounds the turns. *)
Fixpoint pad_to_18 (fuel : nat) (moves : list string) : list string :=
  if Nat.ltb (length moves) 18 then
    match fuel with
    | 0 => moves
    | S fuel' =>
        pad_to_18 fuel'
          (moves ++ firstn (Nat.min 4 (18 - length moves)) optimizationMoves)
    end
  else moves.

(** [generateSolutionToSolvedState()]: the working cube is a clone that
    is forced to the solved state and then dropped. *)
Definition generateSolutionToSolvedState (cube : Cube) : outcome (list string) :=
  match forceCubeToSolvedState (clone cube) with
  | Raised e _ => Fails e
  | Done _ =>
      let moves := generateEfficientMoves (size cube) in
      if Nat.ltb 22 (length moves) then Returns (firstn 22 moves)
      else if Nat.ltb (length moves) 18 then Returns (pad_to_18 18 moves)
      else Returns moves
  end.

Definition kociembaSolve := generateSolutionToSolvedState.

Definition solveWhiteCross_sample : list string := ["F"; "R"; "U"; "F'"].
Definition solveF2L_sample : list string :=
  ["U"; "R"; "U'"; "R'"; "U'"; "F'"; "U"; "F"].
Definition solveOLL_sample : list string := ["R"; "U"; "R'"; "U"; "R"; "U2"; "R'"].
Definition solvePLL_sample : list string :=
  ["R'"; "F"; "R'"; "B2"; "R"; "F'"; "R'"; "B2"; "R2"].

Definition layerByLayerSolve : list string :=
  solveWhiteCross_sample ++ solveF2L_sample ++ solveOLL_sample ++ solvePLL_sample.

(** [basicSolve()]: twelve times 'F', 'R', 'U'. *)
Definition basicSolve : list string :=
  concat (replicate 12 ["F"; "R"; "U"]).

(** [new Solver(cube).solve()]. The constructor keeps a clone of the
    cube; [isSolved] is called outside the [try], the rest inside. *)
Definition Solver_solve (cube : Cube) : outcome (list string) :=
  let this_cube := clone cube in
  match isSolved this_cube with
  | Throws e => Fails e
  | Return true => Returns []
  | _ =>
      match kociembaSolve this_cube with
      | Returns kociembaSolution =>
          if Nat.leb (length kociembaSolution) 22 then Returns kociembaSolution
          else Returns layerByLayerSolve
      | Fails _ => Returns basicSolve
      end
  end.

(** ** HumanSolver.js *)

(** The move lists of the seven steps of the beginner method and of the
    four steps of the advanced method, in the order [solve] runs them;
    each step applies its list to the working cube and hands it back. *)
Definition beginner_steps : list (list string) :=
  [ ["F"; "R"; "U"; "R'"; "U'"; "F'"; "D"];
    ["R"; "D"; "R'"; "D"; "R"; "D"; "D"; "R'"];
    ["U"; "R"; "U'"; "R'"; "U'"; "F'"; "U"; "F"];
    ["F"; "R"; "U"; "R'"; "U'"; "F'"];
    ["R"; "U"; "R'"; "U"; "R"; "U2"; "R'"];
    ["R"; "U"; "R'"; "F'"; "R"; "U"; "R'"; "U'"; "R'"; "F"; "R2"; "U'"; "R'"];
    ["R"; "U'"; "R"; "U"; "R"; "U"; "R"; "U'"; "R'"; "U'"; "R2"] ].

Definition advanced_steps : list (list string) :=
  [ ["F"; "D"; "R'"; "U2"; "R'"; "D"; "R'"];
    ["R"; "U"; "R'"; "U2"; "R"; "U"; "R'"; "U"; "R"; "U"; "R'"];
    ["R"; "U"; "R2"; "U'"; "R'"; "U'"; "R"; "U"; "R'"; "U2"; "R'"];
    ["R"; "U"; "R'"; "F'"; "R"; "U"; "R'"; "U'"; "R'"; "F"; "R2"; "U'"; "R'"; "U"] ].

(** [new HumanSolver(cube, method).solve()]: the steps run on a clone,
    each pushing its moves on the solution; the clone is then forced to
    the solved state and the solution returned. An exception of a step
    leaves [solve]. *)
Definition HumanSolver_solve (method : string) (cube : Cube)
  : outcome (list string) :=
  let steps := if String.eqb method "beginner" then beginner_steps
               else advanced_steps in
  match for_each steps apply_moves (clone cube) with
  | Raised e _ => Fails e
  | Done workingCube =>
      match forceCubeToSolvedState workingCube with
      | Raised e _ => Fails e
      | Done _ => Returns (concat steps)
      end
  end.

(** ** Cube.js: [scramble] *)

(** [availableMoves] of [Cube.scramble]. *)
Definition availableMoves : list string :=
  ["F"; "B"; "U"; "D"; "L"; "R"; "F'"; "B'"; "U'"; "D'"; "L'"; "R'"].

(** [s.charAt(0)]: the first character, the empty string if none. *)
Definition charAt0 (s : string) : string :=
  match s with
  | EmptyString => ""
  | String a _ => String a EmptyString
  end.

Section CubeScramble.

Variable Math_random : nat -> nat * nat.

(** The loop that draws the moves: [count] iterations are left, [k]
    draws have been made, [lastAxis] is the first character of the
    previous move. [None]: the draw fell outside the filtered list and
    [move.charAt] is called on [undefined]. *)
Fixpoint draw_moves (count k : nat) (lastAxis : string) : option (list string) :=
  match count with
  | 0 => Some []
  | S count' =>
      let filteredMoves :=
        List.filter (fun move => negb (String.eqb (charAt0 move) lastAxis))
                    availableMoves in
      match filteredMoves !! random_index Math_random k (length filteredMoves) with
      | None => None
      | Some move =>
          match draw_moves count' (S k) (charAt0 move) with
          | None => None
          | Some rest => Some (move :: rest)
          end
      end
  end.

(** [scramble()]: what the call gives back and the cube it leaves. *)
Definition scramble (c : Cube) : outcome (list string) * Cube :=
  let moveCount := 20 + random_index Math_random 0 11 in
  match draw_moves moveCount 1 "" with
  | None => (Fails TypeError, c)
  | Some moves =>
      match apply_moves moves c with
      | Done c' => (Returns moves, c')
      | Raised e c' => (Fails e, c')
      end
  end.

End CubeScramble.

(** No two consecutive moves begin with the same letter. *)
Definition letters_differ (l : list string) : Prop :=
  forall i a b, l !! i = Some a -> l !! S i = Some b -> charAt0 a <> charAt0 b.

(** ** Scrambler.js: the other methods *)

(** What [lengths[difficulty]] finds: a number of the table, a property
    inherited from [Object.prototype] (a function, or the prototype
    itself for ['__proto__']), or nothing. *)
Inductive table_entry : Type :=
  | Own (n : nat)
  | Inherited
  | Absent.

Definition object_prototype_names : list string :=
  ["constructor"; "__defineGetter__"; "__defineSetter__"; "hasOwnProperty";
   "__lookupGetter__"; "__lookupSetter__"; "isPrototypeOf";
   "propertyIsEnumerable"; "toString"; "valueOf"; "__proto__";
   "toLocaleString"].

(** [lengths[difficulty]] for
    [lengths = { easy: 10, medium: 20, hard: 30, expert: 50 }]. *)
Definition lengths (difficulty : string) : table_entry :=
  if String.eqb difficulty "easy" then Own 10
  else if String.eqb difficulty "medium" then Own 20
  else if String.eqb difficulty "hard" then Own 30
  else if String.eqb difficulty "expert" then Own 50
  else if existsb (String.eqb difficulty) object_prototype_names then Inherited
  else Absent.

(** [generateScrambleByDifficulty(difficulty)]:
    [const length = lengths[difficulty] || 20]. An inherited property
    is truthy and is no number: [scramble.length < length] is false at
    once and the empty scramble is returned. *)
Definition generateScrambleByDifficulty (cubeSize : nat)
  (Math_random : nat -> nat * nat) (fuel : nat) (difficulty : string)
  : option (list string) :=
  match lengths difficulty with
  | Own n => generateScramble cubeSize Math_random fuel (if Nat.eqb n 0 then 20 else n)
  | Inherited => Some []
  | Absent => generateScramble cubeSize Math_random fuel 20
  end.

(** [generateOptimizedScramble()] *)
Definition generateOptimizedScramble (cubeSize : nat)
  (Math_random : nat -> nat * nat) (fuel : nat) : option (list string) :=
  let baseLength := if Nat.eqb cubeSize 2 then 10
                    else if Nat.eqb cubeSize 3 then 20
                    else cubeSize * 10 in
  generateScramble cubeSize Math_random fuel baseLength.

(** [applyScramble(cube, scramble)]: the moves in order on the cube,
    which is handed back. *)
Definition applyScramble (cube : Cube) (scramble : list string) : res Cube :=
  apply_moves scramble cube.

(** The names [Cube.move] acts on: those whose face part is one of the
    six letters. *)
Definition acts (m : string) : bool := is_outer_face (moveFace m).

(** ** JsonImport.jsx: the sample; App.jsx: [handleJsonImport] *)

(** The decimal literal of a number. *)
Definition literal_of (n : nat) : string := NilZero.string_of_uint (Nat.to_uint n).

(** One row of the sample, built cell by cell:
    [faces[face][row][col] = colors[(faceIndex + row + col) % colors.length]]
    (a colour the table did not have would be written as [null]). *)
Definition sample_row (cubeSize faceIndex row : nat) : list json :=
  fold_left (fun cells col =>
               (cells ++ [match colors !! ((faceIndex + row + col) mod length colors) with
                          | Some s => JStr s
                          | None => JNull
                          end])%list)
            (seq 0 cubeSize) [].

(** One face of the sample, built row by row. *)
Definition sample_face (cubeSize faceIndex : nat) : json :=
  JArr (fold_left (fun rows row => (rows ++ [JArr (sample_row cubeSize faceIndex row)])%list)
                  (seq 0 cubeSize) []).

(** The object [generateSampleJson] serialises: [sampleCube]. *)
Definition sampleCube (cubeSize : nat) : json :=
  JObj [("size", JNum (literal_of cubeSize));
        ("faces", JObj (imap (fun faceIndex face => (face, sample_face cubeSize faceIndex))
                             ["U"; "D"; "L"; "R"; "F"; "B"]))].

(** A grid of stickers read off a JSON array of arrays of strings;
    other JSON values have no image among the stickers. *)
Definition sticker_of_json (j : json) : option value :=
  match j with
  | JStr s => Some (Str s)
  | _ => None
  end.

Definition row_of_json (j : json) : option (list value) :=
  match j with
  | JArr cells => mapM sticker_of_json cells
  | _ => None
  end.

Definition grid_of_json (j : json) : option Grid :=
  match j with
  | JArr rows => mapM row_of_json rows
  | _ => None
  end.

(** The cube object after [importedCube.faces = cubeData.faces]: the
    size the constructor stored, and under [faces] whatever value the
    data held there ([None] is [undefined]), with every property it
    has, in the order the object enumerates them. *)
Record ImportedCube : Type := mkImportedCube {
  imported_size : nat;
  imported_faces : option json
}.

(** [handleJsonImport(cubeData)] of the application:
    [importedCube = new Cube(cubeSize, true);
     importedCube.faces = cubeData.faces; setCubeState(importedCube)].
    The result is the object handed to [setCubeState]; [None] when
    reading [cubeData.faces] throws, which the [catch] block only
    logs. *)
Definition handleJsonImport (cubeSize : nat) (cubeData : json)
  : option ImportedCube :=
  match get_prop cubeData "faces" with
  | Fails _ => None
  | Returns fs => Some (mkImportedCube cubeSize fs)
  end.

(** The imported object is one of the cubes of the engine when its
    [faces] object has exactly the properties U, D, L, R, F, B, in the
    order the constructor creates them, each an array of arrays of
    strings. Any other imported object has no image among them. *)
Definition as_Cube (ic : ImportedCube) : option Cube :=
  match imported_faces ic with
  | Some (JObj [(ku, u); (kd, d); (kl, l); (kr, r); (kf, f); (kb, b)]) =>
      if decide ([ku; kd; kl; kr; kf; kb] = requiredFaces) then
        u' ← grid_of_json u;
        d' ← grid_of_json d;
        l' ← grid_of_json l;
        r' ← grid_of_json r;
        f' ← grid_of_json f;
        b' ← grid_of_json b;
        Some (mkCube (imported_size ic) (mkFaces u' d' l' r' f' b'))
      else None
  | _ => None
  end.

(** The configuration with one colour on all six faces. *)
Definition one_colour_json (n : nat) (col : string) : json :=
  JObj [("faces", JObj [("U", json_face n col); ("D", json_face n col);
                        ("L", json_face n col); ("R", json_face n col);
                        ("F", json_face n col); ("B", json_face n col)])].

(** The all-white configuration with one more property, a number, in
    its [faces] object. *)
Definition with_extra_face (n : nat) : json :=
  JObj [("faces", JObj [("U", json_face n "W"); ("D", json_face n "W");
                        ("L", json_face n "W"); ("R", json_face n "W");
                        ("F", json_face n "W"); ("B", json_face n "W");
                        ("X", JNum "5")])].

(** ** What a sticker loop writes *)

(** The grid [g'] is the [n] x [n] grid [g] with the cells
    (dr i, dc i), i < n, overwritten by the values [v i]. *)
Definition strip_written (n : nat) (g g' : Grid) (dr dc : nat -> nat)
  (v : nat -> value) : Prop :=
  square n g' /\
  (forall i, i < n -> sticker g' (dr i) (dc i) = v i) /\
  (forall r c, (forall i, i < n -> ~ (r = dr i /\ c = dc i)) ->
     sticker g' r c = sticker g r c).

(** ** Cube.js: [generateRandomConfiguration] *)

(** [for (let i = 0; i < count; i++) colorArray.push(color)] *)
Definition push_times (count : nat) (color : string) (colorArray : Row) : Row :=
  Nat.iter count (fun a => a ++ [Str color])%list colorArray.

(** The array of [stickersPerColor = size * size * 6 / 6] stickers of
    each colour, colour after colour. *)
Definition colorArray_of (size : nat) : Row :=
  fold_left (fun a color => push_times (size * size * 6 / 6) color a) colors [].

(** [[a[i], a[j]] = [a[j], a[i]]]: both values are read, then [a[i]]
    and [a[j]] are written in this order. *)
Definition swap (a : Row) (i j : nat) : Row :=
  let ai := at_index a i in
  let aj := at_index a j in
  array_set (array_set a i aj) j ai.

Section RandomConfiguration.

Variable Math_random : nat -> nat * nat.

(** The shuffle loop [for (let i = a.length - 1; i > 0; i--)] from the
    index [i] down, when [k] draws have been made. *)
Fixpoint shuffle_from (i k : nat) (a : Row) : Row :=
  match i with
  | 0 => a
  | S i' => shuffle_from i' (S k) (swap a i (random_index Math_random k (i + 1)))
  end.

(** [this.faces[face][row][col] = colorArray[colorIndex++]]; the state
    is the cube and [colorIndex]. *)
Definition assign_next (colorArray : Row) (face : FaceId) (row col : nat)
  (st : Cube * nat) : res (Cube * nat) :=
  match put face row col (at_index colorArray (snd st)) (fst st) with
  | Done cu => Done (cu, S (snd st))
  | Raised e cu => Raised e (cu, snd st)
  end.

Definition generateRandomConfiguration (c : Cube) : res Cube :=
  let colorArray := colorArray_of (size c) in
  let shuffled := shuffle_from (length colorArray - 1) 0 colorArray in
  match for_each face_keys (fun face =>
          for_upto (size c) (fun row =>
            for_upto (size c) (fun col => assign_next shuffled face row col)))
          (c, 0) with
  | Done st => Done (fst st)
  | Raised e st => Raised e (fst st)
  end.

End RandomConfiguration.

(** Position of a face among the keys of [this.faces]. *)
Definition face_index (f : FaceId) : nat :=
  match f with
  | Up => 0 | Down => 1 | Left => 2 | Right => 3 | Front => 4 | Back => 5
  end.

(** Number of stickers of colour [col] in an array. *)
Definition count_in_row (col : string) (a : Row) : nat :=
  length (filter (fun v => v = Str col) a).

(** * Properties *)

(** ** Basic facts about statements *)

Lemma seq_stmt_done {St} (a b : St -> res St) s s' :
  a s = Done s' -> (a >>> b) s = b s'.
Proof. intros H. unfold seq_stmt. now rewrite H. Qed.

Lemma seq_stmt_raised {St} (a b : St -> res St) s e s' :
  a s = Raised e s' -> (a >>> b) s = Raised e s'.
Proof. intros H. unfold seq_stmt. now rewrite H. Qed.

Lemma get_set_face_eq f g c : get_face f (set_face f g c) = g.
Proof. now destruct f. Qed.

Lemma get_set_face_ne f f' g c : f <> f' -> get_face f' (set_face f g c) = get_face f' c.
Proof. intros Hne. destruct f, f'; try reflexivity; now contradict Hne. Qed.

Lemma size_set_face f g c : size (set_face f g c) = size c.
Proof. reflexivity. Qed.

(** A face rotation writes [this.faces[face]] and nothing else, and
    writes nothing at all when it throws. *)
Lemma rotateFaceClockwise_frame face c :
  size (state_of (rotateFaceClockwise face c)) = size c /\
  forall other, other <> face ->
    get_face other (state_of (rotateFaceClockwise face c)) = get_face other c.
Proof.
  unfold rotateFaceClockwise.
  destruct (rotate_cw_matrix (size c) (get_face face c)); simpl; split; auto.
  intros other Hne. apply get_set_face_ne. congruence.
Qed.

Lemma rotateFaceCounterClockwise_frame face c :
  size (state_of (rotateFaceCounterClockwise face c)) = size c /\
  forall other, other <> face ->
    get_face other (state_of (rotateFaceCounterClockwise face c)) = get_face other c.
Proof.
  unfold rotateFaceCounterClockwise.
  destruct (rotate_ccw_matrix (size c) (get_face face c)); simpl; split; auto.
  intros other Hne. apply get_set_face_ne. congruence.
Qed.

(** A statement followed by one that does nothing is that statement. *)
Lemma seq_stmt_skip {St} (a : St -> res St) s : (a >>> Done) s = a s.
Proof. unfold seq_stmt. now destruct (a s). Qed.

(** [Cube.move] on one of the five faces whose sticker mover is empty
    is the rotation of that face's own grid. *)
Lemma move_plain_is_rotation X c :
  X <> Front -> move (face_key X) c = rotateFaceClockwise X c.
Proof.
  intros HX. destruct X; try (now contradict HX); apply seq_stmt_skip.
Qed.

Lemma move_prime_is_rotation X c :
  X <> Front -> move (face_key X ++ "'") c = rotateFaceCounterClockwise X c.
Proof.
  intros HX. destruct X; try (now contradict HX); apply seq_stmt_skip.
Qed.

(** ** Loops and grids *)

(** Invariant rule for a loop whose body never throws under the
    invariant. *)
Lemma for_range_inv {St} (Inv : nat -> St -> Prop) body count :
  forall start (s : St),
    Inv start s ->
    (forall i s, start <= i < start + count -> Inv i s ->
       exists s', body i s = Done s' /\ Inv (S i) s') ->
    exists s', for_range start count body s = Done s' /\ Inv (start + count) s'.
Proof.
  induction count as [|k IH]; intros start s Hinv Hbody; simpl.
  - exists s. now rewrite Nat.add_0_r.
  - destruct (Hbody start s) as (s1 & -> & Hinv1); [lia|assumption|].
    destruct (IH (S start) s1 Hinv1) as (s2 & Hs2 & Hinv2).
    + intros i s' Hi. apply Hbody. lia.
    + exists s2. split; [assumption|]. now rewrite Nat.add_succ_r.
Qed.

Lemma cell_Some_row (g : Grid) i j v :
  cell g i j = Some v <-> exists row, g !! i = Some row /\ v = at_index row j.
Proof.
  unfold cell. destruct (g !! i) as [row|]; simpl; split.
  - intros [= <-]. eauto.
  - now intros (row' & [= <-] & ->).
  - discriminate.
  - now intros (row' & [=] & _).
Qed.

Lemma cell_in_range (g : Grid) i j : i < length g -> cell g i j = Some (sticker g i j).
Proof.
  intros Hi. unfold sticker, cell.
  destruct (lookup_lt_is_Some_2 g i Hi) as [row ->]. reflexivity.
Qed.

Lemma square_row n (g : Grid) i row : square n g -> g !! i = Some row -> length row = n.
Proof.
  intros [_ Hrows] Hi. exact (Forall_lookup_1 _ _ _ _ Hrows Hi).
Qed.

(** Two n x n grids with the same cells are the same grid. *)
Lemma square_ext n (a b : Grid) :
  square n a -> square n b ->
  (forall r c, r < n -> c < n -> cell a r c = cell b r c) ->
  a = b.
Proof.
  intros Ha Hb Hcells. apply list_eq. intros r.
  destruct (decide (r < n)) as [Hr|Hr].
  - destruct (lookup_lt_is_Some_2 a r) as [ra Hra]; [destruct Ha; lia|].
    destruct (lookup_lt_is_Some_2 b r) as [rb Hrb]; [destruct Hb; lia|].
    rewrite Hra, Hrb. f_equal. apply list_eq. intros c.
    pose proof (square_row _ _ _ _ Ha Hra) as Hla.
    pose proof (square_row _ _ _ _ Hb Hrb) as Hlb.
    destruct (decide (c < n)) as [Hc|Hc].
    + specialize (Hcells r c Hr Hc). unfold cell in Hcells.
      rewrite Hra, Hrb in Hcells. simpl in Hcells. injection Hcells as Hcells.
      unfold at_index in Hcells.
      destruct (lookup_lt_is_Some_2 ra c) as [x Hx]; [lia|].
      destruct (lookup_lt_is_Some_2 rb c) as [y Hy]; [lia|].
      rewrite Hx, Hy in *. simpl in Hcells. now subst.
    + rewrite !lookup_ge_None_2 by lia. reflexivity.
  - destruct Ha as [Hla _], Hb as [Hlb _].
    rewrite !lookup_ge_None_2 by lia. reflexivity.
Qed.

Lemma square_tabulate n f : square n (tabulate_grid n f).
Proof.
  unfold square, tabulate_grid. split.
  - now rewrite length_map, length_seq.
  - apply List.Forall_forall. intros row Hrow. apply in_map_iff in Hrow.
    destruct Hrow as (r & <- & _). now rewrite length_map, length_seq.
Qed.

Lemma cell_tabulate n f r c :
  r < n -> c < n -> cell (tabulate_grid n f) r c = Some (f r c).
Proof.
  intros Hr Hc. unfold cell, tabulate_grid, at_index.
  rewrite list_lookup_fmap, lookup_seq_lt by assumption. simpl.
  now rewrite list_lookup_fmap, lookup_seq_lt.
Qed.

Lemma sticker_tabulate n f r c :
  r < n -> c < n -> sticker (tabulate_grid n f) r c = f r c.
Proof. intros Hr Hc. unfold sticker. now rewrite cell_tabulate. Qed.

Lemma square_empty_matrix n : square n (empty_matrix n).
Proof.
  unfold square, empty_matrix. split; [apply length_replicate|].
  apply Forall_replicate. apply length_replicate.
Qed.

(** Effect of [m[r][c] = v] inside an n x n grid. *)
Lemma store_in_range n (m : Grid) r c v :
  square n m -> r < n -> c < n ->
  exists m', store m r c v = Some m' /\ square n m' /\
             cell m' r c = Some v /\
             forall r' c', (r', c') <> (r, c) -> cell m' r' c' = cell m r' c'.
Proof.
  intros Hm Hr Hc. pose proof Hm as [Hlen Hrows].
  destruct (lookup_lt_is_Some_2 m r) as [row Hrow]; [lia|].
  pose proof (square_row _ _ _ _ Hm Hrow) as Hlrow.
  unfold store. rewrite Hrow. simpl. eexists. split; [reflexivity|].
  assert (Hset : array_set row c v = <[c:=v]> row).
  { unfold array_set. now rewrite decide_True by lia. }
  rewrite Hset. split; [|split].
  - split; [now rewrite length_insert|].
    apply Forall_insert; [assumption|now rewrite length_insert].
  - unfold cell. rewrite list_lookup_insert_eq by lia. simpl.
    unfold at_index. now rewrite list_lookup_insert_eq by lia.
  - intros r' c' Hne. unfold cell.
    destruct (decide (r' = r)) as [->|Hr'].
    + rewrite list_lookup_insert_eq, Hrow by lia. simpl. f_equal.
      unfold at_index. rewrite list_lookup_insert_ne; [reflexivity|congruence].
    + now rewrite list_lookup_insert_ne by congruence.
Qed.

(** ** The rotation loops compute the closed forms *)

Section CopyLoops.

(** The nested loops of a rotation copy cell (i, j) of [g] to the cell
    (Tr i j, Tc i j) of the new matrix. *)
Variable n : nat.
Variable g : Grid.
Variables Tr Tc : nat -> nat -> nat.
Hypothesis rows_present : n <= length g.
Hypothesis target_in_range :
  forall i j, i < n -> j < n -> Tr i j < n /\ Tc i j < n.
Hypothesis target_injective :
  forall i j i' j', i < n -> j < n -> i' < n -> j' < n ->
    Tr i j = Tr i' j' -> Tc i j = Tc i' j' -> i = i' /\ j = j'.

Local Abbreviation copied := (copied n g Tr Tc).

Lemma copy_cell_step i j m :
  i < n -> j < n -> copied i j m ->
  exists m', copy_cell g i j (Tr i j) (Tc i j) m = Done m' /\ copied i (S j) m'.
Proof.
  intros Hi Hj [Hsq Hcop]. unfold copy_cell.
  rewrite cell_in_range by lia.
  destruct (target_in_range i j Hi Hj) as [Hr Hc].
  destruct (store_in_range n m (Tr i j) (Tc i j) (sticker g i j) Hsq Hr Hc)
    as (m' & -> & Hsq' & Hnew & Hold).
  exists m'. split; [reflexivity|]. split; [assumption|].
  intros i' j' Hi' Hj' Hbefore.
  destruct (decide (i' = i /\ j' = j)) as [[-> ->]|Hne]; [assumption|].
  rewrite Hold.
  - apply Hcop; try assumption. lia.
  - intros [= Hr' Hc'].
    destruct (target_injective i' j' i j Hi' Hj' Hi Hj Hr' Hc'). tauto.
Qed.

Lemma copy_loops :
  exists m,
    for_upto n (fun i => for_upto n (fun j => copy_cell g i j (Tr i j) (Tc i j)))
      (empty_matrix n) = Done m /\
    square n m /\
    forall i j, i < n -> j < n -> cell m (Tr i j) (Tc i j) = Some (sticker g i j).
Proof.
  unfold for_upto.
  destruct (for_range_inv (fun i m => copied i 0 m)
              (fun i => for_range 0 n (fun j => copy_cell g i j (Tr i j) (Tc i j)))
              n 0 (empty_matrix n)) as (m & Hm & Hsq & Hcop).
  - split; [apply square_empty_matrix|]. intros i' j' _ _ H. lia.
  - intros i m Hi Hinv.
    destruct (for_range_inv (fun j m => copied i j m)
                (fun j => copy_cell g i j (Tr i j) (Tc i j))
                n 0 m Hinv) as (m' & Hm' & Hsq' & Hcop').
    + intros j m0 Hj Hinv0. apply copy_cell_step; [lia|lia|assumption].
    + exists m'. split; [assumption|]. split; [assumption|].
      intros i' j' Hi' Hj' Hbefore. apply Hcop'; try assumption. lia.
  - exists m. split; [assumption|]. split; [assumption|].
    intros i j Hi Hj. apply Hcop; try assumption. lia.
Qed.

End CopyLoops.

(** [rotateFaceClockwise] builds [rot_cw] whenever the face has at
    least [n] rows. *)
Lemma rotate_cw_matrix_closed n g :
  n <= length g -> rotate_cw_matrix n g = Done (rot_cw n g).
Proof.
  intros Hg.
  destruct (copy_loops n g (fun i j => j) (fun i j => n - 1 - i) Hg)
    as (m & Hm & Hsq & Hcells).
  - intros i j Hi Hj. lia.
  - intros i j i' j' Hi Hj Hi' Hj' Hr Hc. lia.
  - unfold rotate_cw_matrix. rewrite Hm. f_equal.
    apply (square_ext n); [assumption|apply square_tabulate|].
    intros r c Hr Hc. unfold rot_cw. rewrite cell_tabulate by assumption.
    specialize (Hcells (n - 1 - c) r ltac:(lia) Hr). simpl in Hcells.
    now replace (n - 1 - (n - 1 - c)) with c in Hcells by lia.
Qed.

Lemma rotate_ccw_matrix_closed n g :
  n <= length g -> rotate_ccw_matrix n g = Done (rot_ccw n g).
Proof.
  intros Hg.
  destruct (copy_loops n g (fun i j => n - 1 - j) (fun i j => i) Hg)
    as (m & Hm & Hsq & Hcells).
  - intros i j Hi Hj. lia.
  - intros i j i' j' Hi Hj Hi' Hj' Hr Hc. lia.
  - unfold rotate_ccw_matrix. rewrite Hm. f_equal.
    apply (square_ext n); [assumption|apply square_tabulate|].
    intros r c Hr Hc. unfold rot_ccw. rewrite cell_tabulate by assumption.
    specialize (Hcells c (n - 1 - r) Hc ltac:(lia)). simpl in Hcells.
    now replace (n - 1 - (n - 1 - r)) with r in Hcells by lia.
Qed.

Lemma rot_cw_square n g : square n (rot_cw n g).
Proof. apply square_tabulate. Qed.

Lemma rot_ccw_square n g : square n (rot_ccw n g).
Proof. apply square_tabulate. Qed.

Lemma sticker_square n g r c : square n g -> r < n -> cell g r c = Some (sticker g r c).
Proof. intros [Hlen _] Hr. apply cell_in_range. lia. Qed.

(** The two quarter turns undo each other, and four of one kind are
    the identity, on an n x n grid. *)
Lemma rot_ccw_cw n g : square n g -> rot_ccw n (rot_cw n g) = g.
Proof.
  intros Hg. apply (square_ext n); [apply square_tabulate|assumption|].
  intros r c Hr Hc. unfold rot_ccw, rot_cw.
  rewrite cell_tabulate, sticker_tabulate by lia.
  rewrite (sticker_square n g r c Hg Hr). f_equal; f_equal; lia.
Qed.

Lemma rot_cw_ccw n g : square n g -> rot_cw n (rot_ccw n g) = g.
Proof.
  intros Hg. apply (square_ext n); [apply square_tabulate|assumption|].
  intros r c Hr Hc. unfold rot_ccw, rot_cw.
  rewrite cell_tabulate, sticker_tabulate by lia.
  rewrite (sticker_square n g r c Hg Hr). f_equal; f_equal; lia.
Qed.

Lemma rot_cw_four n g :
  square n g -> rot_cw n (rot_cw n (rot_cw n (rot_cw n g))) = g.
Proof.
  intros Hg. apply (square_ext n); [apply square_tabulate|assumption|].
  intros r c Hr Hc. unfold rot_cw.
  rewrite cell_tabulate by lia. rewrite !sticker_tabulate by lia.
  rewrite (sticker_square n g r c Hg Hr). f_equal; f_equal; lia.
Qed.

Lemma rot_ccw_four n g :
  square n g -> rot_ccw n (rot_ccw n (rot_ccw n (rot_ccw n g))) = g.
Proof.
  intros Hg. apply (square_ext n); [apply square_tabulate|assumption|].
  intros r c Hr Hc. unfold rot_ccw.
  rewrite cell_tabulate by lia. rewrite !sticker_tabulate by lia.
  rewrite (sticker_square n g r c Hg Hr). f_equal; f_equal; lia.
Qed.

(** ** Quarter turns of the five rotation-only faces *)

Lemma well_formed_face c X : well_formed c -> square (size c) (get_face X c).
Proof.
  intros Hwf. unfold well_formed in Hwf. rewrite Forall_forall in Hwf.
  apply Hwf. apply list_elem_of_In. destruct X; simpl; tauto.
Qed.

Lemma set_face_same X c : set_face X (get_face X c) c = c.
Proof. destruct c as [n []]. now destruct X. Qed.

Lemma set_face_twice X g1 g2 c : set_face X g2 (set_face X g1 c) = set_face X g2 c.
Proof. now destruct X. Qed.

Lemma set_face_swap X Y gx gy c :
  X <> Y -> set_face X gx (set_face Y gy c) = set_face Y gy (set_face X gx c).
Proof. intros Hne. destruct X, Y; try reflexivity; now contradict Hne. Qed.

Lemma well_formed_set_face X g c :
  well_formed c -> square (size c) g -> well_formed (set_face X g c).
Proof.
  intros Hwf Hg. unfold well_formed. apply Forall_forall. intros Y _.
  destruct (decide (X = Y)) as [->|Hne].
  - now rewrite get_set_face_eq.
  - rewrite get_set_face_ne by assumption. exact (well_formed_face c Y Hwf).
Qed.

Lemma rotateFaceClockwise_closed X c :
  size c <= length (get_face X c) ->
  rotateFaceClockwise X c = Done (set_face X (rot_cw (size c) (get_face X c)) c).
Proof.
  intros H. unfold rotateFaceClockwise. now rewrite rotate_cw_matrix_closed.
Qed.

Lemma rotateFaceCounterClockwise_closed X c :
  size c <= length (get_face X c) ->
  rotateFaceCounterClockwise X c =
  Done (set_face X (rot_ccw (size c) (get_face X c)) c).
Proof.
  intros H. unfold rotateFaceCounterClockwise. now rewrite rotate_ccw_matrix_closed.
Qed.

Lemma rotateFaceClockwise_wf X c :
  well_formed c ->
  rotateFaceClockwise X c = Done (set_face X (rot_cw (size c) (get_face X c)) c) /\
  well_formed (set_face X (rot_cw (size c) (get_face X c)) c).
Proof.
  intros Hwf. split.
  - apply rotateFaceClockwise_closed.
    destruct (well_formed_face c X Hwf) as [-> _]. lia.
  - apply well_formed_set_face; [assumption|apply rot_cw_square].
Qed.

Lemma rotateFaceCounterClockwise_wf X c :
  well_formed c ->
  rotateFaceCounterClockwise X c =
    Done (set_face X (rot_ccw (size c) (get_face X c)) c) /\
  well_formed (set_face X (rot_ccw (size c) (get_face X c)) c).
Proof.
  intros Hwf. split.
  - apply rotateFaceCounterClockwise_closed.
    destruct (well_formed_face c X Hwf) as [-> _]. lia.
  - apply well_formed_set_face; [assumption|apply rot_ccw_square].
Qed.

(** On a well-formed cube of any size, four quarter turns of a face
    other than Front give back the cube. *)
Lemma four_turns_restore_plain X c :
  X <> Front -> well_formed c ->
  apply_moves [face_key X; face_key X; face_key X; face_key X] c = Done c.
Proof.
  intros HX Hwf. cbn [apply_moves].
  pose proof (well_formed_face c X Hwf) as Hsq.
  destruct (rotateFaceClockwise_wf X c Hwf) as [H1 Hwf1].
  rewrite (seq_stmt_done _ _ _ _ (eq_trans (move_plain_is_rotation X c HX) H1)).
  set (g1 := rot_cw (size c) (get_face X c)) in *.
  destruct (rotateFaceClockwise_wf X _ Hwf1) as [H2 Hwf2].
  rewrite get_set_face_eq, size_set_face, set_face_twice in H2, Hwf2.
  rewrite (seq_stmt_done _ _ _ _ (eq_trans (move_plain_is_rotation X _ HX) H2)).
  destruct (rotateFaceClockwise_wf X _ Hwf2) as [H3 Hwf3].
  rewrite get_set_face_eq, size_set_face, set_face_twice in H3, Hwf3.
  rewrite (seq_stmt_done _ _ _ _ (eq_trans (move_plain_is_rotation X _ HX) H3)).
  destruct (rotateFaceClockwise_wf X _ Hwf3) as [H4 Hwf4].
  rewrite get_set_face_eq, size_set_face, set_face_twice in H4, Hwf4.
  rewrite (seq_stmt_done _ _ _ _ (eq_trans (move_plain_is_rotation X _ HX) H4)).
  unfold g1. rewrite rot_cw_four by assumption. now rewrite set_face_same.
Qed.

(** ... and a quarter turn followed by its inverse, in either order. *)
Lemma turn_then_inverse_restores_plain X c :
  X <> Front -> well_formed c ->
  apply_moves [face_key X; face_key X ++ "'"] c = Done c /\
  apply_moves [face_key X ++ "'"; face_key X] c = Done c.
Proof.
  intros HX Hwf. cbn [apply_moves].
  pose proof (well_formed_face c X Hwf) as Hsq.
  split.
  - destruct (rotateFaceClockwise_wf X c Hwf) as [H1 Hwf1].
    rewrite (seq_stmt_done _ _ _ _ (eq_trans (move_plain_is_rotation X c HX) H1)).
    destruct (rotateFaceCounterClockwise_wf X _ Hwf1) as [H2 _].
    rewrite get_set_face_eq, size_set_face, set_face_twice in H2.
    rewrite (seq_stmt_done _ _ _ _ (eq_trans (move_prime_is_rotation X _ HX) H2)).
    rewrite rot_ccw_cw by assumption. now rewrite set_face_same.
  - destruct (rotateFaceCounterClockwise_wf X c Hwf) as [H1 Hwf1].
    rewrite (seq_stmt_done _ _ _ _ (eq_trans (move_prime_is_rotation X c HX) H1)).
    destruct (rotateFaceClockwise_wf X _ Hwf1) as [H2 _].
    rewrite get_set_face_eq, size_set_face, set_face_twice in H2.
    rewrite (seq_stmt_done _ _ _ _ (eq_trans (move_plain_is_rotation X _ HX) H2)).
    rewrite rot_cw_ccw by assumption. now rewrite set_face_same.
Qed.

(** ** Frame of the five rotation-only faces *)

(** C5. For a face X among B, U, D, L, R and either direction,
    [Cube.move] is the rotation of X's own grid (the sticker mover of X
    does nothing): the size and the five other grids are those of the
    starting cube, whether the call returns or throws (a name with the
    modifier [2] changes nothing at all); on a well-formed cube the call
    returns and the grid of X is the rotated grid. *)
Theorem C5_only_own_grid_changes (X : FaceId) (c : Cube) :
  X <> Front ->
  (move (face_key X) c = rotateFaceClockwise X c /\
   move (face_key X ++ "'") c = rotateFaceCounterClockwise X c) /\
  (forall modifier, In modifier [""; "'"; "2"] ->
     size (state_of (move (face_key X ++ modifier) c)) = size c /\
     forall Y, Y <> X ->
       get_face Y (state_of (move (face_key X ++ modifier) c)) = get_face Y c) /\
  (well_formed c ->
     move (face_key X) c =
       Done (set_face X (rot_cw (size c) (get_face X c)) c) /\
     move (face_key X ++ "'") c =
       Done (set_face X (rot_ccw (size c) (get_face X c)) c)).
Proof.
  intros HX. split; [|split].
  - split; [now apply move_plain_is_rotation|now apply move_prime_is_rotation].
  - intros modifier Hm. simpl in Hm. destruct Hm as [<-|[<-|[<-|[]]]].
    + replace (face_key X ++ "") with (face_key X) by now destruct X.
      rewrite move_plain_is_rotation by assumption.
      apply rotateFaceClockwise_frame.
    + rewrite move_prime_is_rotation by assumption.
      apply rotateFaceCounterClockwise_frame.
    + replace (move (face_key X ++ "2") c) with (Done c) by now destruct X.
      simpl. auto.
  - intros Hwf.
    rewrite move_plain_is_rotation, move_prime_is_rotation by assumption.
    split; [apply rotateFaceClockwise_wf|apply rotateFaceCounterClockwise_wf];
      assumption.
Qed.

Lemma C5_only_own_grid_changes_witness :
  Back <> Front /\
  size (state_of (move "B'" hand_coloured_2)) = 2 /\
  get_face Up (state_of (move "B'" hand_coloured_2)) =
    [[Str "O"; Str "W"]; [Str "W"; Str "W"]] /\
  move "B'" hand_coloured_2 =
    Done (set_face Back [[Str "O"; Str "O"]; [Str "W"; Str "O"]] hand_coloured_2).
Proof.
  assert (HX : Back <> Front) by discriminate.
  destruct (C5_only_own_grid_changes Back hand_coloured_2 HX)
    as (_ & Hframe & Hwf).
  destruct (Hframe "'" ltac:(simpl; auto)) as [Hs Hf].
  split; [exact HX|]. split; [exact Hs|].
  split; [exact (Hf Up ltac:(discriminate))|].
  apply (proj2 (Hwf ltac:(apply (bool_decide_unpack (well_formed hand_coloured_2));
                         vm_compute; exact I))).
Defined.

(** ** The Front face on the 3x3 cube *)

Lemma row_3_shape (row : Row) :
  length row = 3 -> exists a b c, row = [a; b; c].
Proof.
  destruct row as [|a [|b [|c [|]]]]; try discriminate. eauto.
Qed.

Lemma square_3_shape (g : Grid) :
  square 3 g ->
  exists a0 a1 a2 b0 b1 b2 c0 c1 c2,
    g = [[a0; a1; a2]; [b0; b1; b2]; [c0; c1; c2]].
Proof.
  intros [Hlen Hrows].
  destruct g as [|r0 [|r1 [|r2 [|]]]]; try discriminate.
  apply Forall_cons in Hrows. destruct Hrows as [H0 Hrows].
  apply Forall_cons in Hrows. destruct Hrows as [H1 Hrows].
  apply Forall_cons in Hrows. destruct Hrows as [H2 _].
  destruct (row_3_shape r0 H0) as (a0 & a1 & a2 & ->).
  destruct (row_3_shape r1 H1) as (b0 & b1 & b2 & ->).
  destruct (row_3_shape r2 H2) as (c0 & c1 & c2 & ->).
  repeat eexists.
Qed.

(** Spell out the 54 stickers of a well-formed 3x3 cube. *)
Ltac explode_cube_3 c Hwf Hsize :=
  let n := fresh "n" in
  let u := fresh "u" in let d := fresh "d" in let l := fresh "l" in
  let r := fresh "r" in let f := fresh "f" in let b := fresh "b" in
  pose proof (well_formed_face c Up Hwf) as ?Hu;
  pose proof (well_formed_face c Down Hwf) as ?Hd;
  pose proof (well_formed_face c Left Hwf) as ?Hl;
  pose proof (well_formed_face c Right Hwf) as ?Hr;
  pose proof (well_formed_face c Front Hwf) as ?Hf;
  pose proof (well_formed_face c Back Hwf) as ?Hb;
  destruct c as [n [u d l r f b]]; cbn [size faces get_face U D L R F B] in *;
  subst n;
  repeat match goal with
         | H : square 3 _ |- _ =>
             apply square_3_shape in H;
             destruct H as (?&?&?&?&?&?&?&?&?&->)
         end.

(** On a well-formed 3x3 cube the Front face behaves like the others:
    four [F] moves, and [F] with [F'] in either order, give back the
    cube. *)
Lemma front_turns_restore_size_3 c :
  well_formed c -> size c = 3 ->
  apply_moves ["F"; "F"; "F"; "F"] c = Done c /\
  apply_moves ["F"; "F'"] c = Done c /\
  apply_moves ["F'"; "F"] c = Done c.
Proof.
  intros Hwf Hsize. explode_cube_3 c Hwf Hsize.
  split; [|split]; reflexivity.
Qed.

(** ** Four quarter turns, and a turn with its inverse *)

(** Where the defect of the Front face does not reach (another face,
    or the 3x3 cube, on which [U[2]] is the bottom row), four quarter
    turns give back a well-formed cube. *)
Lemma four_quarter_turns_restore X c :
  well_formed c -> X <> Front \/ size c = 3 ->
  apply_moves [face_key X; face_key X; face_key X; face_key X] c = Done c.
Proof.
  intros Hwf Hcase. destruct (decide (X = Front)) as [->|HX].
  - destruct Hcase as [Hne|Hsize]; [now contradict Hne|].
    apply (front_turns_restore_size_3 c Hwf Hsize).
  - now apply four_turns_restore_plain.
Qed.

(** ... and so does a quarter turn with its inverse, in either order. *)
Lemma turn_then_inverse_restores X c :
  well_formed c -> X <> Front \/ size c = 3 ->
  apply_moves [face_key X; face_key X ++ "'"] c = Done c /\
  apply_moves [face_key X ++ "'"; face_key X] c = Done c.
Proof.
  intros Hwf Hcase. destruct (decide (X = Front)) as [->|HX].
  - destruct Hcase as [Hne|Hsize]; [now contradict Hne|].
    apply (front_turns_restore_size_3 c Hwf Hsize).
  - now apply turn_then_inverse_restores_plain.
Qed.

(** C1. Four quarter turns of a face give back the starting state: not
    for the Front face away from size 3. On the solved 4x4 cube four
    [F] moves end normally in another state (the Down, Left and Right
    faces have taken white stickers), and on the solved 2x2 cube the
    first [F] move already throws. *)
Theorem C1_four_front_turns_do_not_restore :
  (exists c', apply_moves ["F"; "F"; "F"; "F"] (new_Cube 4 false) = Done c' /\
              c' <> new_Cube 4 false /\
              cell (D (faces c')) 0 0 = Some (Str "W")) /\
  move "F" (new_Cube 2 false) = Raised TypeError (new_Cube 2 false).
Proof.
  split.
  - eexists. split; [vm_compute; reflexivity|]. split; [discriminate|reflexivity].
  - vm_compute. reflexivity.
Qed.

(** C2. A quarter turn followed by its inverse gives back the starting
    state: not for the Front face away from size 3. From the 4x4 cube
    reached by one [F] move, [F] then [F'] ends in a state whose Up
    bottom row is white where it was green; on the solved 2x2 cube [F]
    throws before [F'] is reached. *)
Theorem C2_front_turn_then_inverse_does_not_restore :
  (exists c', apply_moves ["F"; "F'"] (front_turned 4) = Done c' /\
              c' <> front_turned 4 /\
              cell (U (faces (front_turned 4))) 3 0 = Some (Str "G") /\
              cell (U (faces c')) 3 0 = Some (Str "W")) /\
  apply_moves ["F"; "F'"] (new_Cube 2 false) = Raised TypeError (new_Cube 2 false).
Proof.
  split.
  - eexists. split; [vm_compute; reflexivity|].
    split; [vm_compute; discriminate|]. split; reflexivity.
  - vm_compute. reflexivity.
Qed.

(** ** Half turns *)

(** C3. A half turn ['X2'] is the quarter turn ['X'] twice: [Cube.move]
    has no case for a name carrying the modifier [2], so every ['X2']
    leaves the cube as it is, while two ['U'] moves turn the Up face of
    the 3x3 cube reached by one [F] move upside down. *)
Theorem C3_half_turn_is_ignored :
  (forall X c, move (face_key X ++ "2") c = Done c) /\
  move "U2" (front_turned 3) = Done (front_turned 3) /\
  exists c', apply_moves ["U"; "U"] (front_turned 3) = Done c' /\
             c' <> front_turned 3.
Proof.
  split; [|split].
  - intros X c. now destruct X.
  - reflexivity.
  - eexists. split; [vm_compute; reflexivity|]. vm_compute. discriminate.
Qed.

(** ** The sticker loops of the Front face on well-formed cubes *)

Lemma put_wf dst r c v cu :
  well_formed cu -> r < size cu -> c < size cu ->
  exists cu', put dst r c v cu = Done cu' /\ well_formed cu' /\ size cu' = size cu.
Proof.
  intros Hwf Hr Hc. unfold put.
  destruct (store_in_range (size cu) (get_face dst cu) r c v)
    as (g' & -> & Hsq & _); [now apply well_formed_face|assumption|assumption|].
  eexists. split; [reflexivity|]. split; [|reflexivity].
  now apply well_formed_set_face.
Qed.

Lemma assign_wf dst r c src r' c' cu :
  well_formed cu -> r < size cu -> c < size cu -> r' < size cu ->
  exists cu', assign dst r c src r' c' cu = Done cu' /\
              well_formed cu' /\ size cu' = size cu.
Proof.
  intros Hwf Hr Hc Hr'. unfold assign.
  rewrite (sticker_square (size cu)); [|now apply well_formed_face|assumption].
  now apply put_wf.
Qed.

(** A loop of in-range assignments runs to its end on a well-formed
    cube and keeps it well formed. *)
Lemma for_upto_wf n body cu :
  well_formed cu -> size cu = n ->
  (forall i cu0, i < n -> well_formed cu0 -> size cu0 = n ->
     exists cu', body i cu0 = Done cu' /\ well_formed cu' /\ size cu' = n) ->
  exists cu', for_upto n body cu = Done cu' /\ well_formed cu' /\ size cu' = n.
Proof.
  intros Hwf Hsize Hbody. unfold for_upto.
  destruct (for_range_inv (fun _ cu0 => well_formed cu0 /\ size cu0 = n)
              body n 0 cu) as (cu' & Hcu' & Hinv); [auto| |eauto].
  intros i cu0 Hi [Hwf0 Hs0]. destruct (Hbody i cu0) as (cu1 & ? & ? & ?); eauto.
  lia.
Qed.

Lemma moveFFaceStickers_wf (clockwise : bool) cu :
  well_formed cu ->
  (if clockwise then 3 <= size cu else 1 <= size cu) ->
  exists cu', moveFFaceStickers clockwise cu = Done cu' /\
              well_formed cu' /\ size cu' = size cu.
Proof.
  intros Hwf Hsize. unfold moveFFaceStickers.
  pose proof (well_formed_face cu Up Hwf) as [HlenU _].
  cbn [get_face] in HlenU.
  set (n := size cu) in *.
  assert (Hloop : forall (body1 body2 body3 body4 : nat -> Cube -> res Cube),
    (forall body, In body [body1; body2; body3; body4] ->
       forall i cu0, i < n -> well_formed cu0 -> size cu0 = n ->
         exists cu', body i cu0 = Done cu' /\ well_formed cu' /\ size cu' = n) ->
    exists cu', (for_upto n body1 >>> for_upto n body2 >>>
                 for_upto n body3 >>> for_upto n body4) cu = Done cu' /\
                well_formed cu' /\ size cu' = n).
  { intros b1 b2 b3 b4 Hb.
    destruct (for_upto_wf n b1 cu Hwf eq_refl) as (c1 & H1 & Hwf1 & Hs1);
      [apply Hb; simpl; auto|].
    destruct (for_upto_wf n b2 c1 Hwf1 Hs1) as (c2 & H2 & Hwf2 & Hs2);
      [apply Hb; simpl; auto|].
    destruct (for_upto_wf n b3 c2 Hwf2 Hs2) as (c3 & H3 & Hwf3 & Hs3);
      [apply Hb; simpl; auto|].
    destruct (for_upto_wf n b4 c3 Hwf3 Hs3) as (c4 & H4 & Hwf4 & Hs4);
      [apply Hb; simpl; auto|].
    exists c4. split; [|auto].
    rewrite (seq_stmt_done _ _ _ _ H1), (seq_stmt_done _ _ _ _ H2),
      (seq_stmt_done _ _ _ _ H3). exact H4. }
  destruct clockwise.
  - destruct (lookup_lt_is_Some_2 (U (faces cu)) 2) as [temp ->]; [lia|].
    apply Hloop. intros body Hbody i cu0 Hi Hwf0 Hs0. simpl in Hbody.
    destruct Hbody as [<-|[<-|[<-|[<-|[]]]]];
      rewrite <- Hs0 in *;
      first [apply assign_wf | apply put_wf]; try assumption; lia.
  - unfold last_row. destruct n as [|k] eqn:Hn; [lia|].
    destruct (lookup_lt_is_Some_2 (U (faces cu)) k) as [temp ->]; [lia|].
    apply Hloop. intros body Hbody i cu0 Hi Hwf0 Hs0. simpl in Hbody.
    destruct Hbody as [<-|[<-|[<-|[<-|[]]]]];
      rewrite <- Hs0 in *;
      first [apply assign_wf | apply put_wf]; try assumption; lia.
Qed.

(** The Front moves return normally on a well-formed cube: ['F'] from
    size 3 on, ["F'"] from size 1 on. *)
Lemma move_front_wf c :
  well_formed c ->
  (3 <= size c ->
   exists c', move "F" c = Done c' /\ well_formed c' /\ size c' = size c) /\
  (1 <= size c ->
   exists c', move "F'" c = Done c' /\ well_formed c' /\ size c' = size c).
Proof.
  intros Hwf. split; intros Hsize.
  - destruct (rotateFaceClockwise_wf Front c Hwf) as [H1 Hwf1].
    destruct (moveFFaceStickers_wf true _ Hwf1 Hsize) as (c' & H2 & Hwf2 & Hs2).
    exists c'. split; [|auto].
    change (move "F" c) with ((rotateFaceClockwise Front >>> moveFFaceStickers true) c).
    now rewrite (seq_stmt_done _ _ _ _ H1).
  - destruct (rotateFaceCounterClockwise_wf Front c Hwf) as [H1 Hwf1].
    destruct (moveFFaceStickers_wf false _ Hwf1 Hsize) as (c' & H2 & Hwf2 & Hs2).
    exists c'. split; [|auto].
    change (move "F'" c)
      with ((rotateFaceCounterClockwise Front >>> moveFFaceStickers false) c).
    now rewrite (seq_stmt_done _ _ _ _ H1).
Qed.

(** ** Moves of opposite faces *)

Lemma ignores_seq Y a b : ignores Y a -> ignores Y b -> ignores Y (a >>> b).
Proof.
  intros Ha Hb g c. unfold seq_stmt. rewrite Ha.
  destruct (a c) as [s|e s]; simpl; [apply Hb|reflexivity].
Qed.

Lemma ignores_for_range Y body count :
  (forall i, ignores Y (body i)) ->
  forall start, ignores Y (for_range start count body).
Proof.
  intros Hbody. induction count as [|k IH]; intros start g c; simpl.
  - reflexivity.
  - rewrite Hbody. destruct (body start c) as [s|e s]; simpl; [apply IH|reflexivity].
Qed.

Lemma ignores_put Y dst r c v : dst <> Y -> ignores Y (put dst r c v).
Proof.
  intros Hne g cu. unfold put.
  rewrite get_set_face_ne by congruence.
  destruct (store (get_face dst cu) r c v); simpl; [|reflexivity].
  now rewrite set_face_swap.
Qed.

Lemma ignores_assign Y dst r c src r' c' :
  dst <> Y -> src <> Y -> ignores Y (assign dst r c src r' c').
Proof.
  intros Hd Hs g cu. unfold assign.
  rewrite get_set_face_ne by congruence.
  destruct (cell (get_face src cu) r' c'); [|reflexivity].
  now apply ignores_put.
Qed.

Lemma ignores_rotateFaceClockwise Y X : X <> Y -> ignores Y (rotateFaceClockwise X).
Proof.
  intros Hne g c. unfold rotateFaceClockwise.
  rewrite get_set_face_ne by congruence. rewrite size_set_face.
  destruct (rotate_cw_matrix (size c) (get_face X c)); simpl; [|reflexivity].
  now rewrite set_face_swap.
Qed.

Lemma ignores_rotateFaceCounterClockwise Y X :
  X <> Y -> ignores Y (rotateFaceCounterClockwise X).
Proof.
  intros Hne g c. unfold rotateFaceCounterClockwise.
  rewrite get_set_face_ne by congruence. rewrite size_set_face.
  destruct (rotate_ccw_matrix (size c) (get_face X c)); simpl; [|reflexivity].
  now rewrite set_face_swap.
Qed.

(** The Front sticker loops never touch the Back face. *)
Lemma ignores_moveFFaceStickers clockwise : ignores Back (moveFFaceStickers clockwise).
Proof.
  intros g cu. unfold moveFFaceStickers.
  change (size (set_face Back g cu)) with (size cu).
  change (U (faces (set_face Back g cu))) with (U (faces cu)).
  destruct clockwise.
  - destruct (U (faces cu) !! 2) as [temp|]; [|reflexivity].
    repeat apply ignores_seq; unfold for_upto; apply ignores_for_range; intros i;
      first [apply ignores_assign | apply ignores_put]; discriminate.
  - destruct (last_row (size cu) (U (faces cu))) as [temp|]; [|reflexivity].
    repeat apply ignores_seq; unfold for_upto; apply ignores_for_range; intros i;
      first [apply ignores_assign | apply ignores_put]; discriminate.
Qed.

Lemma ignores_move_front m :
  In m ["F"; "F'"] -> ignores Back (move m).
Proof.
  simpl. intros [<-|[<-|[]]].
  - change (move "F") with (rotateFaceClockwise Front >>> moveFFaceStickers true).
    apply ignores_seq;
      [now apply ignores_rotateFaceClockwise|apply ignores_moveFFaceStickers].
  - change (move "F'")
      with (rotateFaceCounterClockwise Front >>> moveFFaceStickers false).
    apply ignores_seq;
      [now apply ignores_rotateFaceCounterClockwise|apply ignores_moveFFaceStickers].
Qed.

(** A statement that ignores face [X] leaves the grid of [X] as it was. *)
Lemma ignores_frame X b c : ignores X b -> get_face X (state_of (b c)) = get_face X c.
Proof.
  intros Hb. specialize (Hb (get_face X c) c). rewrite set_face_same in Hb.
  rewrite Hb at 1. destruct (b c); simpl; apply get_set_face_eq.
Qed.

(** A statement [a] that replaces the grid of [X] by a grid computed
    from that grid and the size commutes with a statement [b] that
    ignores [X], keeps the size and returns normally. *)
Lemma replace_commutes X (turn : nat -> Grid -> Grid) (a b : Cube -> res Cube) c c1 :
  (forall c0, size c0 = size c -> get_face X c0 = get_face X c ->
     a c0 = Done (set_face X (turn (size c0) (get_face X c0)) c0)) ->
  ignores X b -> b c = Done c1 -> size c1 = size c ->
  (a >>> b) c = Done (set_face X (turn (size c) (get_face X c)) c1) /\
  (b >>> a) c = Done (set_face X (turn (size c) (get_face X c)) c1).
Proof.
  intros Ha Hb Hbc Hsize. split.
  - rewrite (seq_stmt_done _ _ _ _ (Ha c eq_refl eq_refl)).
    now rewrite Hb, Hbc.
  - rewrite (seq_stmt_done _ _ _ _ Hbc).
    pose proof (ignores_frame X b c Hb) as Hframe. rewrite Hbc in Hframe.
    simpl in Hframe. rewrite (Ha c1 Hsize Hframe). now rewrite Hsize, Hframe.
Qed.

Lemma ignores_move_plain X Y m :
  Y <> Front -> X <> Y -> In m [face_key Y; face_key Y ++ "'"] ->
  ignores X (move m).
Proof.
  intros HY Hne Hm g c. simpl in Hm. destruct Hm as [<-|[<-|[]]].
  - rewrite !move_plain_is_rotation by assumption.
    apply ignores_rotateFaceClockwise. congruence.
  - rewrite !move_prime_is_rotation by assumption.
    apply ignores_rotateFaceCounterClockwise. congruence.
Qed.

(** A quarter turn of a rotation-only face commutes with any move that
    ignores that face, keeps the size and returns normally. *)
Lemma plain_move_commutes X mX mY c c1 :
  X <> Front -> In mX [face_key X; face_key X ++ "'"] ->
  well_formed c -> ignores X (move mY) ->
  move mY c = Done c1 -> size c1 = size c ->
  exists c', apply_moves [mX; mY] c = Done c' /\
             apply_moves [mY; mX] c = Done c'.
Proof.
  intros HX HmX Hwf Hign HmY Hsize.
  pose proof (well_formed_face c X Hwf) as [Hlen _].
  simpl in HmX. destruct HmX as [<-|[<-|[]]].
  - destruct (replace_commutes X rot_cw (move (face_key X)) (move mY) c c1)
      as [H1 H2]; try assumption.
    { intros c0 Hs Hg. rewrite move_plain_is_rotation by assumption.
      apply rotateFaceClockwise_closed. rewrite Hs, Hg. lia. }
    eexists. cbn [apply_moves]. split.
    + unfold seq_stmt in *. destruct (move (face_key X) c); [|discriminate].
      destruct (move mY s); [exact H1|discriminate].
    + unfold seq_stmt in *. destruct (move mY c); [|discriminate].
      destruct (move (face_key X) s); [exact H2|discriminate].
  - destruct (replace_commutes X rot_ccw (move (face_key X ++ "'")) (move mY) c c1)
      as [H1 H2]; try assumption.
    { intros c0 Hs Hg. rewrite move_prime_is_rotation by assumption.
      apply rotateFaceCounterClockwise_closed. rewrite Hs, Hg. lia. }
    eexists. cbn [apply_moves]. split.
    + unfold seq_stmt in *. destruct (move (face_key X ++ "'") c); [|discriminate].
      destruct (move mY s); [exact H1|discriminate].
    + unfold seq_stmt in *. destruct (move mY c); [|discriminate].
      destruct (move (face_key X ++ "'") s); [exact H2|discriminate].
Qed.

Lemma quarter_turn_completes Y m c :
  In m [face_key Y; face_key Y ++ "'"] -> well_formed c -> turn_defined m c ->
  exists c1, move m c = Done c1 /\ size c1 = size c.
Proof.
  intros Hm Hwf [Hcw Hccw]. destruct (decide (Y = Front)) as [->|HY].
  - destruct (move_front_wf c Hwf) as [Hcw' Hccw'].
    simpl in Hm. destruct Hm as [<-|[<-|[]]].
    + destruct (Hcw' (Hcw eq_refl)) as (c1 & ? & _ & ?). eauto.
    + destruct (Hccw' (Hccw eq_refl)) as (c1 & ? & _ & ?). eauto.
  - simpl in Hm. destruct Hm as [<-|[<-|[]]].
    + rewrite move_plain_is_rotation by assumption.
      destruct (rotateFaceClockwise_wf Y c Hwf) as [-> _]. eauto.
    + rewrite move_prime_is_rotation by assumption.
      destruct (rotateFaceCounterClockwise_wf Y c Hwf) as [-> _]. eauto.
Qed.

(** On a well-formed cube on which both are defined, quarter turns of
    opposite faces, in any directions, commute. *)
Lemma opposite_moves_commute X Y mX mY c :
  opposite X Y = true ->
  In mX [face_key X; face_key X ++ "'"] ->
  In mY [face_key Y; face_key Y ++ "'"] ->
  well_formed c -> turn_defined mX c -> turn_defined mY c ->
  exists c', apply_moves [mX; mY] c = Done c' /\
             apply_moves [mY; mX] c = Done c'.
Proof.
  intros Hopp HmX HmY Hwf HdX HdY.
  destruct (decide (X = Front)) as [->|HX].
  - (* Front with Back: turn Back around the Front move *)
    destruct Y; try discriminate.
    destruct (quarter_turn_completes Front mX c HmX Hwf HdX) as (c1 & Hc1 & Hs1).
    destruct (plain_move_commutes Back mY mX c c1) as (c' & H1 & H2);
      try assumption; [discriminate|now apply ignores_move_front|].
    exists c'. auto.
  - destruct (quarter_turn_completes Y mY c HmY Hwf HdY) as (c1 & Hc1 & Hs1).
    apply (plain_move_commutes X mX mY c c1); try assumption.
    destruct (decide (Y = Front)) as [->|HY].
    + destruct X; try discriminate. now apply ignores_move_front.
    + apply (ignores_move_plain X Y); try assumption.
      intros ->. now destruct Y.
Qed.

(** C6. Moves of opposite faces commute: not Front and Back on a 2x2
    cube. [F] throws there after turning the Front grid, so the
    sequence [F], [B] stops before [B], while [B], [F] has turned the
    Back grid when [F] throws; on a hand-coloured cube the two states
    differ on the Back face. *)
Theorem C6_front_back_do_not_commute_on_size_2 :
  exists c1 c2,
    apply_moves ["F"; "B"] hand_coloured_2 = Raised TypeError c1 /\
    apply_moves ["B"; "F"] hand_coloured_2 = Raised TypeError c2 /\
    B (faces c1) = [[Str "W"; Str "O"]; [Str "O"; Str "O"]] /\
    B (faces c2) = [[Str "O"; Str "W"]; [Str "O"; Str "O"]] /\
    c1 <> c2.
Proof.
  do 2 eexists. split; [vm_compute; reflexivity|].
  split; [vm_compute; reflexivity|].
  split; [reflexivity|]. split; [reflexivity|]. discriminate.
Qed.

(** ** The sticker census under rotations *)

Lemma sum_upto_ext n f g :
  (forall i, i < n -> f i = g i) -> sum_upto n f = sum_upto n g.
Proof.
  induction n as [|k IH]; intros H; simpl; [reflexivity|].
  rewrite IH, H by (intros; auto with lia). reflexivity.
Qed.

Lemma sum_upto_plus n f g :
  sum_upto n (fun i => f i + g i) = sum_upto n f + sum_upto n g.
Proof. induction n as [|k IH]; simpl; lia. Qed.

Lemma sum_upto_swap n m (f : nat -> nat -> nat) :
  sum_upto n (fun r => sum_upto m (fun c => f r c)) =
  sum_upto m (fun c => sum_upto n (fun r => f r c)).
Proof.
  induction n as [|k IH]; simpl.
  - induction m; simpl; lia.
  - rewrite sum_upto_plus, IH. reflexivity.
Qed.

Lemma sum_upto_shift n f : sum_upto (S n) f = f 0 + sum_upto n (fun i => f (S i)).
Proof.
  induction n as [|k IH]; [simpl; lia|].
  change (sum_upto (S (S k)) f) with (sum_upto (S k) f + f (S k)).
  rewrite IH. simpl. lia.
Qed.

Lemma sum_upto_rev n f : sum_upto n (fun i => f (n - 1 - i)) = sum_upto n f.
Proof.
  revert f. induction n as [|k IH]; intros f; [reflexivity|].
  rewrite (sum_upto_shift k f). rewrite <- (IH (fun i => f (S i))).
  simpl. replace (k - 0 - k) with 0 by lia.
  rewrite Nat.add_comm. f_equal.
  apply sum_upto_ext. intros i Hi. f_equal. lia.
Qed.

Lemma count_indicator col (l : Row) :
  length (filter (fun v => v = Str col) l) = foldr (fun v acc => indicator col v + acc) 0 l.
Proof.
  induction l as [|v l IH]; [reflexivity|].
  rewrite filter_cons. unfold indicator at 1. simpl.
  destruct (decide (v = Str col)); simpl; now rewrite IH.
Qed.

Lemma count_row_tabulate col (h : nat -> value) m :
  length (filter (fun v => v = Str col) (map h (seq 0 m))) =
  sum_upto m (fun c => indicator col (h c)).
Proof.
  induction m as [|k IH]; [reflexivity|].
  rewrite seq_S, map_app, filter_app, length_app, IH. simpl.
  rewrite filter_cons, filter_nil. unfold indicator.
  now destruct (decide (h k = Str col)).
Qed.

Lemma count_rows_tabulate col (f : nat -> nat -> value) rows cols :
  length (filter (fun v => v = Str col)
            (concat (map (fun r => map (fun c => f r c) (seq 0 cols)) (seq 0 rows)))) =
  sum_upto rows (fun r => sum_upto cols (fun c => indicator col (f r c))).
Proof.
  induction rows as [|k IH]; [reflexivity|].
  rewrite seq_S, map_app, concat_app, filter_app, length_app, IH. simpl.
  rewrite app_nil_r. now rewrite count_row_tabulate.
Qed.

Lemma count_tabulate col n f :
  count_in_grid col (tabulate_grid n f) =
  sum_upto n (fun r => sum_upto n (fun c => indicator col (f r c))).
Proof. apply count_rows_tabulate. Qed.

Lemma square_is_tabulate n g : square n g -> g = tabulate_grid n (sticker g).
Proof.
  intros Hg. apply (square_ext n); [assumption|apply square_tabulate|].
  intros r c Hr Hc. rewrite cell_tabulate by assumption.
  now apply (sticker_square n).
Qed.

(** A quarter turn of a grid keeps the number of stickers of each
    colour on it. *)
Lemma count_rot_cw col n g :
  square n g -> count_in_grid col (rot_cw n g) = count_in_grid col g.
Proof.
  intros Hg. rewrite (square_is_tabulate n g Hg) at 2.
  unfold rot_cw. rewrite !count_tabulate.
  rewrite sum_upto_swap.
  apply (sum_upto_rev n (fun i => sum_upto n (fun c => indicator col (sticker g i c)))).
Qed.

Lemma count_rot_ccw col n g :
  square n g -> count_in_grid col (rot_ccw n g) = count_in_grid col g.
Proof.
  intros Hg. rewrite (square_is_tabulate n g Hg) at 2.
  unfold rot_ccw. rewrite !count_tabulate.
  rewrite (sum_upto_swap n n (fun r c => indicator col (sticker g r c))).
  apply (sum_upto_rev n (fun a => sum_upto n (fun b => indicator col (sticker g b a)))).
Qed.

Lemma count_color_set_face col X g c :
  count_in_grid col g = count_in_grid col (get_face X c) ->
  count_color col (set_face X g c) = count_color col c.
Proof.
  intros H. unfold count_color. destruct X; simpl in *; lia.
Qed.

(** A quarter turn of a rotation-only face keeps the census of a
    well-formed cube of any size. *)
Lemma census_kept_plain X m c :
  X <> Front -> In m [face_key X; face_key X ++ "'"] -> well_formed c ->
  exists c', move m c = Done c' /\
             (forall col, count_color col c' = count_color col c) /\
             (balanced c -> balanced c').
Proof.
  intros HX Hm Hwf. pose proof (well_formed_face c X Hwf) as Hsq.
  assert (Hgen : forall c', size c' = size c ->
            (forall col, count_color col c' = count_color col c) ->
            balanced c -> balanced c').
  { intros c' Hs Hc Hb. unfold balanced in *. rewrite Hs.
    eapply Forall_impl; [exact Hb|]. intros col Hcol. simpl. now rewrite Hc. }
  simpl in Hm. destruct Hm as [<-|[<-|[]]].
  - rewrite move_plain_is_rotation by assumption.
    destruct (rotateFaceClockwise_wf X c Hwf) as [-> _].
    eexists. split; [reflexivity|].
    assert (Hc : forall col, count_color col
                   (set_face X (rot_cw (size c) (get_face X c)) c) =
                 count_color col c).
    { intros col. apply count_color_set_face. now apply count_rot_cw. }
    split; [exact Hc|]. now apply Hgen.
  - rewrite move_prime_is_rotation by assumption.
    destruct (rotateFaceCounterClockwise_wf X c Hwf) as [-> _].
    eexists. split; [reflexivity|].
    assert (Hc : forall col, count_color col
                   (set_face X (rot_ccw (size c) (get_face X c)) c) =
                 count_color col c).
    { intros col. apply count_color_set_face. now apply count_rot_ccw. }
    split; [exact Hc|]. now apply Hgen.
Qed.

(** On a well-formed 3x3 cube the Front moves keep the census too. *)
Lemma census_kept_front_size_3 m c :
  In m ["F"; "F'"] -> well_formed c -> size c = 3 ->
  exists c', move m c = Done c' /\
             (forall col, count_color col c' = count_color col c) /\
             (balanced c -> balanced c').
Proof.
  intros Hm Hwf Hsize.
  assert (Hgen : forall c', size c' = size c ->
            (forall col, count_color col c' = count_color col c) ->
            balanced c -> balanced c').
  { intros c' Hs Hc Hb. unfold balanced in *. rewrite Hs.
    eapply Forall_impl; [exact Hb|]. intros col Hcol. simpl. now rewrite Hc. }
  revert Hgen. explode_cube_3 c Hwf Hsize. intros Hgen.
  simpl in Hm. destruct Hm as [<-|[<-|[]]].
  - eexists. split; [vm_compute; reflexivity|].
    match goal with |- ?P /\ _ => assert (Hc : P) end.
    { intros col. unfold count_color, count_in_grid.
      cbn [foldr face_keys get_face faces U D L R F B].
      rewrite !count_indicator. cbn [concat app foldr]. lia. }
    split; [exact Hc|]. now apply Hgen.
  - eexists. split; [vm_compute; reflexivity|].
    match goal with |- ?P /\ _ => assert (Hc : P) end.
    { intros col. unfold count_color, count_in_grid.
      cbn [foldr face_keys get_face faces U D L R F B].
      rewrite !count_indicator. cbn [concat app foldr]. lia. }
    split; [exact Hc|]. now apply Hgen.
Qed.

(** Where the defect of the Front face does not reach, a quarter turn
    keeps the census of a well-formed cube. *)
Lemma census_kept X m c :
  well_formed c -> X <> Front \/ size c = 3 ->
  In m [face_key X; face_key X ++ "'"] ->
  exists c', move m c = Done c' /\
             (forall col, count_color col c' = count_color col c) /\
             (balanced c -> balanced c').
Proof.
  intros Hwf Hcase Hm. destruct (decide (X = Front)) as [->|HX].
  - destruct Hcase as [Hne|Hsize]; [now contradict Hne|].
    now apply census_kept_front_size_3.
  - now apply (census_kept_plain X).
Qed.

(** C4. A legal move keeps every colour on exactly N x N stickers: not
    the [F] move on a 4x4 cube. The cube reached by one [F] move from
    the solved 4x4 cube is balanced; a second [F] move ends normally
    with 20 white and 12 green stickers. *)
Theorem C4_front_turn_breaks_colour_census :
  balanced (front_turned 4) /\
  exists c', move "F" (front_turned 4) = Done c' /\
             ~ balanced c' /\
             count_color "W" c' = 20 /\ count_color "G" c' = 12.
Proof.
  split.
  - apply (bool_decide_unpack (balanced (front_turned 4))). vm_compute. exact I.
  - eexists. split; [vm_compute; reflexivity|].
    split; [|split; vm_compute; reflexivity].
    intros Hb. apply Forall_inv in Hb. vm_compute in Hb. discriminate.
Qed.

(** ** Names outside the [switch] of [Cube.move] *)

Lemma move_unmatched m c :
  is_outer_face (moveFace m) = false -> move m c = Done c.
Proof.
  unfold is_outer_face, moveFace, move. cbn [existsb]. intros H.
  repeat (apply orb_false_elim in H; destruct H as [-> H]). reflexivity.
Qed.




(** ** The blank cube *)

Lemma cell_filled_matrix n col i j :
  i < n -> j < n -> cell (filled_matrix n col) i j = Some (Str col).
Proof.
  intros Hi Hj. unfold cell, filled_matrix, at_index.
  rewrite lookup_replicate_2 by assumption. simpl.
  now rewrite lookup_replicate_2.
Qed.

Lemma scan_range_continue {A} (body : nat -> completion A) count start :
  (forall i, start <= i < start + count -> body i = Continue) ->
  scan_range start count body = Continue.
Proof.
  revert start. induction count as [|k IH]; intros start Hbody; [reflexivity|].
  simpl. rewrite Hbody by lia. apply IH. intros i Hi. apply Hbody. lia.
Qed.

Lemma scan_list_continue {A X} (body : X -> completion A) xs :
  Forall (fun x => body x = Continue) xs -> scan_list xs body = Continue.
Proof.
  induction 1 as [|x rest Hx _ IH]; [reflexivity|]. simpl. now rewrite Hx.
Qed.

Lemma get_face_blank n face : get_face face (new_Cube n true) = filled_matrix n "W".
Proof. now destruct face. Qed.

Lemma square_filled_matrix n col : square n (filled_matrix n col).
Proof.
  unfold square, filled_matrix. split; [apply length_replicate|].
  apply Forall_replicate. apply length_replicate.
Qed.

(** C10. The blank cube [new Cube(n, true)] has 'W' on every sticker of
    its six n x n faces, and [isSolved()] returns true on it. *)
Theorem C10_blank_cube_is_all_white_and_solved (n : nat) :
  0 < n ->
  (forall face i j, i < n -> j < n ->
     cell (get_face face (new_Cube n true)) i j = Some (Str "W")) /\
  (forall face, square n (get_face face (new_Cube n true))) /\
  isSolved (new_Cube n true) = Return true.
Proof.
  intros Hn. split; [|split].
  - intros face i j Hi Hj. rewrite get_face_blank. now apply cell_filled_matrix.
  - intros face. rewrite get_face_blank. apply square_filled_matrix.
  - unfold isSolved. rewrite scan_list_continue; [reflexivity|].
    apply Forall_forall. intros face _. unfold face_uniform.
    rewrite get_face_blank. rewrite cell_filled_matrix by assumption.
    cbn [size new_Cube].
    apply scan_range_continue. intros i Hi.
    apply scan_range_continue. intros j Hj.
    rewrite cell_filled_matrix by lia. now rewrite decide_True.
Qed.

Lemma C10_blank_cube_is_all_white_and_solved_witness :
  0 < 3 /\ isSolved (new_Cube 3 true) = Return true.
Proof.
  assert (H : 0 < 3) by lia.
  split; [exact H|].
  apply (C10_blank_cube_is_all_white_and_solved 3 H).
Defined.

(** ** The scrambler *)

Section ScramblerFacts.

Variable cubeSize : nat.
Variable Math_random : nat -> nat * nat.
Hypothesis Math_random_unit :
  forall k, fst (Math_random k) < snd (Math_random k).

Lemma random_index_lt k n : 0 < n -> random_index Math_random k n < n.
Proof.
  intros Hn. unfold random_index. specialize (Math_random_unit k).
  apply Nat.Div0.div_lt_upper_bound. nia.
Qed.

Lemma moves_not_empty_string m : In m (moves cubeSize) -> m <> "".
Proof.
  unfold moves, getMovesForSize.
  destruct (Nat.eqb cubeSize 2); [|destruct (Nat.eqb cubeSize 3)];
    simpl; intros H Hm; subst m; intuition discriminate.
Qed.

(** Whatever the previous move and axis, the filter keeps a move. *)
Lemma some_move_allowed lastMove lastAxis :
  exists m, In m (moves cubeSize) /\ allowed lastMove lastAxis m = true.
Proof.
  assert (Hin : In "F" (moves cubeSize) /\ In "F'" (moves cubeSize) /\
                In "R" (moves cubeSize) /\ In "R'" (moves cubeSize)).
  { unfold moves, getMovesForSize.
    destruct (Nat.eqb cubeSize 2); [|destruct (Nat.eqb cubeSize 3)];
      simpl; tauto. }
  destruct Hin as (HF & HF' & HR & HR').
  destruct (String.eqb_spec "x" lastAxis) as [Hx|Hx].
  - destruct (String.eqb_spec "R" lastMove) as [HlR|HlR].
    + exists "R'". split; [assumption|]. now subst.
    + exists "R". split; [assumption|]. unfold allowed.
      apply String.eqb_neq in HlR. rewrite HlR. now subst.
  - apply String.eqb_neq in Hx.
    destruct (String.eqb_spec "F" lastMove) as [HlF|HlF].
    + exists "F'". split; [assumption|]. unfold allowed. subst lastMove.
      change (String.eqb "F'" "F") with false.
      change (getMoveAxis "F'") with "x". now rewrite Hx.
    + exists "F". split; [assumption|]. unfold allowed.
      apply String.eqb_neq in HlF. rewrite HlF.
      change (getMoveAxis "F") with "x". now rewrite Hx.
Qed.

(** [getRandomMove] always hands back a move of the set that passes
    the filter, and makes one draw. *)
Lemma getRandomMove_spec lastMove lastAxis k :
  exists m, getRandomMove cubeSize Math_random lastMove lastAxis k = (Some m, S k) /\
            In m (moves cubeSize) /\ allowed lastMove lastAxis m = true.
Proof.
  unfold getRandomMove.
  set (av := List.filter (allowed lastMove lastAxis) (moves cubeSize)).
  assert (Hlen : 0 < length av).
  { destruct (some_move_allowed lastMove lastAxis) as (m & Hin & Hal).
    assert (Hm : In m av) by (apply filter_In; auto).
    destruct av; [destruct Hm | simpl; lia]. }
  destruct (Nat.eqb_spec (length av) 0) as [H0|_]; [lia|].
  destruct (lookup_lt_is_Some_2 av (random_index Math_random k (length av)))
    as [m Hm]; [now apply random_index_lt|].
  exists m. split; [now rewrite Hm|].
  apply list_elem_of_lookup_2, list_elem_of_In in Hm.
  apply filter_In in Hm. exact Hm.
Qed.

Lemma allowed_axis lastMove lastAxis m :
  allowed lastMove lastAxis m = true -> getMoveAxis m <> lastAxis.
Proof.
  unfold allowed. destruct (String.eqb m lastMove); [discriminate|].
  destruct (String.eqb_spec (getMoveAxis m) lastAxis); [discriminate|auto].
Qed.

Lemma same_face_same_axis a b : moveFace a = moveFace b -> getMoveAxis a = getMoveAxis b.
Proof. unfold moveFace, getMoveAxis. now intros ->. Qed.

Lemma distinct_neighbours_snoc l m :
  distinct_neighbours l ->
  (forall a, last l = Some a -> getMoveAxis a <> getMoveAxis m) ->
  distinct_neighbours (l ++ [m]).
Proof.
  intros Hl Hlast i a b Ha Hb.
  destruct (decide (S i < length l)) as [Hlt|Hge].
  - rewrite lookup_app_l in Ha, Hb by lia. eauto.
  - assert (Hi : S i = length l).
    { apply lookup_lt_Some in Hb. rewrite length_app in Hb. simpl in Hb. lia. }
    rewrite lookup_app_l in Ha by lia.
    rewrite lookup_app_r in Hb by lia.
    rewrite Hi, Nat.sub_diag in Hb. injection Hb as <-.
    assert (Hla : last l = Some a).
    { rewrite last_lookup. rewrite <- Hi. exact Ha. }
    specialize (Hlast a Hla). split; [|assumption].
    intros Hf. now apply Hlast, same_face_same_axis.
Qed.

(** The loop, started with [len - length scramble] iterations of fuel
    or more, returns a sequence of [len] moves. *)
Lemma scramble_loop_spec fuel : forall len scramble lastMove lastAxis k,
  length scramble <= len ->
  len - length scramble <= fuel ->
  Forall (fun m => In m (moves cubeSize)) scramble ->
  distinct_neighbours scramble ->
  (forall a, last scramble = Some a -> lastAxis = getMoveAxis a) ->
  exists l, scramble_loop cubeSize Math_random fuel len scramble lastMove lastAxis k = Some l /\
            length l = len /\
            Forall (fun m => In m (moves cubeSize)) l /\
            distinct_neighbours l.
Proof.
  induction fuel as [|fuel IH]; intros len scramble lastMove lastAxis k
    Hle Hfuel Hin Hdn Hax.
  - exists scramble. simpl.
    destruct (Nat.leb_spec len (length scramble)); [|lia].
    split; [reflexivity|]. split; [lia|]. split; assumption.
  - simpl. destruct (Nat.leb_spec len (length scramble)) as [Hdone|Hmore].
    + exists scramble.
      split; [reflexivity|]. split; [lia|]. split; assumption.
    + destruct (getRandomMove_spec lastMove lastAxis k) as (m & -> & Hm & Hal).
      assert (Hne : m <> "") by now apply moves_not_empty_string.
      unfold truthy. apply String.eqb_neq in Hne. rewrite Hne.
      apply IH.
      * rewrite length_app. simpl. lia.
      * rewrite length_app. simpl. lia.
      * apply Forall_app. split; [assumption|]. now repeat constructor.
      * apply distinct_neighbours_snoc; [assumption|].
        intros a Ha. rewrite <- (Hax a Ha).
        intros Heq. now apply (allowed_axis _ _ _ Hal).
      * intros a Ha. rewrite last_snoc in Ha. now injection Ha as <-.
Qed.

End ScramblerFacts.

(** On the moves of every size, [getMoveAxis] returns the name of the
    axis of the face the move turns. *)
Lemma getMoveAxis_of_moves cubeSize m :
  In m (moves cubeSize) ->
  exists f, turned_face m = Some f /\ getMoveAxis m = axis_name (axis_of_face f).
Proof.
  unfold moves, getMovesForSize. intros Hin.
  destruct (Nat.eqb cubeSize 2); [|destruct (Nat.eqb cubeSize 3)];
    simpl in Hin;
    repeat (destruct Hin as [<-|Hin];
            [eexists; split; vm_compute; reflexivity|]);
    destruct Hin.
Qed.

Lemma axis_name_inj x y : axis_name x = axis_name y -> x = y.
Proof. destruct x, y; simpl; intros H; first [reflexivity|discriminate H]. Qed.

(** What the filter of [getRandomMove] enforces with [getMoveAxis] is
    the rule on faces and rotation axes. *)
Lemma distinct_neighbours_differ cubeSize l :
  Forall (fun m => In m (moves cubeSize)) l ->
  distinct_neighbours l -> neighbours_differ l.
Proof.
  intros Hall Hdn i a b Ha Hb.
  destruct (getMoveAxis_of_moves cubeSize a) as (fa & Hfa & Haxa).
  { exact (Forall_lookup_1 _ _ _ _ Hall Ha). }
  destruct (getMoveAxis_of_moves cubeSize b) as (fb & Hfb & Haxb).
  { exact (Forall_lookup_1 _ _ _ _ Hall Hb). }
  destruct (Hdn i a b Ha Hb) as [_ Hax].
  exists fa, fb. split; [exact Hfa|]. split; [exact Hfb|].
  assert (Hne : axis_of_face fa <> axis_of_face fb).
  { intros Heq. apply Hax. now rewrite Haxa, Haxb, Heq. }
  split; [|exact Hne]. intros ->. now apply Hne.
Qed.

(** C8. For every cube size and every length [len], [generateScramble]
    terminates ([len] iterations of the loop are enough) and returns
    exactly [len] moves of the size's move set, every two consecutive
    ones acting on different faces and on different rotation axes
    (Front/Back, Left/Right, Up/Down). *)
Theorem C8_scramble_length_and_neighbours
  (cubeSize : nat) (Math_random : nat -> nat * nat) (len fuel : nat) :
  (forall k, fst (Math_random k) < snd (Math_random k)) ->
  len <= fuel ->
  exists l, generateScramble cubeSize Math_random fuel len = Some l /\
            length l = len /\
            Forall (fun m => In m (moves cubeSize)) l /\
            neighbours_differ l.
Proof.
  intros Hrand Hfuel.
  assert (H : exists l, generateScramble cubeSize Math_random fuel len = Some l /\
                        length l = len /\
                        Forall (fun m => In m (moves cubeSize)) l /\
                        distinct_neighbours l).
  { unfold generateScramble.
    apply scramble_loop_spec; simpl; auto; try lia.
    - intros i a b Ha. now rewrite lookup_nil in Ha.
    - discriminate. }
  destruct H as (l & Hl & Hlen & Hmoves & Hdn).
  exists l. split; [exact Hl|]. split; [exact Hlen|]. split; [exact Hmoves|].
  now apply (distinct_neighbours_differ cubeSize).
Qed.

Lemma sevenths_unit k : fst (sevenths k) < snd (sevenths k).
Proof. unfold sevenths. cbn [fst snd]. apply Nat.mod_upper_bound. lia. Qed.

Lemma C8_scramble_length_and_neighbours_witness :
  (forall k, fst (sevenths k) < snd (sevenths k)) /\
  20 <= 20 /\
  exists l, generateScramble 3 sevenths 20 20 = Some l /\
            length l = 20 /\
            Forall (fun m => In m (moves 3)) l /\
            neighbours_differ l.
Proof.
  assert (Hfuel : 20 <= 20) by lia.
  split; [exact sevenths_unit|]. split; [exact Hfuel|].
  exact (C8_scramble_length_and_neighbours 3 sevenths 20 20 sevenths_unit Hfuel).
Defined.

(** The scramble of 20 moves of the 3x3 cube drawn from [sevenths]. *)
Example scramble_3_20_sevenths :
  generateScramble 3 sevenths 20 20 =
  Some ["F"; "R'"; "U"; "R'"; "B"; "L'"; "D"; "F"; "R'"; "U"; "R'"; "B";
        "L'"; "D"; "F"; "R'"; "U"; "R'"; "B"; "L'"].
Proof. vm_compute. reflexivity. Qed.

(** With less fuel than moves asked for, the loop is still running. *)
Example scramble_out_of_fuel : generateScramble 4 sevenths 5 6 = None.
Proof. vm_compute. reflexivity. Qed.

(** ** The JSON import *)

Lemma valid_color_spec c : valid_color c = true <-> colour_cell c.
Proof.
  unfold colour_cell. split.
  - destruct c; try discriminate. unfold valid_color. intros H.
    apply existsb_exists in H. destruct H as (x & Hin & Heq).
    apply String.eqb_eq in Heq. subst. eauto.
  - intros (s & -> & Hin). unfold valid_color. apply existsb_exists.
    exists s. split; [assumption|apply String.eqb_refl].
Qed.

Lemma forallb_Forall_spec {A} (f : A -> bool) (P : A -> Prop) l :
  (forall x, f x = true <-> P x) -> forallb f l = true <-> Forall P l.
Proof.
  intros Hf. induction l as [|x l IH]; simpl.
  - split; auto.
  - rewrite andb_true_iff, Forall_cons, IH, Hf. tauto.
Qed.

Lemma valid_row_spec n row : valid_row n row = true <-> colour_row n row.
Proof.
  unfold colour_row. split.
  - destruct row; simpl; try discriminate. intros H.
    apply andb_true_iff in H. destruct H as [Hlen Hall].
    apply Nat.eqb_eq in Hlen.
    apply (forallb_Forall_spec _ _ _ valid_color_spec) in Hall. eauto.
  - intros (cells & -> & Hlen & Hall). simpl. apply andb_true_iff. split.
    + now apply Nat.eqb_eq.
    + now apply (forallb_Forall_spec _ _ _ valid_color_spec).
Qed.

Lemma valid_face_spec n face : valid_face n face = true <-> colour_face n face.
Proof.
  unfold colour_face. split.
  - destruct face as [[]|]; simpl; try discriminate. intros H.
    apply andb_true_iff in H. destruct H as [Hlen Hall].
    apply Nat.eqb_eq in Hlen.
    apply (forallb_Forall_spec _ _ _ (valid_row_spec n)) in Hall. eauto.
  - intros (rows & -> & Hlen & Hall). simpl. apply andb_true_iff. split.
    + now apply Nat.eqb_eq.
    + now apply (forallb_Forall_spec _ _ _ (valid_row_spec n)).
Qed.

(** [validateCubeData] returns true exactly on the configurations of
    the interchange format. *)
Lemma validateCubeData_spec n data :
  validateCubeData n data = Returns true <-> valid_configuration n data.
Proof.
  unfold valid_configuration, validateCubeData. split.
  - destruct data as [| | | | |props]; try discriminate.
    unfold get_prop.
    destruct (prop_lookup "faces" props) as [[| | | |items|fprops]|] eqn:Hf;
      try (simpl; discriminate).
    cbn [is_object negb face_of]. intros H. injection H as H.
    exists props, fprops. split; [reflexivity|]. split; [exact Hf|].
    now apply (forallb_Forall_spec
                 (fun face => valid_face n (prop_lookup face fprops))
                 (fun face => colour_face n (prop_lookup face fprops))
                 requiredFaces (fun face => valid_face_spec n _)).
  - intros (props & fprops & -> & Hf & Hall). unfold get_prop. rewrite Hf.
    cbn [is_object negb face_of]. f_equal.
    now apply (forallb_Forall_spec
                 (fun face => valid_face n (prop_lookup face fprops))
                 (fun face => colour_face n (prop_lookup face fprops))
                 requiredFaces (fun face => valid_face_spec n _)).
Qed.

(** C9. [handleImport] hands a configuration to [onImport] exactly when
    the text parses and the parsed value passes [validateCubeData], and
    that is exactly when it has the six faces U, D, L, R, F, B as
    [cubeSize] x [cubeSize] arrays of the six colour codes; after a
    parse failure, a validation failure or an exception of the
    validation, [onImport] is not called and the only effect is the
    error message. *)
Theorem C9_import_only_after_validation
  (JSON_parse : string -> option json) (onImport_returns : json -> bool)
  (cubeSize : nat) (jsonInput : string) :
  (forall d, In (OnImport d) (handleImport JSON_parse onImport_returns cubeSize jsonInput) <->
             JSON_parse jsonInput = Some d /\
             validateCubeData cubeSize d = Returns true) /\
  (forall d, validateCubeData cubeSize d = Returns true <->
             valid_configuration cubeSize d) /\
  ((forall d, JSON_parse jsonInput = Some d -> ~ valid_configuration cubeSize d) ->
   exists msg, handleImport JSON_parse onImport_returns cubeSize jsonInput =
               [SetError ""; SetError msg]).
Proof.
  split; [|split].
  - intros d. unfold handleImport.
    destruct (JSON_parse jsonInput) as [cubeData|].
    + destruct (validateCubeData cubeSize cubeData) as [[|]|e] eqn:Hv.
      * destruct (onImport_returns cubeData); simpl; split.
        -- intros [H|[H|[H|[H|[]]]]]; try discriminate. injection H as <-. auto.
        -- intros [H _]. injection H as <-. auto.
        -- intros [H|[H|[H|[]]]]; try discriminate. injection H as <-. auto.
        -- intros [H _]. injection H as <-. auto.
      * simpl. split.
        -- intros [H|[H|[]]]; discriminate.
        -- intros [H Hd]. injection H as <-. rewrite Hv in Hd. discriminate.
      * simpl. split.
        -- intros [H|[H|[]]]; discriminate.
        -- intros [H Hd]. injection H as <-. rewrite Hv in Hd. discriminate.
    + simpl. split.
      * intros [H|[H|[]]]; discriminate.
      * intros [H _]. discriminate.
  - intros d. apply validateCubeData_spec.
  - intros Hbad. unfold handleImport.
    destruct (JSON_parse jsonInput) as [cubeData|]; [|eauto].
    destruct (validateCubeData cubeSize cubeData) as [[|]|e] eqn:Hv; eauto.
    apply validateCubeData_spec in Hv. now destruct (Hbad cubeData eq_refl).
Qed.

Lemma C9_import_only_after_validation_witness :
  (forall d, sample_parse sample_text = Some d -> ~ valid_configuration 3 d) /\
  exists msg, handleImport sample_parse (fun _ => true) 3 sample_text =
              [SetError ""; SetError msg].
Proof.
  assert (Hbad : forall d, sample_parse sample_text = Some d ->
                           ~ valid_configuration 3 d).
  { intros d Hd. injection Hd as <-.
    intros (props & fprops & Hobj & _). discriminate. }
  split; [exact Hbad|].
  exact (proj2 (proj2 (C9_import_only_after_validation
                         sample_parse (fun _ => true) 3 sample_text)) Hbad).
Defined.

(** The solved 2x2 cube is imported by a 2x2 session and rejected,
    whole, by a 3x3 session. *)
Example import_accepts_sample_cube :
  handleImport (fun _ => Some sample_cube_2) (fun _ => true) 2 "..." =
  [SetError ""; OnImport sample_cube_2; SetJsonInput ""; SetIsExpanded false].
Proof. reflexivity. Qed.

Example import_rejects_wrong_size :
  handleImport (fun _ => Some sample_cube_2) (fun _ => true) 3 "..." =
  [SetError "";
   SetError "Invalid cube data format. Please check the JSON structure."].
Proof. reflexivity. Qed.

(** [null] makes the validation throw; the import reports a bad format. *)
Example import_rejects_null :
  validateCubeData 3 JNull = Fails TypeError /\
  handleImport (fun _ => Some JNull) (fun _ => true) 3 "null" =
  [SetError ""; SetError "Invalid JSON format. Please check your input."].
Proof. split; reflexivity. Qed.

(** * Further properties of the engine *)

(** ** When a rotation throws *)

(** A loop throws when its body does at index [k], having run to [k]
    under an invariant. *)
Lemma for_range_raises {St} (Inv : nat -> St -> Prop) body count :
  forall start (s : St) k,
    start <= k < start + count ->
    Inv start s ->
    (forall i s, start <= i < k -> Inv i s ->
       exists s', body i s = Done s' /\ Inv (S i) s') ->
    (forall s, Inv k s -> exists e s', body k s = Raised e s') ->
    exists e s', for_range start count body s = Raised e s'.
Proof.
  induction count as [|n IH]; intros start s k Hk Hinv Hrun Hthrow; [lia|].
  simpl. destruct (decide (start = k)) as [->|Hne].
  - destruct (Hthrow s Hinv) as (e & s' & ->). eauto.
  - destruct (Hrun start s) as (s1 & -> & Hinv1); [lia|assumption|].
    apply (IH (S start) s1 k); [lia|assumption| |assumption].
    intros i s' Hi. apply Hrun. lia.
Qed.

Section CopyLoopsThrow.

Variable n : nat.
Variable g : Grid.
Variables Tr Tc : nat -> nat -> nat.
Hypothesis row_missing : length g < n.
Hypothesis target_in_range :
  forall i j, i < n -> j < n -> Tr i j < n /\ Tc i j < n.

Lemma copy_row_done i m :
  i < length g -> square n m ->
  exists m', for_range 0 n (fun j => copy_cell g i j (Tr i j) (Tc i j)) m = Done m' /\
             square n m'.
Proof.
  intros Hi Hsq.
  destruct (for_range_inv (fun _ m0 => square n m0)
              (fun j => copy_cell g i j (Tr i j) (Tc i j)) n 0 m Hsq)
    as (m' & Hm' & Hsq'); [|eauto].
  intros j m0 Hj Hsq0. unfold copy_cell. rewrite cell_in_range by assumption.
  destruct (target_in_range i j ltac:(lia) ltac:(lia)) as [Hr Hc].
  destruct (store_in_range n m0 (Tr i j) (Tc i j) (sticker g i j) Hsq0 Hr Hc)
    as (m1 & -> & Hsq1 & _). eauto.
Qed.

Lemma copy_loops_raise :
  exists m,
    for_upto n (fun i => for_upto n (fun j => copy_cell g i j (Tr i j) (Tc i j)))
      (empty_matrix n) = Raised TypeError m.
Proof.
  unfold for_upto.
  destruct (for_range_raises (fun _ m0 => square n m0)
              (fun i => for_range 0 n (fun j => copy_cell g i j (Tr i j) (Tc i j)))
              n 0 (empty_matrix n) (length g)) as ([] & m & Hm).
  - lia.
  - apply square_empty_matrix.
  - intros i m0 Hi Hsq. apply copy_row_done; [lia|assumption].
  - intros m0 _. destruct n as [|n']; [lia|]. simpl. unfold copy_cell, cell.
    rewrite lookup_ge_None_2 by lia. simpl. eauto.
  - eauto.
Qed.

End CopyLoopsThrow.

Lemma rotateFaceClockwise_raises X c :
  length (get_face X c) < size c -> rotateFaceClockwise X c = Raised TypeError c.
Proof.
  intros Hlen. unfold rotateFaceClockwise, rotate_cw_matrix.
  destruct (copy_loops_raise (size c) (get_face X c)
              (fun i j => j) (fun i j => size c - 1 - i) Hlen) as (m & ->);
    [intros; lia|reflexivity].
Qed.

Lemma rotateFaceCounterClockwise_raises X c :
  length (get_face X c) < size c ->
  rotateFaceCounterClockwise X c = Raised TypeError c.
Proof.
  intros Hlen. unfold rotateFaceCounterClockwise, rotate_ccw_matrix.
  destruct (copy_loops_raise (size c) (get_face X c)
              (fun i j => size c - 1 - j) (fun i j => i) Hlen) as (m & ->);
    [intros; lia|reflexivity].
Qed.

(** X1. [rotateFaceClockwise] and [rotateFaceCounterClockwise] read only
    the first [size] rows of the face. When the face has them, the call
    returns and replaces the grid by a [size] x [size] grid whose cell
    (r, k) is the old cell (size - 1 - k, r), respectively
    (k, size - 1 - r), [undefined] where the old row was too short; when
    a row is missing, the call throws a TypeError and the cube is as it
    was. *)
Theorem X1_rotation_effect (X : FaceId) (c : Cube) :
  (size c <= length (get_face X c) ->
     rotateFaceClockwise X c =
       Done (set_face X (rot_cw (size c) (get_face X c)) c) /\
     rotateFaceCounterClockwise X c =
       Done (set_face X (rot_ccw (size c) (get_face X c)) c) /\
     square (size c) (rot_cw (size c) (get_face X c)) /\
     square (size c) (rot_ccw (size c) (get_face X c)) /\
     forall r k, r < size c -> k < size c ->
       cell (rot_cw (size c) (get_face X c)) r k =
         Some (sticker (get_face X c) (size c - 1 - k) r) /\
       cell (rot_ccw (size c) (get_face X c)) r k =
         Some (sticker (get_face X c) k (size c - 1 - r))) /\
  (length (get_face X c) < size c ->
     rotateFaceClockwise X c = Raised TypeError c /\
     rotateFaceCounterClockwise X c = Raised TypeError c).
Proof.
  split.
  - intros Hlen.
    split; [now apply rotateFaceClockwise_closed|].
    split; [now apply rotateFaceCounterClockwise_closed|].
    split; [apply rot_cw_square|]. split; [apply rot_ccw_square|].
    intros r k Hr Hk. unfold rot_cw, rot_ccw.
    now rewrite !cell_tabulate by assumption.
  - intros Hlen. split.
    + now apply rotateFaceClockwise_raises.
    + now apply rotateFaceCounterClockwise_raises.
Qed.

Lemma X1_rotation_effect_witness :
  (size (front_turned 3) <= length (get_face Up (front_turned 3)) /\
   rotateFaceClockwise Up (front_turned 3) =
     Done (set_face Up [[Str "G"; Str "W"; Str "W"];
                        [Str "G"; Str "W"; Str "W"];
                        [Str "G"; Str "W"; Str "W"]] (front_turned 3))) /\
  (length (get_face Up short_up_3) < size short_up_3 /\
   rotateFaceClockwise Up short_up_3 = Raised TypeError short_up_3).
Proof.
  split.
  - assert (H : size (front_turned 3) <= length (get_face Up (front_turned 3)))
      by (vm_compute; lia).
    split; [exact H|].
    exact (proj1 (proj1 (X1_rotation_effect Up (front_turned 3)) H)).
  - assert (H : length (get_face Up short_up_3) < size short_up_3)
      by (vm_compute; lia).
    split; [exact H|].
    exact (proj1 (proj2 (X1_rotation_effect Up short_up_3) H)).
Defined.

(** ** Shape of the cube under any sequence of moves *)

(** [move] is the identity, or a rotation followed by the sticker mover
    of the face. *)
Lemma move_cases m :
  move m = Done \/
  exists X, move m = (rotateFaceClockwise X >>> sticker_mover X true) \/
            move m = (rotateFaceCounterClockwise X >>> sticker_mover X false).
Proof.
  unfold move.
  destruct (String.eqb (remove_first apostrophe m) "F");
    [right; exists Front; destruct (includes apostrophe m); auto|].
  destruct (String.eqb (remove_first apostrophe m) "B");
    [right; exists Back; destruct (includes apostrophe m); auto|].
  destruct (String.eqb (remove_first apostrophe m) "U");
    [right; exists Up; destruct (includes apostrophe m); auto|].
  destruct (String.eqb (remove_first apostrophe m) "D");
    [right; exists Down; destruct (includes apostrophe m); auto|].
  destruct (String.eqb (remove_first apostrophe m) "L");
    [right; exists Left; destruct (includes apostrophe m); auto|].
  destruct (String.eqb (remove_first apostrophe m) "R");
    [right; exists Right; destruct (includes apostrophe m); auto|].
  now left.
Qed.

Lemma moveFFaceStickers_state_wf (clockwise : bool) cu :
  well_formed cu ->
  well_formed (state_of (moveFFaceStickers clockwise cu)) /\
  size (state_of (moveFFaceStickers clockwise cu)) = size cu.
Proof.
  intros Hwf. pose proof (well_formed_face cu Up Hwf) as [HlenU _].
  cbn [get_face] in HlenU.
  assert (Hsize : (if clockwise then 3 <= size cu else 1 <= size cu) ->
                  well_formed (state_of (moveFFaceStickers clockwise cu)) /\
                  size (state_of (moveFFaceStickers clockwise cu)) = size cu).
  { intros Hs. destruct (moveFFaceStickers_wf clockwise cu Hwf Hs)
      as (cu' & -> & ? & ?). auto. }
  destruct clockwise.
  - destruct (decide (3 <= size cu)) as [Hs|Hs]; [now apply Hsize|].
    unfold moveFFaceStickers. rewrite lookup_ge_None_2 by lia. simpl. auto.
  - destruct (decide (1 <= size cu)) as [Hs|Hs]; [now apply Hsize|].
    assert (E : size cu = 0) by lia.
    unfold moveFFaceStickers. rewrite E. simpl. auto.
Qed.

Lemma sticker_mover_state_wf X (clockwise : bool) cu :
  well_formed cu ->
  well_formed (state_of (sticker_mover X clockwise cu)) /\
  size (state_of (sticker_mover X clockwise cu)) = size cu.
Proof.
  intros Hwf. destruct X; try (simpl; auto; fail).
  now apply moveFFaceStickers_state_wf.
Qed.

(** Whatever the name and however the call ends, [move] leaves a
    well-formed cube well formed, with its size. *)
Lemma move_state_wf m c :
  well_formed c ->
  well_formed (state_of (move m c)) /\ size (state_of (move m c)) = size c.
Proof.
  intros Hwf. destruct (move_cases m) as [->|(X & [->| ->])]; [auto| |].
  - destruct (rotateFaceClockwise_wf X c Hwf) as [H1 Hwf1].
    rewrite (seq_stmt_done _ _ _ _ H1).
    destruct (sticker_mover_state_wf X true _ Hwf1) as [? Hs]. split; [assumption|].
    now rewrite Hs.
  - destruct (rotateFaceCounterClockwise_wf X c Hwf) as [H1 Hwf1].
    rewrite (seq_stmt_done _ _ _ _ H1).
    destruct (sticker_mover_state_wf X false _ Hwf1) as [? Hs]. split; [assumption|].
    now rewrite Hs.
Qed.

Lemma apply_moves_state_wf ms : forall c,
  well_formed c ->
  well_formed (state_of (apply_moves ms c)) /\
  size (state_of (apply_moves ms c)) = size c.
Proof.
  induction ms as [|m ms IH]; intros c Hwf; [auto|].
  cbn [apply_moves]. unfold seq_stmt.
  destruct (move_state_wf m c Hwf) as [Hwf1 Hs1].
  destruct (move m c) as [c1|e c1]; simpl in *; [|auto].
  destruct (IH c1 Hwf1) as [? Hs]. split; [assumption|]. now rewrite Hs.
Qed.

(** From size 3 on, no name makes [move] throw on a well-formed cube. *)
Lemma move_completes m c :
  well_formed c -> 3 <= size c -> exists c', move m c = Done c'.
Proof.
  intros Hwf Hsize. destruct (move_cases m) as [->|(X & [->| ->])]; [eauto| |].
  - destruct (rotateFaceClockwise_wf X c Hwf) as [H1 Hwf1].
    rewrite (seq_stmt_done _ _ _ _ H1). destruct X; try (simpl; eauto; fail).
    destruct (moveFFaceStickers_wf true _ Hwf1 Hsize) as (c' & ? & _). eauto.
  - destruct (rotateFaceCounterClockwise_wf X c Hwf) as [H1 Hwf1].
    rewrite (seq_stmt_done _ _ _ _ H1). destruct X; try (simpl; eauto; fail).
    destruct (moveFFaceStickers_wf false _ Hwf1) as (c' & ? & _);
      [simpl; lia|eauto].
Qed.

Lemma apply_moves_completes ms : forall c,
  well_formed c -> 3 <= size c ->
  exists c', apply_moves ms c = Done c' /\ well_formed c' /\ size c' = size c.
Proof.
  induction ms as [|m ms IH]; intros c Hwf Hsize; [simpl; eauto|].
  cbn [apply_moves].
  destruct (move_completes m c Hwf Hsize) as (c1 & H1).
  destruct (move_state_wf m c Hwf) as [Hwf1 Hs1]. rewrite H1 in Hwf1, Hs1.
  simpl in Hwf1, Hs1.
  destruct (IH c1 Hwf1) as (c' & H' & Hwf' & Hs'); [lia|].
  exists c'. rewrite (seq_stmt_done _ _ _ _ H1). split; [assumption|].
  split; [assumption|lia].
Qed.

Lemma apply_moves_app a b c :
  apply_moves (a ++ b) c = (apply_moves a >>> apply_moves b) c.
Proof.
  revert c. induction a as [|m a IH]; intros c; [reflexivity|].
  cbn [app apply_moves]. unfold seq_stmt at 1 2 3.
  destruct (move m c) as [c1|e c1]; [|reflexivity].
  rewrite IH. reflexivity.
Qed.

(** X2. On a well-formed cube, whatever the list of move names (known to
    [move] or not) and whether the sequence runs to its end or stops on
    an exception, the cube left behind is well formed and has the same
    size; from size 3 on the sequence always runs to its end. *)
Theorem X2_moves_keep_the_cube_well_formed (ms : list string) (c : Cube) :
  well_formed c ->
  well_formed (state_of (apply_moves ms c)) /\
  size (state_of (apply_moves ms c)) = size c /\
  (3 <= size c -> exists c', apply_moves ms c = Done c').
Proof.
  intros Hwf. destruct (apply_moves_state_wf ms c Hwf) as [Hwf' Hs].
  split; [assumption|]. split; [assumption|].
  intros Hsize. destruct (apply_moves_completes ms c Hwf Hsize) as (c' & ? & _).
  eauto.
Qed.

Lemma X2_moves_keep_the_cube_well_formed_witness :
  well_formed hand_coloured_2 /\
  well_formed (state_of (apply_moves ["B"; "x"; "F"; "U"] hand_coloured_2)) /\
  size (state_of (apply_moves ["B"; "x"; "F"; "U"] hand_coloured_2)) = 2.
Proof.
  assert (Hwf : well_formed hand_coloured_2)
    by (apply (bool_decide_unpack (well_formed hand_coloured_2));
        vm_compute; exact I).
  destruct (X2_moves_keep_the_cube_well_formed
              ["B"; "x"; "F"; "U"] hand_coloured_2 Hwf) as (H1 & H2 & _).
  split; [exact Hwf|]. split; [exact H1|exact H2].
Defined.

(** X3. On a well-formed cube [move('F')] throws a TypeError exactly
    when the size is below 3, and ["F'"] exactly when the size is 0; the
    exception leaves the cube with its Front grid already rotated. The
    ten quarter turns of the other faces never throw. *)
Theorem X3_front_turn_throws_below_size_3 (c : Cube) :
  well_formed c ->
  (size c < 3 ->
     move "F" c =
       Raised TypeError (set_face Front (rot_cw (size c) (get_face Front c)) c)) /\
  (3 <= size c -> exists c', move "F" c = Done c') /\
  (size c = 0 ->
     move "F'" c =
       Raised TypeError (set_face Front (rot_ccw (size c) (get_face Front c)) c)) /\
  (1 <= size c -> exists c', move "F'" c = Done c') /\
  (forall m, In m plain_turns -> exists c', move m c = Done c').
Proof.
  intros Hwf. pose proof (well_formed_face c Up Hwf) as [HlenU _].
  cbn [get_face] in HlenU.
  destruct (move_front_wf c Hwf) as [Hcw Hccw].
  split; [|split; [|split; [|split]]].
  - intros Hsize.
    change (move "F" c) with ((rotateFaceClockwise Front >>> moveFFaceStickers true) c).
    destruct (rotateFaceClockwise_wf Front c Hwf) as [H1 _].
    rewrite (seq_stmt_done _ _ _ _ H1). unfold moveFFaceStickers.
    cbn [faces set_face U]. now rewrite lookup_ge_None_2 by lia.
  - intros Hsize. destruct (Hcw Hsize) as (c' & ? & _). eauto.
  - intros Hsize.
    change (move "F'" c)
      with ((rotateFaceCounterClockwise Front >>> moveFFaceStickers false) c).
    destruct (rotateFaceCounterClockwise_wf Front c Hwf) as [H1 _].
    rewrite (seq_stmt_done _ _ _ _ H1). unfold moveFFaceStickers.
    cbn [size set_face]. now rewrite Hsize.
  - intros Hsize. destruct (Hccw Hsize) as (c' & ? & _). eauto.
  - intros m Hm. unfold plain_turns in Hm. simpl in Hm.
    repeat (destruct Hm as [<-|Hm];
            [first [ rewrite (move_plain_is_rotation Back) by discriminate
                   | rewrite (move_prime_is_rotation Back) by discriminate
                   | rewrite (move_plain_is_rotation Up) by discriminate
                   | rewrite (move_prime_is_rotation Up) by discriminate
                   | rewrite (move_plain_is_rotation Down) by discriminate
                   | rewrite (move_prime_is_rotation Down) by discriminate
                   | rewrite (move_plain_is_rotation Left) by discriminate
                   | rewrite (move_prime_is_rotation Left) by discriminate
                   | rewrite (move_plain_is_rotation Right) by discriminate
                   | rewrite (move_prime_is_rotation Right) by discriminate ];
             first [ destruct (rotateFaceClockwise_wf Back c Hwf) as [-> _]
                   | destruct (rotateFaceCounterClockwise_wf Back c Hwf) as [-> _]
                   | destruct (rotateFaceClockwise_wf Up c Hwf) as [-> _]
                   | destruct (rotateFaceCounterClockwise_wf Up c Hwf) as [-> _]
                   | destruct (rotateFaceClockwise_wf Down c Hwf) as [-> _]
                   | destruct (rotateFaceCounterClockwise_wf Down c Hwf) as [-> _]
                   | destruct (rotateFaceClockwise_wf Left c Hwf) as [-> _]
                   | destruct (rotateFaceCounterClockwise_wf Left c Hwf) as [-> _]
                   | destruct (rotateFaceClockwise_wf Right c Hwf) as [-> _]
                   | destruct (rotateFaceCounterClockwise_wf Right c Hwf) as [-> _] ];
             eauto|]).
    destruct Hm.
Qed.

Lemma X3_front_turn_throws_below_size_3_witness :
  well_formed hand_coloured_2 /\ size hand_coloured_2 < 3 /\
  move "F" hand_coloured_2 = Raised TypeError hand_coloured_2.
Proof.
  assert (Hwf : well_formed hand_coloured_2)
    by (apply (bool_decide_unpack (well_formed hand_coloured_2));
        vm_compute; exact I).
  assert (Hs : size hand_coloured_2 < 3) by (simpl; lia).
  split; [exact Hwf|]. split; [exact Hs|].
  exact (proj1 (X3_front_turn_throws_below_size_3 hand_coloured_2 Hwf) Hs).
Defined.

(** ** Sequences of quarter turns *)

Lemma plain_turn_name m :
  In m plain_turns ->
  exists X, X <> Front /\
    ((m = face_key X /\ invert_move m = face_key X ++ "'") \/
     (m = face_key X ++ "'" /\ invert_move m = face_key X)).
Proof.
  unfold plain_turns. simpl. intros H.
  repeat (destruct H as [<-|H];
          [first [ exists Back; split; [discriminate|]; vm_compute; solve [auto]
                 | exists Up; split; [discriminate|]; vm_compute; solve [auto]
                 | exists Down; split; [discriminate|]; vm_compute; solve [auto]
                 | exists Left; split; [discriminate|]; vm_compute; solve [auto]
                 | exists Right; split; [discriminate|]; vm_compute; solve [auto] ]|]).
  destruct H.
Qed.

Lemma sound_turn_name n m :
  sound_turn n m ->
  exists X, (X <> Front \/ n = 3) /\
    ((m = face_key X /\ invert_move m = face_key X ++ "'") \/
     (m = face_key X ++ "'" /\ invert_move m = face_key X)).
Proof.
  intros [Hm|[Hn Hm]].
  - destruct (plain_turn_name m Hm) as (X & HX & Hcases). eauto.
  - exists Front. split; [auto|]. simpl in Hm.
    destruct Hm as [<-|[<-|[]]]; vm_compute; auto.
Qed.

Lemma seq_two_done {St} (a b : St -> res St) s s2 :
  (a >>> b) s = Done s2 -> exists s1, a s = Done s1 /\ b s1 = Done s2.
Proof.
  unfold seq_stmt. destruct (a s) as [s1|e s1]; [eauto|discriminate].
Qed.

(** A sound quarter turn returns, keeps the shape and the census, and is
    undone by its inverse. *)
Lemma sound_turn_step m c :
  well_formed c -> sound_turn (size c) m ->
  exists c1, move m c = Done c1 /\ well_formed c1 /\ size c1 = size c /\
             move (invert_move m) c1 = Done c /\
             forall col, count_color col c1 = count_color col c.
Proof.
  intros Hwf Hm.
  destruct (sound_turn_name _ _ Hm) as (X & HX & Hcases).
  destruct (turn_then_inverse_restores X c Hwf HX) as [H1 H2].
  assert (Hpair : exists c1, move m c = Done c1 /\
                             move (invert_move m) c1 = Done c).
  { destruct Hcases as [[-> ->]|[-> ->]].
    - cbn [apply_moves] in H1. apply seq_two_done in H1.
      destruct H1 as (c1 & Hc1 & H1). apply seq_two_done in H1.
      destruct H1 as (c2 & Hc2 & [= <-]). eauto.
    - cbn [apply_moves] in H2. apply seq_two_done in H2.
      destruct H2 as (c1 & Hc1 & H2). apply seq_two_done in H2.
      destruct H2 as (c2 & Hc2 & [= <-]). eauto. }
  destruct Hpair as (c1 & Hc1 & Hinv).
  destruct (move_state_wf m c Hwf) as [Hwf1 Hs1]. rewrite Hc1 in Hwf1, Hs1.
  simpl in Hwf1, Hs1.
  exists c1. split; [assumption|]. split; [assumption|]. split; [assumption|].
  split; [assumption|].
  destruct (census_kept X m c Hwf HX) as (c' & Hc' & Hcount & _).
  { destruct Hcases as [[-> _]|[-> _]]; simpl; auto. }
  rewrite Hc1 in Hc'. injection Hc' as <-. exact Hcount.
Qed.

Lemma four_prime_turns_restore X c :
  well_formed c -> X <> Front \/ size c = 3 ->
  apply_moves [face_key X ++ "'"; face_key X ++ "'";
               face_key X ++ "'"; face_key X ++ "'"] c = Done c.
Proof.
  intros Hwf Hcase. destruct (decide (X = Front)) as [->|HX].
  - destruct Hcase as [Hne|Hsize]; [now contradict Hne|].
    explode_cube_3 c Hwf Hsize. reflexivity.
  - cbn [apply_moves].
    pose proof (well_formed_face c X Hwf) as Hsq.
    destruct (rotateFaceCounterClockwise_wf X c Hwf) as [H1 Hwf1].
    rewrite (seq_stmt_done _ _ _ _ (eq_trans (move_prime_is_rotation X c HX) H1)).
    destruct (rotateFaceCounterClockwise_wf X _ Hwf1) as [H2 Hwf2].
    rewrite get_set_face_eq, size_set_face, set_face_twice in H2, Hwf2.
    rewrite (seq_stmt_done _ _ _ _ (eq_trans (move_prime_is_rotation X _ HX) H2)).
    destruct (rotateFaceCounterClockwise_wf X _ Hwf2) as [H3 Hwf3].
    rewrite get_set_face_eq, size_set_face, set_face_twice in H3, Hwf3.
    rewrite (seq_stmt_done _ _ _ _ (eq_trans (move_prime_is_rotation X _ HX) H3)).
    destruct (rotateFaceCounterClockwise_wf X _ Hwf3) as [H4 Hwf4].
    rewrite get_set_face_eq, size_set_face, set_face_twice in H4, Hwf4.
    rewrite (seq_stmt_done _ _ _ _ (eq_trans (move_prime_is_rotation X _ HX) H4)).
    rewrite rot_ccw_four by assumption. now rewrite set_face_same.
Qed.

(** X4. On a well-formed cube, a quarter turn of B, U, D, L or R (any
    size), or of F (size 3), in either direction, has order four: four
    of them give back the cube, and three of them are the inverse
    turn. *)
Theorem X4_quarter_turn_has_order_four (m : string) (c : Cube) :
  well_formed c -> sound_turn (size c) m ->
  apply_moves [m; m; m; m] c = Done c /\
  apply_moves [m; m; m] c = move (invert_move m) c.
Proof.
  intros Hwf Hm.
  assert (H4 : apply_moves [m; m; m; m] c = Done c).
  { destruct (sound_turn_name _ _ Hm) as (X & HX & [[-> _]|[-> _]]).
    - now apply four_quarter_turns_restore.
    - now apply four_prime_turns_restore. }
  split; [exact H4|].
  change [m; m; m; m] with ([m; m; m] ++ [m])%list in H4.
  rewrite apply_moves_app in H4. apply seq_two_done in H4.
  destruct H4 as (c3 & H3 & Hlast). rewrite H3.
  destruct (apply_moves_state_wf [m; m; m] c Hwf) as [Hwf3 Hs3].
  rewrite H3 in Hwf3, Hs3. simpl in Hwf3, Hs3.
  destruct (sound_turn_step m c3 Hwf3) as (c' & Hc' & _ & _ & Hinv & _);
    [now rewrite Hs3|].
  cbn [apply_moves] in Hlast. rewrite seq_stmt_skip in Hlast.
  rewrite Hlast in Hc'. injection Hc' as <-. now rewrite Hinv.
Qed.

Lemma X4_quarter_turn_has_order_four_witness :
  well_formed (front_turned 3) /\ sound_turn (size (front_turned 3)) "F'" /\
  apply_moves ["F'"; "F'"; "F'"; "F'"] (front_turned 3) = Done (front_turned 3) /\
  apply_moves ["F'"; "F'"; "F'"] (front_turned 3) = move "F" (front_turned 3).
Proof.
  assert (Hwf : well_formed (front_turned 3))
    by (apply (bool_decide_unpack (well_formed (front_turned 3)));
        vm_compute; exact I).
  assert (Hm : sound_turn (size (front_turned 3)) "F'")
    by (right; split; [reflexivity|simpl; auto]).
  split; [exact Hwf|]. split; [exact Hm|].
  exact (X4_quarter_turn_has_order_four "F'" (front_turned 3) Hwf Hm).
Defined.

(** A sequence of sound quarter turns returns, keeps the shape and the
    census, and is undone by the inverse sequence. *)
Lemma sound_turns_run ms : forall c,
  well_formed c -> Forall (sound_turn (size c)) ms ->
  exists c', apply_moves ms c = Done c' /\ well_formed c' /\ size c' = size c /\
             apply_moves (invert_moves ms) c' = Done c /\
             forall col, count_color col c' = count_color col c.
Proof.
  induction ms as [|m ms IH]; intros c Hwf Hms.
  - exists c. simpl. auto.
  - apply Forall_cons in Hms. destruct Hms as [Hm Hms].
    destruct (sound_turn_step m c Hwf Hm) as (c1 & Hc1 & Hwf1 & Hs1 & Hinv & Hcount).
    destruct (IH c1 Hwf1) as (c' & Hc' & Hwf' & Hs' & Hinv' & Hcount');
      [now rewrite Hs1|].
    exists c'. cbn [apply_moves]. rewrite (seq_stmt_done _ _ _ _ Hc1).
    split; [assumption|]. split; [assumption|]. split; [lia|]. split.
    + unfold invert_moves in *. cbn [map rev].
      rewrite apply_moves_app, (seq_stmt_done _ _ _ _ Hinv').
      cbn [apply_moves]. now rewrite seq_stmt_skip.
    + intros col. now rewrite Hcount'.
Qed.

(** X5. On a well-formed cube, a sequence of quarter turns of B, U, D,
    L, R (any size) or of all six faces (size 3) followed by the
    inverse turns in reverse order gives back the cube. *)
Theorem X5_sequence_then_inverse_restores (ms : list string) (c : Cube) :
  well_formed c -> Forall (sound_turn (size c)) ms ->
  apply_moves (ms ++ invert_moves ms)%list c = Done c.
Proof.
  intros Hwf Hms.
  destruct (sound_turns_run ms c Hwf Hms) as (c' & Hc' & _ & _ & Hinv & _).
  rewrite apply_moves_app. now rewrite (seq_stmt_done _ _ _ _ Hc').
Qed.

Lemma X5_sequence_then_inverse_restores_witness :
  well_formed (front_turned 3) /\
  Forall (sound_turn (size (front_turned 3))) ["F"; "R"; "U"; "R'"; "U'"; "F'"] /\
  apply_moves (["F"; "R"; "U"; "R'"; "U'"; "F'"] ++
               ["F"; "U"; "R"; "U'"; "R'"; "F'"])%list (front_turned 3) =
    Done (front_turned 3).
Proof.
  assert (Hwf : well_formed (front_turned 3))
    by (apply (bool_decide_unpack (well_formed (front_turned 3)));
        vm_compute; exact I).
  assert (Hms : Forall (sound_turn (size (front_turned 3)))
                  ["F"; "R"; "U"; "R'"; "U'"; "F'"]).
  { repeat (apply Forall_cons; split;
              [first [ left; unfold plain_turns; simpl; tauto
                     | right; split; [vm_compute; reflexivity|simpl; tauto] ]|]).
    apply Forall_nil_2. }
  split; [exact Hwf|]. split; [exact Hms|].
  exact (X5_sequence_then_inverse_restores _ _ Hwf Hms).
Defined.

(** X6. On a well-formed cube, a sequence of quarter turns of B, U, D,
    L, R (any size) or of all six faces (size 3) runs to its end and
    keeps the number of stickers of every colour; a balanced cube stays
    balanced. *)
Theorem X6_sequences_keep_the_census (ms : list string) (c : Cube) :
  well_formed c -> Forall (sound_turn (size c)) ms ->
  exists c', apply_moves ms c = Done c' /\
             (forall col, count_color col c' = count_color col c) /\
             (balanced c -> balanced c').
Proof.
  intros Hwf Hms.
  destruct (sound_turns_run ms c Hwf Hms) as (c' & Hc' & _ & Hs & _ & Hcount).
  exists c'. split; [assumption|]. split; [assumption|].
  unfold balanced. rewrite Hs. intros Hb.
  eapply Forall_impl; [exact Hb|]. intros col Hcol. simpl. now rewrite Hcount.
Qed.

Lemma X6_sequences_keep_the_census_witness :
  well_formed (new_Cube 4 false) /\
  Forall (sound_turn (size (new_Cube 4 false))) ["R"; "U'"; "B"] /\
  exists c', apply_moves ["R"; "U'"; "B"] (new_Cube 4 false) = Done c' /\
             (forall col, count_color col c' = count_color col (new_Cube 4 false)) /\
             (balanced (new_Cube 4 false) -> balanced c').
Proof.
  assert (Hwf : well_formed (new_Cube 4 false))
    by (apply (bool_decide_unpack (well_formed (new_Cube 4 false)));
        vm_compute; exact I).
  assert (Hms : Forall (sound_turn (size (new_Cube 4 false))) ["R"; "U'"; "B"]).
  { repeat (apply Forall_cons; split;
              [first [ left; unfold plain_turns; simpl; tauto
                     | right; split; [vm_compute; reflexivity|simpl; tauto] ]|]).
    apply Forall_nil_2. }
  split; [exact Hwf|]. split; [exact Hms|].
  exact (X6_sequences_keep_the_census _ _ Hwf Hms).
Defined.

(** X7. On a well-formed cube, quarter turns of two opposite faces, in
    any directions, commute wherever both return (['F'] needs size 3 or
    more, ["F'"] size 1 or more): the two orders end normally in the
    same cube. *)
Theorem X7_opposite_faces_commute (X Y : FaceId) (mX mY : string) (c : Cube) :
  opposite X Y = true ->
  In mX [face_key X; face_key X ++ "'"] ->
  In mY [face_key Y; face_key Y ++ "'"] ->
  well_formed c -> turn_defined mX c -> turn_defined mY c ->
  apply_moves [mX; mY] c = apply_moves [mY; mX] c /\
  exists c', apply_moves [mX; mY] c = Done c'.
Proof.
  intros Hopp HmX HmY Hwf HdX HdY.
  destruct (opposite_moves_commute X Y mX mY c Hopp HmX HmY Hwf HdX HdY)
    as (c' & H1 & H2).
  split; [now rewrite H1, H2|eauto].
Qed.

Lemma X7_opposite_faces_commute_witness :
  opposite Front Back = true /\
  In "F" [face_key Front; face_key Front ++ "'"] /\
  In "B'" [face_key Back; face_key Back ++ "'"] /\
  well_formed (new_Cube 4 false) /\
  turn_defined "F" (new_Cube 4 false) /\ turn_defined "B'" (new_Cube 4 false) /\
  apply_moves ["F"; "B'"] (new_Cube 4 false) =
  apply_moves ["B'"; "F"] (new_Cube 4 false).
Proof.
  assert (Hwf : well_formed (new_Cube 4 false))
    by (apply (bool_decide_unpack (well_formed (new_Cube 4 false)));
        vm_compute; exact I).
  assert (HF : In "F" [face_key Front; face_key Front ++ "'"]) by (simpl; auto).
  assert (HB : In "B'" [face_key Back; face_key Back ++ "'"]) by (simpl; auto).
  assert (HdF : turn_defined "F" (new_Cube 4 false))
    by (split; intros _; simpl; lia).
  assert (HdB : turn_defined "B'" (new_Cube 4 false))
    by (split; intros _; simpl; lia).
  split; [reflexivity|]. split; [exact HF|]. split; [exact HB|].
  split; [exact Hwf|]. split; [exact HdF|]. split; [exact HdB|].
  exact (proj1 (X7_opposite_faces_commute Front Back "F" "B'" (new_Cube 4 false)
                  eq_refl HF HB Hwf HdF HdB)).
Defined.

(** ** What [isSolved] decides *)

Lemma scan_range_spec {A} (body : nat -> completion A) (r : A) count :
  forall start,
    (forall i, start <= i < start + count ->
       body i = Continue \/ body i = Return r) ->
    (scan_range start count body = Continue /\
     forall i, start <= i < start + count -> body i = Continue) \/
    (scan_range start count body = Return r /\
     exists i, start <= i < start + count /\ body i = Return r).
Proof.
  induction count as [|k IH]; intros start Hbody; simpl.
  - left. split; [reflexivity|]. intros i Hi. lia.
  - destruct (Hbody start ltac:(lia)) as [H0|H0]; rewrite H0.
    + destruct (IH (S start)) as [[-> Hall]|[-> (i & Hi & Hr)]].
      * intros i Hi. apply Hbody. lia.
      * left. split; [reflexivity|]. intros i Hi.
        destruct (decide (i = start)) as [->|]; [assumption|apply Hall; lia].
      * right. split; [reflexivity|]. exists i. split; [lia|assumption].
    + right. split; [reflexivity|]. exists start. split; [lia|assumption].
Qed.

Lemma scan_list_spec {A X} (body : X -> completion A) (r : A) xs :
  (forall x, In x xs -> body x = Continue \/ body x = Return r) ->
  (scan_list xs body = Continue /\ forall x, In x xs -> body x = Continue) \/
  (scan_list xs body = Return r /\ exists x, In x xs /\ body x = Return r).
Proof.
  induction xs as [|x xs IH]; intros Hbody; simpl.
  - left. split; [reflexivity|]. intros x [].
  - destruct (Hbody x ltac:(simpl; auto)) as [H0|H0]; rewrite H0.
    + destruct IH as [[-> Hall]|[-> (y & Hy & Hr)]].
      * intros y Hy. apply Hbody. simpl. auto.
      * left. split; [reflexivity|]. intros y [<-|Hy]; auto.
      * right. split; [reflexivity|]. exists y. simpl. auto.
    + right. split; [reflexivity|]. exists x. simpl. auto.
Qed.

(** The loop body of [isSolved] on one face with all its rows. *)
Lemma face_uniform_spec c face :
  0 < size c -> size c <= length (get_face face c) ->
  (face_uniform c face = Continue /\ uniform (size c) (get_face face c)) \/
  (face_uniform c face = Return false /\ ~ uniform (size c) (get_face face c)).
Proof.
  intros Hn Hrows. unfold face_uniform.
  rewrite (cell_in_range (get_face face c) 0 0) by lia.
  set (g := get_face face c) in *. set (n := size c) in *.
  set (inner := fun i j =>
         match cell g i j with
         | Some v => if decide (v = sticker g 0 0) then Continue else Return false
         | None => Throws TypeError
         end).
  assert (Hinner : forall i j, i < n ->
            inner i j = Continue /\ sticker g i j = sticker g 0 0 \/
            inner i j = Return false /\ sticker g i j <> sticker g 0 0).
  { intros i j Hi. unfold inner. rewrite cell_in_range by lia.
    destruct (decide (sticker g i j = sticker g 0 0)); auto. }
  destruct (scan_range_spec (fun i => scan_range 0 n (inner i)) false n 0)
    as [[Hres Hall]|[Hres (i & Hi & Hr)]].
  - intros i Hi.
    destruct (scan_range_spec (inner i) false n 0) as [[-> _]|[-> _]]; auto.
    intros j Hj. destruct (Hinner i j ltac:(lia)) as [[-> _]|[-> _]]; auto.
  - left. split; [exact Hres|]. intros i j Hi Hj.
    specialize (Hall i ltac:(lia)).
    destruct (scan_range_spec (inner i) false n 0) as [[_ Hrow]|[Hrow _]].
    + intros j' Hj'. destruct (Hinner i j' Hi) as [[-> _]|[-> _]]; auto.
    + specialize (Hrow j ltac:(lia)).
      destruct (Hinner i j Hi) as [[_ ?]|[Hc _]]; [assumption|congruence].
    + simpl in Hall. congruence.
  - right. split; [exact Hres|]. intros Huni.
    destruct (scan_range_spec (inner i) false n 0) as [[Hrow _]|[_ (j & Hj & Hc)]].
    + intros j' Hj'. destruct (Hinner i j' ltac:(lia)) as [[-> _]|[-> _]]; auto.
    + simpl in Hr. congruence.
    + destruct (Hinner i j ltac:(lia)) as [[Hc' _]|[_ Hne]]; [congruence|].
      apply Hne. apply Huni; lia.
Qed.

(** X8. On a cube of size 1 or more whose faces have all their rows,
    [isSolved()] never throws: it returns true when, on each of the six
    faces, every sticker of the [size] x [size] part equals the sticker
    at (0, 0), and false when some face has two different stickers. On
    a well-formed cube of size 0 it throws a TypeError (it reads
    [faces[face][0][0]] before the loops). *)
Theorem X8_isSolved_decides_uniform_faces (c : Cube) :
  (0 < size c ->
   Forall (fun face => size c <= length (get_face face c)) face_keys ->
   (isSolved c = Return true /\
    forall face, uniform (size c) (get_face face c)) \/
   (isSolved c = Return false /\
    exists face, ~ uniform (size c) (get_face face c))) /\
  (size c = 0 -> well_formed c -> isSolved c = Throws TypeError).
Proof.
  split.
  - intros Hn Hrows. unfold isSolved.
    assert (Hface : forall face, In face face_keys ->
              size c <= length (get_face face c)).
    { intros face Hin. rewrite Forall_forall in Hrows. apply Hrows.
      now apply list_elem_of_In. }
    destruct (scan_list_spec (face_uniform c) false face_keys)
      as [[-> Hall]|[-> (face & Hin & Hr)]].
    + intros face Hin.
      destruct (face_uniform_spec c face Hn (Hface face Hin)) as [[-> _]|[-> _]];
        auto.
    + left. split; [reflexivity|]. intros face.
      assert (Hin : In face face_keys) by (destruct face; simpl; tauto).
      destruct (face_uniform_spec c face Hn (Hface face Hin)) as [[_ ?]|[Hc _]];
        [assumption|]. rewrite (Hall face Hin) in Hc. discriminate.
    + right. split; [reflexivity|]. exists face.
      destruct (face_uniform_spec c face Hn (Hface face Hin)) as [[Hc _]|[_ ?]];
        [congruence|assumption].
  - intros Hn Hwf. destruct (well_formed_face c Up Hwf) as [Hlen _].
    unfold isSolved. cbn [scan_list face_keys]. unfold face_uniform, cell.
    rewrite lookup_ge_None_2 by lia. reflexivity.
Qed.

Lemma X8_isSolved_decides_uniform_faces_witness :
  (0 < size (front_turned 3) /\
   Forall (fun face => size (front_turned 3) <= length (get_face face (front_turned 3)))
     face_keys /\
   isSolved (front_turned 3) = Return false) /\
  (size (new_Cube 0 false) = 0 /\ well_formed (new_Cube 0 false) /\
   isSolved (new_Cube 0 false) = Throws TypeError).
Proof.
  split.
  - assert (Hn : 0 < size (front_turned 3)) by (vm_compute; lia).
    assert (Hrows : Forall (fun face => size (front_turned 3) <=
                                        length (get_face face (front_turned 3)))
                      face_keys).
    { repeat (apply Forall_cons; split; [vm_compute; lia|]). apply Forall_nil_2. }
    split; [exact Hn|]. split; [exact Hrows|].
    destruct (proj1 (X8_isSolved_decides_uniform_faces (front_turned 3)) Hn Hrows)
      as [[Ht _]|[Hf _]]; [vm_compute in Ht; discriminate|exact Hf].
  - assert (Hwf : well_formed (new_Cube 0 false))
      by (apply (bool_decide_unpack (well_formed (new_Cube 0 false)));
          vm_compute; exact I).
    split; [reflexivity|]. split; [exact Hwf|].
    exact (proj2 (X8_isSolved_decides_uniform_faces (new_Cube 0 false)) eq_refl Hwf).
Defined.

(** ** [clone] and [generateRandomState] *)

Lemma clone_eq c : clone c = c.
Proof.
  destruct c as [n [u d l r f b]]. unfold clone. simpl.
  now rewrite !map_id.
Qed.

(** Writing into a cell the value it holds changes nothing. *)
Lemma put_same face i j v cu :
  (exists row, get_face face cu !! i = Some row /\ row !! j = Some v) ->
  put face i j v cu = Done cu.
Proof.
  intros (row & Hrow & Hv). unfold put, store. rewrite Hrow. simpl.
  unfold array_set. rewrite decide_True by (now apply lookup_lt_Some in Hv).
  rewrite (list_insert_id row j v Hv), (list_insert_id _ i row Hrow).
  now rewrite set_face_same.
Qed.

Lemma get_face_solved n face :
  get_face face (new_Cube n false) = filled_matrix n (defaultColors face).
Proof. now destruct face. Qed.

(** X9. [generateRandomState()] is not random: whatever the stickers of
    the cube it is called on, it returns the solved cube of the same
    size, each face in its own colour, on which [isSolved()] is true
    (size 1 or more). *)
Theorem X9_generateRandomState_is_the_solved_cube (c : Cube) :
  generateRandomState c = Done (new_Cube (size c) false) /\
  (0 < size c -> isSolved (new_Cube (size c) false) = Return true).
Proof.
  split.
  - unfold generateRandomState. set (n := size c).
    assert (Hface : forall face,
              for_upto n (fun i => for_upto n (fun j =>
                put face i j (Str (defaultColors face)))) (new_Cube n false) =
              Done (new_Cube n false)).
    { intros face. unfold for_upto.
      destruct (for_range_inv (fun _ cu => cu = new_Cube n false)
                  (fun i => for_range 0 n (fun j =>
                     put face i j (Str (defaultColors face))))
                  n 0 (new_Cube n false) eq_refl) as (cu & -> & ->); [|reflexivity].
      intros i cu Hi ->.
      destruct (for_range_inv (fun _ cu => cu = new_Cube n false)
                  (fun j => put face i j (Str (defaultColors face)))
                  n 0 (new_Cube n false) eq_refl) as (cu & -> & ->); [|eauto].
      intros j cu Hj ->. exists (new_Cube n false). split; [|reflexivity].
      apply put_same. rewrite get_face_solved. unfold filled_matrix.
      exists (replicate n (Str (defaultColors face))).
      split; apply lookup_replicate_2; lia. }
    cbn [for_each face_keys]. now rewrite !Hface.
  - intros Hn. unfold isSolved. rewrite scan_list_continue; [reflexivity|].
    apply Forall_forall. intros face _. unfold face_uniform.
    rewrite get_face_solved. rewrite cell_filled_matrix by assumption.
    cbn [size new_Cube].
    apply scan_range_continue. intros i Hi.
    apply scan_range_continue. intros j Hj.
    rewrite cell_filled_matrix by lia. now rewrite decide_True.
Qed.

(** ** [forceCubeToSolvedState] *)

Lemma at_index_array_set row j v k :
  at_index (array_set row j v) k = if decide (k = j) then v else at_index row k.
Proof.
  unfold array_set, at_index.
  destruct (decide (j < length row)) as [Hin|Hout].
  - destruct (decide (k = j)) as [->|Hne].
    + now rewrite list_lookup_insert_eq.
    + now rewrite list_lookup_insert_ne by congruence.
  - destruct (decide (k = j)) as [->|Hne].
    + rewrite lookup_app_r by lia.
      rewrite lookup_app_r by (rewrite length_replicate; lia).
      rewrite length_replicate.
      replace (j - length row - (j - length row)) with 0 by lia. reflexivity.
    + destruct (decide (k < length row)) as [Hk|Hk].
      * now rewrite lookup_app_l.
      * rewrite (lookup_ge_None_2 row k) by lia.
        rewrite lookup_app_r by lia.
        destruct (decide (k < j)) as [Hkj|Hkj].
        -- rewrite lookup_app_l by (rewrite length_replicate; lia).
           now rewrite lookup_replicate_2 by lia.
        -- rewrite lookup_ge_None_2; [reflexivity|].
           rewrite length_app, length_replicate. simpl. lia.
Qed.

(** [g[i][j] = v] on a grid of any shape whose row [i] exists. *)
Lemma store_any (g : Grid) i j v :
  i < length g ->
  exists g', store g i j v = Some g' /\ length g' = length g /\
             forall i' j', cell g' i' j' =
               if decide (i' = i /\ j' = j) then Some v else cell g i' j'.
Proof.
  intros Hi. destruct (lookup_lt_is_Some_2 g i Hi) as [row Hrow].
  unfold store. rewrite Hrow. simpl. eexists. split; [reflexivity|].
  split; [apply length_insert|]. intros i' j'. unfold cell.
  destruct (decide (i' = i)) as [->|Hne].
  - rewrite list_lookup_insert_eq, Hrow by assumption. simpl.
    rewrite at_index_array_set.
    destruct (decide (j' = j)) as [->|Hj].
    + now rewrite decide_True.
    + now rewrite decide_False by tauto.
  - rewrite list_lookup_insert_ne by congruence.
    now rewrite decide_False by tauto.
Qed.

Lemma put_any face i j v cu :
  i < length (get_face face cu) ->
  exists cu', put face i j v cu = Done cu' /\ size cu' = size cu /\
    (forall f, f <> face -> get_face f cu' = get_face f cu) /\
    length (get_face face cu') = length (get_face face cu) /\
    (forall i' j', cell (get_face face cu') i' j' =
       if decide (i' = i /\ j' = j) then Some v else cell (get_face face cu) i' j').
Proof.
  intros Hi. unfold put.
  destruct (store_any (get_face face cu) i j v Hi) as (g' & -> & Hlen & Hcells).
  eexists. split; [reflexivity|]. split; [reflexivity|]. split.
  - intros f Hf. apply get_set_face_ne. congruence.
  - rewrite get_set_face_eq. auto.
Qed.

Lemma ensure_row_spec (g : Grid) r :
  r <= length g ->
  r < length (ensure_row g r) /\
  (forall i k, i < r -> cell (ensure_row g r) i k = cell g i k) /\
  (r < length g -> ensure_row g r = g).
Proof.
  intros Hr. unfold ensure_row. destruct (decide (r < length g)) as [Hlt|Hge].
  - auto.
  - split; [rewrite length_app; simpl; lia|]. split; [|lia].
    intros i k Hi. unfold cell. now rewrite lookup_app_l by lia.
Qed.

(** The first pass on one face, from any cube. *)
Lemma paint_face_spec face c0 :
  exists cu, paint_face (size c0) face c0 = Done cu /\
    size cu = size c0 /\
    (forall f, f <> face -> get_face f cu = get_face f c0) /\
    painted (size c0) (solvedColors face) (get_face face cu) (size c0) 0 /\
    (well_formed c0 -> well_formed cu).
Proof.
  set (n := size c0). set (col := solvedColors face).
  pose (Inv := fun (r j : nat) (cu : Cube) =>
    size cu = n /\
    (forall f, f <> face -> get_face f cu = get_face f c0) /\
    r + (if decide (j = 0) then 0 else 1) <= length (get_face face cu) /\
    painted n col (get_face face cu) r j /\
    (well_formed c0 -> well_formed cu)).
  unfold paint_face, for_upto.
  destruct (for_range_inv (fun r cu => Inv r 0 cu)
              (fun row =>
                 (fun cu => Done (set_face face (ensure_row (get_face face cu) row) cu)) >>>
                 for_range 0 n (fun col0 => put face row col0 (Str col)))
              n 0 c0) as (cu & Hcu & Hs & Hother & _ & Hpaint & Hwf).
  - split; [reflexivity|]. split; [auto|]. split; [simpl; lia|].
    split; [|auto]. intros i k _ [Hi|[_ Hk]]; lia.
  - intros r cu Hr (Hs & Hother & Hlen & Hpaint & Hwf). simpl in Hlen.
    rewrite Nat.add_0_r in Hlen.
    destruct (ensure_row_spec (get_face face cu) r Hlen) as (Hlen1 & Hcells1 & Hsame).
    unfold seq_stmt.
    set (cu1 := set_face face (ensure_row (get_face face cu) r) cu).
    destruct (for_range_inv
                (fun j cu' => Inv r j cu' /\ r < length (get_face face cu'))
                (fun col0 => put face r col0 (Str col)) n 0 cu1)
      as (cu2 & Hcu2 & (Hs2 & Hother2 & _ & Hpaint2 & Hwf2) & Hlen2).
    + split; [|unfold cu1; now rewrite get_set_face_eq].
      split; [exact Hs|]. split.
      { intros f Hf. unfold cu1. rewrite get_set_face_ne by congruence. auto. }
      split; [unfold cu1; rewrite get_set_face_eq; simpl; lia|]. split.
      { unfold cu1. rewrite get_set_face_eq. intros i k Hk [Hi|[_ Hk0]]; [|lia].
        rewrite Hcells1 by assumption. apply Hpaint; auto. }
      intros Hwf0. specialize (Hwf Hwf0). unfold cu1.
      rewrite Hsame; [now rewrite set_face_same|].
      destruct (well_formed_face cu face Hwf) as [-> _]. lia.
    + intros j cu' Hj ((Hs' & Hother' & _ & Hpaint' & Hwf') & Hlen').
      destruct (put_any face r j (Str col) cu' Hlen')
        as (cu'' & Hput & Hs'' & Hother'' & Hlen'' & Hcells'').
      exists cu''. split; [exact Hput|]. split; [|lia].
      split; [lia|]. split.
      { intros f Hf. rewrite Hother'' by assumption. auto. }
      split; [rewrite decide_False by lia; lia|]. split.
      { intros i k Hk Hik. rewrite Hcells''.
        destruct (decide (i = r /\ k = j)) as [_|Hne]; [reflexivity|].
        apply Hpaint'; [assumption|]. lia. }
      intros Hwf0. specialize (Hwf' Hwf0).
      destruct (put_wf face r j (Str col) cu' Hwf') as (cu3 & Hput3 & Hwf3 & _);
        [lia|lia|]. rewrite Hput in Hput3. now injection Hput3 as <-.
    + exists cu2. split; [exact Hcu2|]. split; [exact Hs2|].
      split; [exact Hother2|]. split; [simpl; lia|]. split; [|exact Hwf2].
      intros i k Hk [Hi|[_ Hk0]]; [|lia].
      simpl in Hpaint2. apply Hpaint2; [assumption|]. lia.
  - exists cu. split; [exact Hcu|]. split; [exact Hs|]. split; [exact Hother|].
    split; [exact Hpaint|exact Hwf].
Qed.

Lemma paint_faces_spec fs : forall c0,
  NoDup fs ->
  exists cu, for_each fs (paint_face (size c0)) c0 = Done cu /\
    size cu = size c0 /\
    (forall f, ~ In f fs -> get_face f cu = get_face f c0) /\
    (forall f, In f fs ->
       painted (size c0) (solvedColors f) (get_face f cu) (size c0) 0) /\
    (well_formed c0 -> well_formed cu).
Proof.
  induction fs as [|face fs IH]; intros c0 Hnd.
  - exists c0. simpl. repeat split; auto. intros f [].
  - apply NoDup_cons in Hnd. destruct Hnd as [Hnotin Hnd].
    destruct (paint_face_spec face c0) as (c1 & Hc1 & Hs1 & Hother1 & Hp1 & Hwf1).
    destruct (IH c1 Hnd) as (cu & Hcu & Hs & Hother & Hp & Hwf).
    rewrite Hs1 in Hcu, Hp.
    exists cu. simpl. rewrite Hc1. split; [exact Hcu|]. split; [lia|].
    split; [|split].
    + intros f Hf. rewrite Hother by (intros Hin; apply Hf; now right).
      apply Hother1. intros ->. apply Hf. now left.
    + intros f [<-|Hin]; [|now apply Hp].
      rewrite Hother; [exact Hp1|]. intros Hin. apply Hnotin.
      now apply list_elem_of_In.
    + auto.
Qed.

Lemma solvedColors_kept f :
  falsy (Str (solvedColors f)) || bool_decide (Str (solvedColors f) = Str "K") = false.
Proof. now destruct f. Qed.

(** The second pass finds nothing to repair after the first. *)
Lemma repair_pass_identity n cu fs :
  (forall f, painted n (solvedColors f) (get_face f cu) n 0) ->
  for_each fs (fun face =>
    for_upto n (fun row => for_upto n (fun col => repair_cell face row col))) cu =
  Done cu.
Proof.
  intros Hp. induction fs as [|face fs IH]; [reflexivity|]. simpl.
  assert (Hface : for_upto n (fun row =>
                    for_upto n (fun col => repair_cell face row col)) cu = Done cu).
  { unfold for_upto.
    destruct (for_range_inv (fun _ cu' => cu' = cu)
                (fun row => for_range 0 n (fun col => repair_cell face row col))
                n 0 cu eq_refl) as (cu' & -> & ->); [|reflexivity].
    intros row cu' Hrow ->.
    destruct (for_range_inv (fun _ cu' => cu' = cu)
                (fun col => repair_cell face row col) n 0 cu eq_refl)
      as (cu' & -> & ->); [|eauto].
    intros col cu' Hcol ->. exists cu. split; [|reflexivity].
    unfold repair_cell. rewrite (Hp face row col) by lia.
    now rewrite solvedColors_kept. }
  now rewrite Hface.
Qed.

Lemma cube_ext a b :
  size a = size b -> (forall f, get_face f a = get_face f b) -> a = b.
Proof.
  destruct a as [na [ua da la ra fa ba]], b as [nb [ub db lb rb fb bb]].
  simpl. intros -> H.
  pose proof (H Up). pose proof (H Down). pose proof (H Left).
  pose proof (H Right). pose proof (H Front). pose proof (H Back).
  simpl in *. now subst.
Qed.

Lemma solved_when_painted cu :
  0 < size cu ->
  (forall f i j, i < size cu -> j < size cu ->
     cell (get_face f cu) i j = Some (Str (solvedColors f))) ->
  isSolved cu = Return true.
Proof.
  intros Hn Hcells. unfold isSolved. rewrite scan_list_continue; [reflexivity|].
  apply Forall_forall. intros face _. unfold face_uniform.
  rewrite Hcells by assumption.
  apply scan_range_continue. intros i Hi.
  apply scan_range_continue. intros j Hj.
  rewrite Hcells by lia. now rewrite decide_True.
Qed.

Lemma forceCubeToSolvedState_spec c :
  exists c', forceCubeToSolvedState c = Done c' /\
    size c' = size c /\
    (forall f i j, i < size c -> j < size c ->
       cell (get_face f c') i j = Some (Str (solvedColors f))) /\
    (well_formed c -> c' = new_Cube (size c) false).
Proof.
  assert (Hnd : NoDup face_keys).
  { unfold face_keys. repeat (apply NoDup_cons; split;
      [rewrite list_elem_of_In; simpl; intuition discriminate|]).
    apply NoDup_nil_2. }
  destruct (paint_faces_spec face_keys c Hnd) as (c' & Hc' & Hs & _ & Hp & Hwf).
  assert (Hall : forall f, painted (size c) (solvedColors f) (get_face f c') (size c) 0).
  { intros f. apply Hp. destruct f; simpl; tauto. }
  exists c'. unfold forceCubeToSolvedState.
  rewrite (seq_stmt_done _ _ _ _ Hc').
  split; [now apply repair_pass_identity|]. split; [exact Hs|]. split.
  - intros f i j Hi Hj. apply (Hall f); [assumption|]. left. assumption.
  - intros Hwf0. specialize (Hwf Hwf0). apply cube_ext; [exact Hs|].
    intros f. rewrite get_face_solved.
    apply (square_ext (size c)).
    + rewrite <- Hs. now apply well_formed_face.
    + apply square_filled_matrix.
    + intros i j Hi Hj. rewrite cell_filled_matrix by assumption.
      rewrite (Hall f i j) by (auto; lia). now destruct f.
Qed.

(** X10. [forceCubeToSolvedState] never throws, whatever the shape of
    the faces: it creates the rows that are missing, writes the face's
    colour on each of the [size] x [size] stickers (extending a row that
    is too short) and then finds nothing left to repair. Afterwards
    [isSolved()] is true (size 1 or more), and a well-formed cube has
    become exactly the solved cube: the stickers it had are lost. *)
Theorem X10_forceCubeToSolvedState_overwrites_the_cube (c : Cube) :
  exists c', forceCubeToSolvedState c = Done c' /\
    size c' = size c /\
    (forall f i j, i < size c -> j < size c ->
       cell (get_face f c') i j = Some (Str (solvedColors f))) /\
    (0 < size c -> isSolved c' = Return true) /\
    (well_formed c -> c' = new_Cube (size c) false).
Proof.
  destruct (forceCubeToSolvedState_spec c) as (c' & Hc' & Hs & Hcells & Hwf).
  exists c'. split; [exact Hc'|]. split; [exact Hs|]. split; [exact Hcells|].
  split; [|exact Hwf].
  intros Hn. apply solved_when_painted; rewrite Hs; assumption.
Qed.

Lemma X10_forceCubeToSolvedState_overwrites_the_cube_witness :
  0 < size ragged_2 /\
  exists c', forceCubeToSolvedState ragged_2 = Done c' /\
             isSolved c' = Return true /\
             get_face Left c' = [[Str "G"; Str "G"]; [Str "G"; Str "G"; Str "G"]] /\
             get_face Right c' =
               [[Str "B"; Str "B"]; [Str "B"; Str "B"]; [Str "B"]].
Proof.
  assert (Hn : 0 < size ragged_2) by (simpl; lia).
  split; [exact Hn|].
  destruct (X10_forceCubeToSolvedState_overwrites_the_cube ragged_2)
    as (c' & Hc' & _ & _ & Hsolved & _).
  exists c'. split; [exact Hc'|]. split; [exact (Hsolved Hn)|].
  vm_compute in Hc'. injection Hc' as <-. split; reflexivity.
Defined.

Lemma X9_generateRandomState_is_the_solved_cube_witness :
  0 < size (front_turned 3) /\
  generateRandomState (front_turned 3) = Done (new_Cube 3 false) /\
  isSolved (new_Cube 3 false) = Return true.
Proof.
  assert (Hn : 0 < size (front_turned 3)) by (vm_compute; lia).
  destruct (X9_generateRandomState_is_the_solved_cube (front_turned 3))
    as [Hgen Hsolved].
  split; [exact Hn|]. split; [exact Hgen|exact (Hsolved Hn)].
Defined.

(** ** The solvers *)

Lemma forceCubeToSolvedState_done c : exists c', forceCubeToSolvedState c = Done c'.
Proof. destruct (forceCubeToSolvedState_spec c) as (c' & ? & _). eauto. Qed.

Lemma generateEfficientMoves_length n :
  length (generateEfficientMoves n) = 21 \/
  length (generateEfficientMoves n) = 27 \/
  length (generateEfficientMoves n) = 26.
Proof.
  unfold generateEfficientMoves.
  destruct (Nat.eqb n 2); [|destruct (Nat.eqb n 3)]; simpl; auto.
Qed.

(** X11. [Solver.solve()] does not look at the stickers beyond asking
    [isSolved]: it throws when [isSolved] throws, returns no move when
    the cube is solved, and otherwise returns the first 22 moves of the
    list [generateEfficientMoves] keeps for the size — 21 moves on size
    2, 22 on every other size — so two unsolved cubes of one size get
    the same answer. The fallbacks [layerByLayerSolve] and [basicSolve]
    are never reached. *)
Theorem X11_Solver_solve_depends_on_size_only (c : Cube) :
  (forall e, isSolved c = Throws e -> Solver_solve c = Fails e) /\
  (isSolved c = Return true -> Solver_solve c = Returns []) /\
  (isSolved c = Return false ->
     Solver_solve c = Returns (firstn 22 (generateEfficientMoves (size c))) /\
     length (firstn 22 (generateEfficientMoves (size c))) =
       (if Nat.eqb (size c) 2 then 21 else 22) /\
     forall c2, size c2 = size c -> isSolved c2 = Return false ->
                Solver_solve c2 = Solver_solve c).
Proof.
  assert (Hunsolved : forall c0, isSolved c0 = Return false ->
            Solver_solve c0 = Returns (firstn 22 (generateEfficientMoves (size c0)))).
  { intros c0 Hc0. unfold Solver_solve, kociembaSolve, generateSolutionToSolvedState.
    rewrite !clone_eq, Hc0.
    destruct (forceCubeToSolvedState_done c0) as (c' & ->).
    unfold generateEfficientMoves.
    destruct (Nat.eqb (size c0) 2); [|destruct (Nat.eqb (size c0) 3)]; reflexivity. }
  split; [|split].
  - intros e He. unfold Solver_solve. now rewrite clone_eq, He.
  - intros Ht. unfold Solver_solve. now rewrite clone_eq, Ht.
  - intros Hf. split; [now apply Hunsolved|]. split.
    + unfold generateEfficientMoves.
      destruct (Nat.eqb (size c) 2); [|destruct (Nat.eqb (size c) 3)]; reflexivity.
    + intros c2 Hs Hf2. rewrite (Hunsolved c2 Hf2), (Hunsolved c Hf). now rewrite Hs.
Qed.

Lemma X11_Solver_solve_depends_on_size_only_witness :
  isSolved (front_turned 3) = Return false /\
  Solver_solve (front_turned 3) =
    Returns ["F"; "R"; "U"; "R'"; "U'"; "F'";
             "R"; "U"; "R'"; "U"; "R"; "U2"; "R'";
             "U"; "R"; "U2"; "R'"; "U'"; "R"; "U'"; "R'"; "R"].
Proof.
  assert (Hf : isSolved (front_turned 3) = Return false) by (vm_compute; reflexivity).
  split; [exact Hf|].
  exact (proj1 (proj2 (proj2 (X11_Solver_solve_depends_on_size_only (front_turned 3))) Hf)).
Defined.

Lemma for_each_apply_moves steps c :
  for_each steps apply_moves c = apply_moves (concat steps) c.
Proof.
  revert c. induction steps as [|ms steps IH]; intros c; [reflexivity|].
  simpl. rewrite apply_moves_app. unfold seq_stmt.
  destruct (apply_moves ms c) as [c1|e c1]; [apply IH|reflexivity].
Qed.

Lemma move_front_raises c :
  well_formed c -> size c < 3 ->
  exists c', move "F" c = Raised TypeError c'.
Proof.
  intros Hwf Hsize. pose proof (well_formed_face c Up Hwf) as [HlenU _].
  cbn [get_face] in HlenU.
  change (move "F" c) with ((rotateFaceClockwise Front >>> moveFFaceStickers true) c).
  destruct (rotateFaceClockwise_wf Front c Hwf) as [H1 _].
  rewrite (seq_stmt_done _ _ _ _ H1). unfold moveFFaceStickers.
  cbn [faces set_face U]. rewrite lookup_ge_None_2 by lia. eauto.
Qed.

(** X12. [HumanSolver.solve()] does not look at the stickers either. On
    a well-formed cube of size 3 or more it returns the concatenation of
    its hard-coded steps: 60 moves for the method 'beginner', 43 moves
    for any other method name. On a well-formed cube of size below 3 it
    throws a TypeError, for both methods, because the first move of the
    first step is 'F'. *)
Theorem X12_HumanSolver_solve_is_fixed_or_throws (method : string) (c : Cube) :
  well_formed c ->
  (3 <= size c ->
     HumanSolver_solve method c =
       Returns (concat (if String.eqb method "beginner" then beginner_steps
                        else advanced_steps)) /\
     length (concat (if String.eqb method "beginner" then beginner_steps
                     else advanced_steps)) =
       (if String.eqb method "beginner" then 60 else 43)) /\
  (size c < 3 -> HumanSolver_solve method c = Fails TypeError).
Proof.
  intros Hwf. split.
  - intros Hsize. split; [|destruct (String.eqb method "beginner"); reflexivity].
    unfold HumanSolver_solve. rewrite clone_eq, for_each_apply_moves.
    destruct (apply_moves_completes
                (concat (if String.eqb method "beginner" then beginner_steps
                         else advanced_steps)) c Hwf Hsize) as (w & -> & _).
    destruct (forceCubeToSolvedState_done w) as (w' & ->). reflexivity.
  - intros Hsize. unfold HumanSolver_solve. rewrite clone_eq, for_each_apply_moves.
    destruct (move_front_raises c Hwf Hsize) as (c' & Hc').
    destruct (String.eqb method "beginner"); cbn [concat beginner_steps advanced_steps app];
      cbn [apply_moves]; now rewrite (seq_stmt_raised _ _ _ _ _ Hc').
Qed.

Lemma X12_HumanSolver_solve_is_fixed_or_throws_witness :
  well_formed (new_Cube 2 false) /\ size (new_Cube 2 false) < 3 /\
  HumanSolver_solve "beginner" (new_Cube 2 false) = Fails TypeError.
Proof.
  assert (Hwf : well_formed (new_Cube 2 false))
    by (apply (bool_decide_unpack (well_formed (new_Cube 2 false)));
        vm_compute; exact I).
  assert (Hs : size (new_Cube 2 false) < 3) by (simpl; lia).
  split; [exact Hwf|]. split; [exact Hs|].
  exact (proj2 (X12_HumanSolver_solve_is_fixed_or_throws "beginner"
                  (new_Cube 2 false) Hwf) Hs).
Defined.

(** ** [Cube.scramble] *)

Section CubeScrambleFacts.

Variable Math_random : nat -> nat * nat.
Hypothesis Math_random_unit :
  forall k, fst (Math_random k) < snd (Math_random k).

Lemma draw_moves_spec count : forall k lastAxis,
  exists ms, draw_moves Math_random count k lastAxis = Some ms /\
    length ms = count /\
    Forall (fun m => In m availableMoves) ms /\
    (forall a, head ms = Some a -> charAt0 a <> lastAxis) /\
    letters_differ ms.
Proof.
  induction count as [|count IH]; intros k lastAxis.
  - exists []. simpl. split; [reflexivity|]. split; [reflexivity|].
    split; [constructor|]. split; [discriminate|].
    intros i a b Ha. now rewrite lookup_nil in Ha.
  - cbn [draw_moves].
    set (av := List.filter (fun move => negb (String.eqb (charAt0 move) lastAxis))
                           availableMoves).
    assert (Hlen : 0 < length av).
    { assert (Hin : In "F" av \/ In "B" av).
      { destruct (String.eqb_spec "F" lastAxis) as [<-|Hne].
        - right. apply filter_In. split; [simpl; tauto|reflexivity].
        - left. apply filter_In. split; [simpl; tauto|].
          apply String.eqb_neq in Hne. apply negb_true_iff.
          change (String.eqb "F" lastAxis = false). exact Hne. }
      destruct av; [destruct Hin as [[]|[]]|simpl; lia]. }
    destruct (lookup_lt_is_Some_2 av (random_index Math_random k (length av)))
      as [m Hm]; [now apply random_index_lt|].
    rewrite Hm.
    apply list_elem_of_lookup_2, list_elem_of_In, filter_In in Hm.
    destruct Hm as [Hin Hne]. apply negb_true_iff, String.eqb_neq in Hne.
    destruct (IH (S k) (charAt0 m)) as (rest & -> & Hl & Hall & Hhead & Hdiff).
    exists (m :: rest). split; [reflexivity|]. split; [simpl; lia|].
    split; [now constructor|]. split; [intros a [= <-]; assumption|].
    intros i a b Ha Hb. destruct i as [|i].
    + simpl in Ha, Hb. injection Ha as <-. intros Heq. apply (Hhead b).
      * destruct rest; [discriminate|]. simpl in Hb. now injection Hb as ->.
      * now symmetry.
    + simpl in Ha, Hb. eauto.
Qed.

End CubeScrambleFacts.

(** X13. [Cube.scramble()] draws between 20 and 30 moves among the
    twelve quarter turns, no two consecutive ones on the same face
    (opposite faces may follow each other), and applies them in order;
    the call returns them unless a move throws. On a well-formed cube
    of size 3 or more it always returns, and the cube stays well
    formed. *)
Theorem X13_Cube_scramble (Math_random : nat -> nat * nat) (c : Cube) :
  (forall k, fst (Math_random k) < snd (Math_random k)) ->
  exists ms,
    20 <= length ms <= 30 /\
    Forall (fun m => In m availableMoves) ms /\
    letters_differ ms /\
    scramble Math_random c =
      match apply_moves ms c with
      | Done c' => (Returns ms, c')
      | Raised e c' => (Fails e, c')
      end /\
    (well_formed c -> 3 <= size c ->
       exists c', scramble Math_random c = (Returns ms, c') /\
                  well_formed c' /\ size c' = size c).
Proof.
  intros Hunit. unfold scramble.
  pose proof (random_index_lt Math_random Hunit 0 11 ltac:(lia)) as Hcount.
  destruct (draw_moves_spec Math_random Hunit
              (20 + random_index Math_random 0 11) 1 "")
    as (ms & -> & Hl & Hall & _ & Hdiff).
  exists ms. split; [lia|]. split; [assumption|]. split; [assumption|].
  split; [reflexivity|].
  intros Hwf Hsize.
  destruct (apply_moves_completes ms c Hwf Hsize) as (c' & -> & Hwf' & Hs').
  eauto.
Qed.

Lemma X13_Cube_scramble_witness :
  (forall k, fst (sevenths k) < snd (sevenths k)) /\
  exists ms,
    20 <= length ms <= 30 /\
    letters_differ ms /\
    fst (scramble sevenths (new_Cube 3 false)) = Returns ms.
Proof.
  split; [exact sevenths_unit|].
  destruct (X13_Cube_scramble sevenths (new_Cube 3 false) sevenths_unit)
    as (ms & Hlen & _ & Hdiff & _ & Hret).
  exists ms. split; [exact Hlen|]. split; [exact Hdiff|].
  destruct Hret as (c' & -> & _).
  - apply (bool_decide_unpack (well_formed (new_Cube 3 false))).
    vm_compute. exact I.
  - simpl. lia.
  - reflexivity.
Defined.

(** ** The other methods of the scrambler *)

Lemma generateScramble_spec cubeSize Math_random fuel len :
  (forall k, fst (Math_random k) < snd (Math_random k)) ->
  len <= fuel ->
  exists l, generateScramble cubeSize Math_random fuel len = Some l /\
            length l = len /\
            Forall (fun m => In m (moves cubeSize)) l /\
            neighbours_differ l.
Proof.
  intros Hrand Hfuel.
  assert (H : exists l, generateScramble cubeSize Math_random fuel len = Some l /\
                        length l = len /\
                        Forall (fun m => In m (moves cubeSize)) l /\
                        distinct_neighbours l).
  { unfold generateScramble.
    apply scramble_loop_spec; simpl; auto; try lia.
    - intros i a b Ha. now rewrite lookup_nil in Ha.
    - discriminate. }
  destruct H as (l & Hl & Hlen & Hmoves & Hdn).
  exists l. split; [exact Hl|]. split; [exact Hlen|]. split; [exact Hmoves|].
  now apply (distinct_neighbours_differ cubeSize).
Qed.

(** X14. [generateScrambleByDifficulty] returns exactly 10, 20, 30 and
    50 moves for 'easy', 'medium', 'hard' and 'expert', and 20 moves for
    a name that is neither in the table nor a property of
    [Object.prototype]; for such an inherited name ('constructor',
    'toString', ...) it returns the empty scramble. The moves are
    moves of the size, consecutive ones acting on different faces and
    on different rotation axes (Front/Back, Left/Right, Up/Down). *)
Theorem X14_scramble_by_difficulty (cubeSize : nat)
  (Math_random : nat -> nat * nat) (fuel : nat) (difficulty : string) :
  (forall k, fst (Math_random k) < snd (Math_random k)) ->
  50 <= fuel ->
  exists l,
    generateScrambleByDifficulty cubeSize Math_random fuel difficulty = Some l /\
    Forall (fun m => In m (moves cubeSize)) l /\
    neighbours_differ l /\
    (difficulty = "easy" -> length l = 10) /\
    (difficulty = "medium" -> length l = 20) /\
    (difficulty = "hard" -> length l = 30) /\
    (difficulty = "expert" -> length l = 50) /\
    (lengths difficulty = Absent -> length l = 20) /\
    (In difficulty object_prototype_names -> l = []).
Proof.
  intros Hunit Hfuel. unfold generateScrambleByDifficulty.
  destruct (lengths difficulty) as [n| |] eqn:Hl.
  - assert (Hn : n = 10 /\ difficulty = "easy" \/ n = 20 /\ difficulty = "medium" \/
                 n = 30 /\ difficulty = "hard" \/ n = 50 /\ difficulty = "expert").
    { unfold lengths in Hl.
      destruct (String.eqb_spec difficulty "easy");
        [injection Hl as <-; auto|].
      destruct (String.eqb_spec difficulty "medium");
        [injection Hl as <-; auto|].
      destruct (String.eqb_spec difficulty "hard");
        [injection Hl as <-; auto|].
      destruct (String.eqb_spec difficulty "expert");
        [injection Hl as <-; auto 6|].
      destruct (existsb (String.eqb difficulty) object_prototype_names);
        discriminate. }
    assert (Hnot : ~ In difficulty object_prototype_names).
    { intros Hin. unfold object_prototype_names in Hin. simpl in Hin.
      destruct Hn as [[_ ->]|[[_ ->]|[[_ ->]|[_ ->]]]]; intuition discriminate. }
    destruct (generateScramble_spec cubeSize Math_random fuel
                (if Nat.eqb n 0 then 20 else n) Hunit)
      as (l & -> & Hlen & Hmoves & Hdn).
    { destruct Hn as [[-> _]|[[-> _]|[[-> _]|[-> _]]]]; simpl; lia. }
    exists l. split; [reflexivity|]. split; [assumption|]. split; [assumption|].
    destruct Hn as [[-> ->]|[[-> ->]|[[-> ->]|[-> ->]]]]; simpl in Hlen;
      repeat split; try (intros; assumption); try discriminate;
      intros Hin; now destruct (Hnot Hin).
  - exists []. split; [reflexivity|]. split; [apply Forall_nil_2|]. split.
    { intros i a b Ha. now rewrite lookup_nil in Ha. }
    unfold lengths in Hl.
    repeat split; try (intros ->; discriminate); auto; discriminate.
  - destruct (generateScramble_spec cubeSize Math_random fuel 20 Hunit)
      as (l & -> & Hlen & Hmoves & Hdn); [lia|].
    exists l. split; [reflexivity|]. split; [assumption|]. split; [assumption|].
    unfold lengths in Hl.
    repeat split; try (intros ->; discriminate); auto.
    intros Hin.
    destruct (String.eqb difficulty "easy"); [discriminate|].
    destruct (String.eqb difficulty "medium"); [discriminate|].
    destruct (String.eqb difficulty "hard"); [discriminate|].
    destruct (String.eqb difficulty "expert"); [discriminate|].
    destruct (existsb (String.eqb difficulty) object_prototype_names) eqn:He;
      [discriminate|].
    assert (Ht : existsb (String.eqb difficulty) object_prototype_names = true).
    { apply existsb_exists. exists difficulty. split; [assumption|].
      apply String.eqb_refl. }
    congruence.
Qed.

Lemma X14_scramble_by_difficulty_witness :
  (forall k, fst (sevenths k) < snd (sevenths k)) /\ 50 <= 50 /\
  (exists l, generateScrambleByDifficulty 3 sevenths 50 "expert" = Some l /\
             length l = 50) /\
  (exists l, generateScrambleByDifficulty 3 sevenths 50 "insane" = Some l /\
             length l = 20) /\
  generateScrambleByDifficulty 3 sevenths 50 "toString" = Some [].
Proof.
  assert (Hfuel : 50 <= 50) by lia.
  split; [exact sevenths_unit|]. split; [exact Hfuel|]. split; [|split].
  - destruct (X14_scramble_by_difficulty 3 sevenths 50 "expert" sevenths_unit Hfuel)
      as (l & Hl & _ & _ & _ & _ & _ & He & _). exists l. split; [exact Hl|].
    exact (He eq_refl).
  - destruct (X14_scramble_by_difficulty 3 sevenths 50 "insane" sevenths_unit Hfuel)
      as (l & Hl & _ & _ & _ & _ & _ & _ & Ha & _). exists l. split; [exact Hl|].
    exact (Ha eq_refl).
  - destruct (X14_scramble_by_difficulty 3 sevenths 50 "toString" sevenths_unit Hfuel)
      as (l & Hl & _ & _ & _ & _ & _ & _ & _ & Hi).
    rewrite Hl. f_equal. apply Hi. unfold object_prototype_names. simpl. tauto.
Defined.

(** X15. [generateOptimizedScramble] returns exactly 10 moves for size
    2, 20 for size 3 and 10 times the size for any other size (none for
    size 0), all moves of the size, consecutive ones acting on
    different faces and on different rotation axes (Front/Back,
    Left/Right, Up/Down). *)
Theorem X15_optimized_scramble_length (cubeSize : nat)
  (Math_random : nat -> nat * nat) (fuel : nat) :
  (forall k, fst (Math_random k) < snd (Math_random k)) ->
  10 * cubeSize <= fuel ->
  exists l,
    generateOptimizedScramble cubeSize Math_random fuel = Some l /\
    length l = (if Nat.eqb cubeSize 2 then 10
                else if Nat.eqb cubeSize 3 then 20 else cubeSize * 10) /\
    Forall (fun m => In m (moves cubeSize)) l /\
    neighbours_differ l.
Proof.
  intros Hunit Hfuel. unfold generateOptimizedScramble.
  apply generateScramble_spec; [assumption|].
  destruct (Nat.eqb_spec cubeSize 2); [lia|].
  destruct (Nat.eqb_spec cubeSize 3); lia.
Qed.

Lemma X15_optimized_scramble_length_witness :
  (forall k, fst (sevenths k) < snd (sevenths k)) /\ 10 * 4 <= 40 /\
  exists l, generateOptimizedScramble 4 sevenths 40 = Some l /\ length l = 40.
Proof.
  assert (Hfuel : 10 * 4 <= 40) by lia.
  split; [exact sevenths_unit|]. split; [exact Hfuel|].
  destruct (X15_optimized_scramble_length 4 sevenths 40 sevenths_unit Hfuel)
    as (l & Hl & Hlen & _). exists l. split; [exact Hl|exact Hlen].
Defined.

(** X16. [applyScramble] runs only the moves [Cube.move] knows: every
    other name is skipped without error, so a scramble acts like the
    list of its upper-case quarter turns. In particular the twelve
    lower-case slice moves the scrambler adds for sizes 4 and more do
    nothing, in any number, on any cube. *)
Theorem X16_applyScramble_skips_unknown_moves (scramble : list string) (cube : Cube) :
  applyScramble cube scramble = applyScramble cube (List.filter acts scramble) /\
  (Forall (fun m => In m ["f"; "f'"; "r"; "r'"; "u"; "u'";
                          "b"; "b'"; "l"; "l'"; "d"; "d'"]) scramble ->
   applyScramble cube scramble = Done cube).
Proof.
  unfold applyScramble. split.
  - revert cube. induction scramble as [|m ms IH]; intros cube; [reflexivity|].
    cbn [List.filter apply_moves]. destruct (acts m) eqn:Hm.
    + cbn [apply_moves]. unfold seq_stmt.
      destruct (move m cube); [apply IH|reflexivity].
    + rewrite (seq_stmt_done _ _ _ _ (move_unmatched m cube Hm)). apply IH.
  - revert cube. induction scramble as [|m ms IH]; intros cube Hall; [reflexivity|].
    apply Forall_cons in Hall. destruct Hall as [Hm Hall].
    cbn [apply_moves]. rewrite (seq_stmt_done _ _ _ cube); [now apply IH|].
    apply move_unmatched. simpl in Hm.
    repeat (destruct Hm as [<-|Hm]; [reflexivity|]). destruct Hm.
Qed.

(** ** The sample of the JSON import, and what an import yields *)

Lemma fold_left_snoc_map {A B} (f : A -> B) l acc :
  fold_left (fun acc x => (acc ++ [f x])%list) l acc = (acc ++ map f l)%list.
Proof.
  revert acc. induction l as [|x l IH]; intros acc; simpl.
  - now rewrite app_nil_r.
  - rewrite IH. now rewrite <- app_assoc.
Qed.

Lemma sample_row_colours n k row : colour_row n (JArr (sample_row n k row)).
Proof.
  unfold colour_row, sample_row. eexists. split; [reflexivity|].
  rewrite fold_left_snoc_map, app_nil_l. split; [now rewrite length_map, length_seq|].
  apply Forall_map. apply Forall_forall. intros col _. cbv beta.
  change (length colors) with 6.
  assert (Hlt : (k + row + col) mod 6 < 6) by (apply Nat.mod_upper_bound; lia).
  destruct (lookup_lt_is_Some_2 colors ((k + row + col) mod 6)) as [s Hs];
    [exact Hlt|].
  rewrite Hs. exists s. split; [reflexivity|].
  apply list_elem_of_lookup_2, list_elem_of_In in Hs. exact Hs.
Qed.

Lemma sample_face_colours n k : colour_face n (Some (sample_face n k)).
Proof.
  unfold colour_face, sample_face. eexists. split; [reflexivity|].
  rewrite fold_left_snoc_map, app_nil_l. split; [now rewrite length_map, length_seq|].
  apply Forall_map. apply Forall_forall. intros row _. apply sample_row_colours.
Qed.

(** X17. The sample that "load sample" puts in the text box is always
    importable: for every cube size, the object [generateSampleJson]
    serialises passes [validateCubeData] for that size, so
    [handleImport] hands it to [onImport] whenever the text parses back
    to it. *)
Theorem X17_sample_json_is_accepted
  (JSON_parse : string -> option json) (onImport_returns : json -> bool)
  (cubeSize : nat) (jsonInput : string) :
  JSON_parse jsonInput = Some (sampleCube cubeSize) ->
  validateCubeData cubeSize (sampleCube cubeSize) = Returns true /\
  exists rest,
    handleImport JSON_parse onImport_returns cubeSize jsonInput =
    SetError "" :: OnImport (sampleCube cubeSize) :: rest.
Proof.
  intros Hparse.
  assert (Hvalid : validateCubeData cubeSize (sampleCube cubeSize) = Returns true).
  { apply validateCubeData_spec. unfold valid_configuration, sampleCube.
    do 2 eexists. split; [reflexivity|]. split; [reflexivity|].
    unfold requiredFaces.
    repeat (apply Forall_cons; split; [apply sample_face_colours|]).
    apply Forall_nil_2. }
  split; [exact Hvalid|].
  unfold handleImport. rewrite Hparse, Hvalid.
  destruct (onImport_returns (sampleCube cubeSize)); eauto.
Qed.

Lemma X17_sample_json_is_accepted_witness :
  (fun _ : string => Some (sampleCube 4)) "sample" = Some (sampleCube 4) /\
  validateCubeData 4 (sampleCube 4) = Returns true.
Proof.
  assert (H : (fun _ : string => Some (sampleCube 4)) "sample" = Some (sampleCube 4))
    by reflexivity.
  split; [exact H|].
  exact (proj1 (X17_sample_json_is_accepted
                  (fun _ => Some (sampleCube 4)) (fun _ => true) 4 "sample" H)).
Defined.

Lemma sticker_of_colour_cell cells n :
  length cells = n -> Forall colour_cell cells ->
  exists row, mapM sticker_of_json cells = Some row /\ length row = n /\
              Forall (fun v => exists col, In col validColors /\ v = Str col) row.
Proof.
  intros <- Hall. induction Hall as [|c cells (s & -> & Hs) _ (row & Hrow & Hlen & Hcols)].
  - exists []. split; [reflexivity|]. split; [reflexivity|constructor].
  - exists (Str s :: row). cbn. rewrite Hrow. simpl.
    split; [reflexivity|]. split; [simpl; lia|].
    constructor; [exists s; auto|assumption].
Qed.

Lemma grid_of_colour_face n face :
  colour_face n face ->
  exists g, face ≫= grid_of_json = Some g /\ square n g /\
            forall i j, i < n -> j < n ->
              exists col, In col validColors /\ cell g i j = Some (Str col).
Proof.
  intros (rows & -> & Hlen & Hrows). simpl.
  assert (Hg : exists g, mapM row_of_json rows = Some g /\ length g = length rows /\
                 Forall (fun row => length row = n /\
                           Forall (fun v => exists col, In col validColors /\ v = Str col)
                                  row) g).
  { clear Hlen. induction Hrows as [|r rows (cells & -> & Hl & Hc) _ (g & Hg & Hlen & Hall)].
    - exists []. split; [reflexivity|]. split; [reflexivity|constructor].
    - destruct (sticker_of_colour_cell cells n Hl Hc) as (row & Hrow & Hlr & Hcols).
      exists (row :: g). cbn. rewrite Hrow. simpl. rewrite Hg. simpl.
      split; [reflexivity|]. split; [lia|]. constructor; auto. }
  destruct Hg as (g & Hg & Hlg & Hall). exists g. split; [exact Hg|]. split.
  - split; [lia|]. eapply Forall_impl; [exact Hall|]. now intros row [? _].
  - intros i j Hi Hj.
    destruct (lookup_lt_is_Some_2 g i) as [row Hrow]; [lia|].
    destruct (Forall_lookup_1 _ _ _ _ Hall Hrow) as [Hlr Hcols].
    destruct (lookup_lt_is_Some_2 row j) as [v Hv]; [lia|].
    destruct (Forall_lookup_1 _ _ _ _ Hcols Hv) as (col & Hcol & ->).
    exists col. split; [assumption|]. unfold cell, at_index. rewrite Hrow. simpl.
    now rewrite Hv.
Qed.

Lemma json_face_grid n col :
  grid_of_json (json_face n col) = Some (filled_matrix n col).
Proof.
  unfold json_face, filled_matrix. simpl.
  assert (Hrow : mapM sticker_of_json (replicate n (JStr col)) =
                 Some (replicate n (Str col))).
  { apply mapM_Some_2. apply Forall2_replicate. reflexivity. }
  apply mapM_Some_2. apply Forall2_replicate. exact Hrow.
Qed.

Lemma colour_face_json_face n col :
  In col validColors -> colour_face n (Some (json_face n col)).
Proof.
  intros Hcol. unfold colour_face, json_face. eexists. split; [reflexivity|].
  split; [apply length_replicate|]. apply Forall_replicate.
  unfold colour_row. eexists. split; [reflexivity|].
  split; [apply length_replicate|]. apply Forall_replicate.
  unfold colour_cell. eexists. split; [reflexivity|assumption].
Qed.

Lemma as_Cube_six n u d l r f b :
  as_Cube (mkImportedCube n (Some (JObj [("U", u); ("D", d); ("L", l);
                                         ("R", r); ("F", f); ("B", b)]))) =
  (u' ← grid_of_json u; d' ← grid_of_json d; l' ← grid_of_json l;
   r' ← grid_of_json r; f' ← grid_of_json f; b' ← grid_of_json b;
   Some (mkCube n (mkFaces u' d' l' r' f' b'))).
Proof.
  unfold as_Cube. cbn [imported_faces imported_size].
  now rewrite decide_True by reflexivity.
Qed.

(** X18. The import keeps the [faces] object of the data as it is. For
    a configuration that passed the validation, each of the six
    required faces of the imported object is a size x size grid of
    colour codes, and when the object has exactly the six properties U,
    D, L, R, F, B in this order it is a well-formed cube of the
    session's size. Nothing more is checked: for every size of 1 or
    more the all-white configuration is valid and the cube it yields,
    the blank cube, is not balanced; and a valid configuration with a
    seventh property in [faces] is imported with that property, so the
    imported object is none of the engine's cubes. *)
Theorem X18_import_keeps_the_faces_object (n : nat) (cubeData : json) :
  (valid_configuration n cubeData ->
   exists fprops,
     get_prop cubeData "faces" = Returns (Some (JObj fprops)) /\
     handleJsonImport n cubeData =
       Some (mkImportedCube n (Some (JObj fprops))) /\
     (forall face, In face requiredFaces ->
        exists g, prop_lookup face fprops ≫= grid_of_json = Some g /\
          square n g /\
          forall i j, i < n -> j < n ->
            exists col, In col validColors /\ cell g i j = Some (Str col)) /\
     (map fst fprops = requiredFaces ->
        exists c, as_Cube (mkImportedCube n (Some (JObj fprops))) = Some c /\
          size c = n /\ well_formed c /\
          forall face i j, i < n -> j < n ->
            exists col, In col validColors /\
                        cell (get_face face c) i j = Some (Str col))) /\
  (0 < n ->
   valid_configuration n (one_colour_json n "W") /\
   handleJsonImport n (one_colour_json n "W") ≫= as_Cube =
     Some (new_Cube n true) /\
   ~ balanced (new_Cube n true)) /\
  (valid_configuration n (with_extra_face n) /\
   exists fprops,
     handleJsonImport n (with_extra_face n) =
       Some (mkImportedCube n (Some (JObj fprops))) /\
     prop_lookup "X" fprops = Some (JNum "5") /\
     as_Cube (mkImportedCube n (Some (JObj fprops))) = None).
Proof.
  split; [|split].
  - intros (props & fprops & -> & Hfaces & Hall). exists fprops.
    split; [simpl; now rewrite Hfaces|].
    split; [unfold handleJsonImport; simpl; now rewrite Hfaces|].
    assert (Hgrid : forall face, In face requiredFaces ->
              exists g, prop_lookup face fprops ≫= grid_of_json = Some g /\
                square n g /\
                forall i j, i < n -> j < n ->
                  exists col, In col validColors /\ cell g i j = Some (Str col)).
    { intros face Hin. apply grid_of_colour_face.
      rewrite List.Forall_forall in Hall. now apply Hall. }
    split; [exact Hgrid|].
    intros Hkeys.
    destruct fprops as [|[ku u] [|[kd d] [|[kl l] [|[kr r] [|[kf f] [|[kb b] [|? ?]]]]]]];
      try discriminate Hkeys.
    cbn [map fst] in Hkeys. unfold requiredFaces in Hkeys.
    injection Hkeys as -> -> -> -> -> ->. rewrite as_Cube_six.
    destruct (Hgrid "U") as (gu & Hu & Hsu & Hcu); [simpl; tauto|].
    destruct (Hgrid "D") as (gd & Hd & Hsd & Hcd); [simpl; tauto|].
    destruct (Hgrid "L") as (gl & Hl & Hsl & Hcl); [simpl; tauto|].
    destruct (Hgrid "R") as (gr & Hr & Hsr & Hcr); [simpl; tauto|].
    destruct (Hgrid "F") as (gf & Hf & Hsf & Hcf); [simpl; tauto|].
    destruct (Hgrid "B") as (gb & Hb & Hsb & Hcb); [simpl; tauto|].
    simpl in Hu, Hd, Hl, Hr, Hf, Hb.
    rewrite Hu, Hd, Hl, Hr, Hf, Hb. simpl.
    eexists. split; [reflexivity|]. split; [reflexivity|]. split.
    + unfold well_formed, face_keys. simpl.
      repeat (apply Forall_cons; split; [assumption|]). apply Forall_nil_2.
    + intros face i j Hi Hj. destruct face; simpl; auto.
  - intros Hn.
    assert (HW : colour_face n (Some (json_face n "W")))
      by (apply colour_face_json_face; simpl; tauto).
    split; [|split].
    + unfold valid_configuration, one_colour_json. do 2 eexists.
      split; [reflexivity|]. split; [reflexivity|]. unfold requiredFaces.
      repeat (apply Forall_cons; split; [exact HW|]). apply Forall_nil_2.
    + assert (Himp : handleJsonImport n (one_colour_json n "W") =
                Some (mkImportedCube n
                        (Some (JObj [("U", json_face n "W"); ("D", json_face n "W");
                                     ("L", json_face n "W"); ("R", json_face n "W");
                                     ("F", json_face n "W"); ("B", json_face n "W")]))))
        by reflexivity.
      rewrite Himp. cbn [mbind option_bind].
      rewrite as_Cube_six, !json_face_grid. reflexivity.
    + unfold balanced, colors. intros Hb.
      apply Forall_cons in Hb. destruct Hb as [_ Hb].
      apply Forall_cons in Hb. destruct Hb as [HY _].
      assert (H0 : count_color "Y" (new_Cube n true) = 0).
      { unfold count_color. cbn [foldr face_keys]. rewrite !get_face_blank.
        assert (Hg : count_in_grid "Y" (filled_matrix n "W") = 0).
        { unfold count_in_grid, filled_matrix.
          assert (Hrow : forall k, length (filter (fun v => v = Str "Y")
                                             (replicate k (Str "W"))) = 0).
          { intros k. induction k as [|k IHk]; [reflexivity|]. simpl.
            now rewrite filter_cons_False by discriminate. }
          generalize n at 1 as m. intros m.
          induction m as [|m IHm]; [reflexivity|]. simpl.
          now rewrite filter_app, length_app, Hrow, IHm. }
        rewrite Hg. reflexivity. }
      rewrite H0 in HY. cbn [size new_Cube] in HY. nia.
  - assert (HW : colour_face n (Some (json_face n "W")))
      by (apply colour_face_json_face; simpl; tauto).
    split.
    + unfold valid_configuration, with_extra_face. do 2 eexists.
      split; [reflexivity|]. split; [reflexivity|]. unfold requiredFaces.
      repeat (apply Forall_cons; split; [exact HW|]). apply Forall_nil_2.
    + eexists. split; [reflexivity|]. split; reflexivity.
Qed.

Lemma X18_import_keeps_the_faces_object_witness :
  valid_configuration 2 sample_cube_2 /\ 0 < 2 /\
  handleJsonImport 2 sample_cube_2 ≫= as_Cube = Some (new_Cube 2 false) /\
  ~ balanced (new_Cube 2 true).
Proof.
  assert (Hv : valid_configuration 2 sample_cube_2)
    by (apply validateCubeData_spec; reflexivity).
  assert (Hn : 0 < 2) by lia.
  destruct (X18_import_keeps_the_faces_object 2 sample_cube_2)
    as (Himp & Hwhite & _).
  split; [exact Hv|]. split; [exact Hn|]. split.
  - destruct (Himp Hv) as (fprops & _ & Hc & _). reflexivity.
  - exact (proj2 (proj2 (Hwhite Hn))).
Defined.

(** ** The Front moves on a cube of any size *)

Lemma assign_as_put dst r c src r' c' cu0 cu :
  get_face src cu0 = get_face src cu -> r' < length (get_face src cu) ->
  assign dst r c src r' c' cu0 = put dst r c (sticker (get_face src cu) r' c') cu0.
Proof.
  intros Hsrc Hr. unfold assign. rewrite Hsrc. now rewrite cell_in_range.
Qed.

(** A loop of [n] writes into distinct cells of one face. *)
Lemma write_loop dst n (dr dc : nat -> nat) (v : nat -> value)
  (body : nat -> Cube -> res Cube) cu :
  well_formed cu -> size cu = n ->
  (forall i, i < n -> dr i < n /\ dc i < n) ->
  (forall i j, i < n -> j < n -> dr i = dr j -> dc i = dc j -> i = j) ->
  (forall i cu0, i < n ->
     (forall f, f <> dst -> get_face f cu0 = get_face f cu) ->
     body i cu0 = put dst (dr i) (dc i) (v i) cu0) ->
  exists cu', for_upto n body cu = Done cu' /\ well_formed cu' /\ size cu' = n /\
    (forall f, f <> dst -> get_face f cu' = get_face f cu) /\
    strip_written n (get_face dst cu) (get_face dst cu') dr dc v.
Proof.
  intros Hwf Hsize Hrange Hinj Hbody. unfold for_upto.
  destruct (for_range_inv
              (fun k cu0 =>
                 well_formed cu0 /\ size cu0 = n /\
                 (forall f, f <> dst -> get_face f cu0 = get_face f cu) /\
                 (forall i, i < k -> cell (get_face dst cu0) (dr i) (dc i) = Some (v i)) /\
                 (forall r c, (forall i, i < k -> ~ (r = dr i /\ c = dc i)) ->
                    cell (get_face dst cu0) r c = cell (get_face dst cu) r c))
              body n 0 cu)
    as (cu' & Hcu' & Hwf' & Hs' & Hother' & Hnew & Hold).
  - split; [assumption|]. split; [assumption|]. split; [auto|].
    split; [intros i Hi; lia|auto].
  - intros k cu0 Hk (Hwf0 & Hs0 & Hother0 & Hnew0 & Hold0).
    rewrite (Hbody k cu0) by (auto; lia).
    destruct (Hrange k ltac:(lia)) as [Hr Hc].
    destruct (put_wf dst (dr k) (dc k) (v k) cu0 Hwf0) as (cu1 & Hput & Hwf1 & Hs1);
      [lia|lia|].
    destruct (put_any dst (dr k) (dc k) (v k) cu0)
      as (cu2 & Hput2 & _ & Hother2 & _ & Hcells2).
    { destruct (well_formed_face cu0 dst Hwf0) as [-> _]. lia. }
    rewrite Hput in Hput2. injection Hput2 as <-.
    exists cu1. split; [assumption|]. split; [assumption|]. split; [lia|].
    split; [|split].
    + intros f Hf. rewrite Hother2 by assumption. auto.
    + intros i Hi. rewrite Hcells2.
      destruct (decide (dr i = dr k /\ dc i = dc k)) as [[Hr' Hc']|Hne].
      * f_equal. f_equal. symmetry. apply Hinj; auto; lia.
      * apply Hnew0.
        destruct (decide (i = k)) as [->|]; [tauto|lia].
    + intros r c Hrc. rewrite Hcells2.
      rewrite decide_False by (apply Hrc; lia).
      apply Hold0. intros i Hi. apply Hrc. lia.
  - exists cu'. split; [assumption|]. split; [assumption|]. split; [assumption|].
    split; [assumption|]. split; [|split].
    + rewrite <- Hs'. now apply well_formed_face.
    + intros i Hi. unfold sticker. now rewrite Hnew by lia.
    + intros r c Hrc. unfold sticker. rewrite Hold; [reflexivity|].
      intros i Hi. apply Hrc. lia.
Qed.

(** The four loops of [moveFFaceStickers], written with the index maps
    of the strips. *)
Lemma four_strips cu n
  (d1 d2 d3 d4 : FaceId)
  (r1 c1 r2 c2 r3 c3 r4 c4 : nat -> nat) (v1 v2 v3 v4 : nat -> value)
  (b1 b2 b3 b4 : nat -> Cube -> res Cube) :
  well_formed cu -> size cu = n ->
  NoDup [d1; d2; d3; d4] ->
  (forall i, i < n -> (r1 i < n /\ c1 i < n) /\ (r2 i < n /\ c2 i < n) /\
                      (r3 i < n /\ c3 i < n) /\ (r4 i < n /\ c4 i < n)) ->
  (forall i j, i < n -> j < n ->
     (r1 i = r1 j -> c1 i = c1 j -> i = j) /\ (r2 i = r2 j -> c2 i = c2 j -> i = j) /\
     (r3 i = r3 j -> c3 i = c3 j -> i = j) /\ (r4 i = r4 j -> c4 i = c4 j -> i = j)) ->
  (forall i cu0, i < n -> get_face d2 cu0 = get_face d2 cu ->
     b1 i cu0 = put d1 (r1 i) (c1 i) (v1 i) cu0) ->
  (forall i cu0, i < n -> get_face d3 cu0 = get_face d3 cu ->
     b2 i cu0 = put d2 (r2 i) (c2 i) (v2 i) cu0) ->
  (forall i cu0, i < n -> get_face d4 cu0 = get_face d4 cu ->
     b3 i cu0 = put d3 (r3 i) (c3 i) (v3 i) cu0) ->
  (forall i cu0, i < n -> b4 i cu0 = put d4 (r4 i) (c4 i) (v4 i) cu0) ->
  exists cu',
    (for_upto n b1 >>> for_upto n b2 >>> for_upto n b3 >>> for_upto n b4) cu = Done cu' /\
    well_formed cu' /\ size cu' = n /\
    (forall f, ~ In f [d1; d2; d3; d4] -> get_face f cu' = get_face f cu) /\
    strip_written n (get_face d1 cu) (get_face d1 cu') r1 c1 v1 /\
    strip_written n (get_face d2 cu) (get_face d2 cu') r2 c2 v2 /\
    strip_written n (get_face d3 cu) (get_face d3 cu') r3 c3 v3 /\
    strip_written n (get_face d4 cu) (get_face d4 cu') r4 c4 v4.
Proof.
  intros Hwf Hsize Hnd Hrange Hinj Hb1 Hb2 Hb3 Hb4.
  assert (Hne : d1 <> d2 /\ d1 <> d3 /\ d1 <> d4 /\ d2 <> d3 /\ d2 <> d4 /\ d3 <> d4).
  { apply NoDup_cons in Hnd. destruct Hnd as [H1 Hnd].
    apply NoDup_cons in Hnd. destruct Hnd as [H2 Hnd].
    apply NoDup_cons in Hnd. destruct Hnd as [H3 _].
    rewrite !list_elem_of_In in *. simpl in *. intuition congruence. }
  destruct Hne as (H12 & H13 & H14 & H23 & H24 & H34).
  destruct (write_loop d1 n r1 c1 v1 b1 cu Hwf Hsize)
    as (cu1 & Hcu1 & Hwf1 & Hs1 & Ho1 & Hw1).
  { intros i Hi. apply (Hrange i Hi). }
  { intros i j Hi Hj. apply (Hinj i j Hi Hj). }
  { intros i cu0 Hi Ho. apply Hb1; [assumption|]. apply Ho. congruence. }
  destruct (write_loop d2 n r2 c2 v2 b2 cu1 Hwf1 Hs1)
    as (cu2 & Hcu2 & Hwf2 & Hs2 & Ho2 & Hw2).
  { intros i Hi. apply (Hrange i Hi). }
  { intros i j Hi Hj. apply (Hinj i j Hi Hj). }
  { intros i cu0 Hi Ho. apply Hb2; [assumption|].
    rewrite Ho by congruence. apply Ho1. congruence. }
  destruct (write_loop d3 n r3 c3 v3 b3 cu2 Hwf2 Hs2)
    as (cu3 & Hcu3 & Hwf3 & Hs3 & Ho3 & Hw3).
  { intros i Hi. apply (Hrange i Hi). }
  { intros i j Hi Hj. apply (Hinj i j Hi Hj). }
  { intros i cu0 Hi Ho. apply Hb3; [assumption|].
    rewrite Ho, Ho2, Ho1 by congruence. reflexivity. }
  destruct (write_loop d4 n r4 c4 v4 b4 cu3 Hwf3 Hs3)
    as (cu4 & Hcu4 & Hwf4 & Hs4 & Ho4 & Hw4).
  { intros i Hi. apply (Hrange i Hi). }
  { intros i j Hi Hj. apply (Hinj i j Hi Hj). }
  { intros i cu0 Hi Ho. now apply Hb4. }
  exists cu4. split.
  { rewrite (seq_stmt_done _ _ _ _ Hcu1), (seq_stmt_done _ _ _ _ Hcu2),
      (seq_stmt_done _ _ _ _ Hcu3). exact Hcu4. }
  split; [assumption|]. split; [assumption|]. split.
  { intros f Hf. simpl in Hf.
    rewrite Ho4, Ho3, Ho2, Ho1 by (intros ->; tauto). reflexivity. }
  split; [|split; [|split]].
  - rewrite Ho4, Ho3, Ho2 by congruence. exact Hw1.
  - rewrite Ho4, Ho3 by congruence. rewrite <- (Ho1 d2) by congruence. exact Hw2.
  - rewrite Ho4 by congruence.
    rewrite <- (Ho1 d3), <- (Ho2 d3) by congruence. exact Hw3.
  - rewrite <- (Ho1 d4), <- (Ho2 d4), <- (Ho3 d4) by congruence. exact Hw4.
Qed.

(** X19. The effect of [move('F')] on a well-formed cube of size n, 3 or
    more. The call returns; the Front grid is rotated clockwise and the
    Back grid is untouched; the bottom row of Up receives the right
    column of Left reversed, the right column of Left the top row of
    Down, the top row of Down the left column of Right reversed, and the
    left column of Right receives row 2 of Up — the bottom row only when
    n is 3 — while every other sticker of the four faces stays. *)
Theorem X19_front_turn_effect (c : Cube) :
  well_formed c -> 3 <= size c ->
  exists c', move "F" c = Done c' /\ well_formed c' /\ size c' = size c /\
    get_face Front c' = rot_cw (size c) (get_face Front c) /\
    get_face Back c' = get_face Back c /\
    strip_written (size c) (get_face Up c) (get_face Up c')
      (fun _ => size c - 1) (fun i => i)
      (fun i => sticker (get_face Left c) (size c - 1 - i) (size c - 1)) /\
    strip_written (size c) (get_face Left c) (get_face Left c')
      (fun i => i) (fun _ => size c - 1)
      (fun i => sticker (get_face Down c) 0 i) /\
    strip_written (size c) (get_face Down c) (get_face Down c')
      (fun _ => 0) (fun i => i)
      (fun i => sticker (get_face Right c) (size c - 1 - i) 0) /\
    strip_written (size c) (get_face Right c) (get_face Right c')
      (fun i => i) (fun _ => 0)
      (fun i => sticker (get_face Up c) 2 i).
Proof.
  intros Hwf Hsize. set (n := size c) in *.
  destruct (rotateFaceClockwise_wf Front c Hwf) as [Hrot Hwf1].
  fold n in Hrot, Hwf1.
  set (c1 := set_face Front (rot_cw n (get_face Front c)) c) in *.
  assert (Hlen : forall f, length (get_face f c1) = n).
  { intros f. now destruct (well_formed_face c1 f Hwf1) as [-> _]. }
  destruct (lookup_lt_is_Some_2 (U (faces c1)) 2) as [temp Htemp].
  { specialize (Hlen Up). cbn [get_face] in Hlen. lia. }
  destruct (four_strips c1 n Up Left Down Right
              (fun _ => n - 1) (fun i => i) (fun i => i) (fun _ => n - 1)
              (fun _ => 0) (fun i => i) (fun i => i) (fun _ => 0)
              (fun i => sticker (get_face Left c1) (n - 1 - i) (n - 1))
              (fun i => sticker (get_face Down c1) 0 i)
              (fun i => sticker (get_face Right c1) (n - 1 - i) 0)
              (fun i => at_index temp i)
              (fun i => assign Up (n - 1) i Left (n - 1 - i) (n - 1))
              (fun i => assign Left i (n - 1) Down 0 i)
              (fun i => assign Down 0 i Right (n - 1 - i) 0)
              (fun i => put Right i 0 (at_index temp i))
              Hwf1 eq_refl)
    as (c' & Hc' & Hwf' & Hs' & Hother & HU & HL & HD & HR).
  - repeat (apply NoDup_cons; split;
            [rewrite list_elem_of_In; simpl; intuition discriminate|]).
    apply NoDup_nil_2.
  - intros i Hi. lia.
  - intros i j Hi Hj. lia.
  - intros i cu0 Hi Hsrc. apply assign_as_put; [assumption|rewrite Hlen; lia].
  - intros i cu0 Hi Hsrc. apply assign_as_put; [assumption|rewrite Hlen; lia].
  - intros i cu0 Hi Hsrc. apply assign_as_put; [assumption|rewrite Hlen; lia].
  - reflexivity.
  - exists c'. split.
    { change (move "F" c)
        with ((rotateFaceClockwise Front >>> moveFFaceStickers true) c).
      rewrite (seq_stmt_done _ _ _ _ Hrot). unfold moveFFaceStickers.
      rewrite Htemp. exact Hc'. }
    split; [assumption|]. split; [assumption|].
    split; [rewrite Hother by (simpl; intuition discriminate);
            apply get_set_face_eq|].
    split; [rewrite Hother by (simpl; intuition discriminate); reflexivity|].
    split; [exact HU|]. split; [exact HL|]. split; [exact HD|].
    destruct HR as (Hsq & Hnew & Hold). split; [assumption|]. split; [|assumption].
    intros i Hi. rewrite (Hnew i Hi). unfold sticker, cell.
    change (get_face Up c !! 2) with (U (faces c1) !! 2). now rewrite Htemp.
Qed.

Lemma X19_front_turn_effect_witness :
  well_formed (new_Cube 4 false) /\ 3 <= size (new_Cube 4 false) /\
  exists c', move "F" (new_Cube 4 false) = Done c' /\
    sticker (get_face Right c') 0 0 = sticker (get_face Up (new_Cube 4 false)) 2 0.
Proof.
  assert (Hwf : well_formed (new_Cube 4 false))
    by (apply (bool_decide_unpack (well_formed (new_Cube 4 false)));
        vm_compute; exact I).
  assert (Hs : 3 <= size (new_Cube 4 false)) by (simpl; lia).
  split; [exact Hwf|]. split; [exact Hs|].
  destruct (X19_front_turn_effect (new_Cube 4 false) Hwf Hs)
    as (c' & Hc' & _ & _ & _ & _ & _ & _ & _ & (_ & HR & _)).
  exists c'. split; [exact Hc'|]. apply (HR 0). simpl. lia.
Defined.

(** X20. The effect of [move("F'")] on a well-formed cube of size n, 1
    or more. The call returns; the Front grid is rotated
    counter-clockwise and the Back grid is untouched; the bottom row of
    Up receives the left column of Right, the left column of Right the
    top row of Down reversed, the top row of Down the right column of
    Left, and the right column of Left the bottom row of Up reversed,
    while every other sticker of the four faces stays. *)
Theorem X20_front_prime_turn_effect (c : Cube) :
  well_formed c -> 1 <= size c ->
  exists c', move "F'" c = Done c' /\ well_formed c' /\ size c' = size c /\
    get_face Front c' = rot_ccw (size c) (get_face Front c) /\
    get_face Back c' = get_face Back c /\
    strip_written (size c) (get_face Up c) (get_face Up c')
      (fun _ => size c - 1) (fun i => i)
      (fun i => sticker (get_face Right c) i 0) /\
    strip_written (size c) (get_face Right c) (get_face Right c')
      (fun i => i) (fun _ => 0)
      (fun i => sticker (get_face Down c) 0 (size c - 1 - i)) /\
    strip_written (size c) (get_face Down c) (get_face Down c')
      (fun _ => 0) (fun i => i)
      (fun i => sticker (get_face Left c) i (size c - 1)) /\
    strip_written (size c) (get_face Left c) (get_face Left c')
      (fun i => size c - 1 - i) (fun _ => size c - 1)
      (fun i => sticker (get_face Up c) (size c - 1) i).
Proof.
  intros Hwf Hsize. set (n := size c) in *.
  destruct (rotateFaceCounterClockwise_wf Front c Hwf) as [Hrot Hwf1].
  fold n in Hrot, Hwf1.
  set (c1 := set_face Front (rot_ccw n (get_face Front c)) c) in *.
  assert (Hlen : forall f, length (get_face f c1) = n).
  { intros f. now destruct (well_formed_face c1 f Hwf1) as [-> _]. }
  destruct (lookup_lt_is_Some_2 (U (faces c1)) (n - 1)) as [temp Htemp].
  { specialize (Hlen Up). cbn [get_face] in Hlen. lia. }
  destruct (four_strips c1 n Up Right Down Left
              (fun _ => n - 1) (fun i => i) (fun i => i) (fun _ => 0)
              (fun _ => 0) (fun i => i) (fun i => n - 1 - i) (fun _ => n - 1)
              (fun i => sticker (get_face Right c1) i 0)
              (fun i => sticker (get_face Down c1) 0 (n - 1 - i))
              (fun i => sticker (get_face Left c1) i (n - 1))
              (fun i => at_index temp i)
              (fun i => assign Up (n - 1) i Right i 0)
              (fun i => assign Right i 0 Down 0 (n - 1 - i))
              (fun i => assign Down 0 i Left i (n - 1))
              (fun i => put Left (n - 1 - i) (n - 1) (at_index temp i))
              Hwf1 eq_refl)
    as (c' & Hc' & Hwf' & Hs' & Hother & HU & HR & HD & HL).
  - repeat (apply NoDup_cons; split;
            [rewrite list_elem_of_In; simpl; intuition discriminate|]).
    apply NoDup_nil_2.
  - intros i Hi. lia.
  - intros i j Hi Hj. lia.
  - intros i cu0 Hi Hsrc. apply assign_as_put; [assumption|rewrite Hlen; lia].
  - intros i cu0 Hi Hsrc. apply assign_as_put; [assumption|rewrite Hlen; lia].
  - intros i cu0 Hi Hsrc. apply assign_as_put; [assumption|rewrite Hlen; lia].
  - reflexivity.
  - exists c'. split.
    { change (move "F'" c)
        with ((rotateFaceCounterClockwise Front >>> moveFFaceStickers false) c).
      rewrite (seq_stmt_done _ _ _ _ Hrot). unfold moveFFaceStickers, last_row.
      change (size c1) with n. destruct n as [|k] eqn:Hn; [lia|].
      replace (S k - 1) with k in Htemp by lia. rewrite Htemp. exact Hc'. }
    split; [assumption|]. split; [assumption|].
    split; [rewrite Hother by (simpl; intuition discriminate);
            apply get_set_face_eq|].
    split; [rewrite Hother by (simpl; intuition discriminate); reflexivity|].
    split; [exact HU|]. split; [exact HR|]. split; [exact HD|].
    destruct HL as (Hsq & Hnew & Hold). split; [assumption|]. split; [|assumption].
    intros i Hi. rewrite (Hnew i Hi). unfold sticker, cell.
    change (get_face Up c !! (n - 1)) with (U (faces c1) !! (n - 1)).
    now rewrite Htemp.
Qed.

Lemma X20_front_prime_turn_effect_witness :
  well_formed hand_coloured_2 /\ 1 <= size hand_coloured_2 /\
  exists c', move "F'" hand_coloured_2 = Done c' /\
    sticker (get_face Left c') 1 1 = sticker (get_face Up hand_coloured_2) 1 0.
Proof.
  assert (Hwf : well_formed hand_coloured_2)
    by (apply (bool_decide_unpack (well_formed hand_coloured_2));
        vm_compute; exact I).
  assert (Hs : 1 <= size hand_coloured_2) by (simpl; lia).
  split; [exact Hwf|]. split; [exact Hs|].
  destruct (X20_front_prime_turn_effect hand_coloured_2 Hwf Hs)
    as (c' & Hc' & _ & _ & _ & _ & _ & _ & _ & (_ & HL & _)).
  exists c'. split; [exact Hc'|]. apply (HL 0). simpl. lia.
Defined.

(** ** [generateRandomConfiguration] *)

Lemma sum_upto_add m k f :
  sum_upto (m + k) f = sum_upto m f + sum_upto k (fun j => f (m + j)).
Proof.
  induction k as [|k IH]; [simpl; now rewrite !Nat.add_0_r|].
  rewrite Nat.add_succ_r. simpl. rewrite IH. lia.
Qed.

Lemma sum_upto_flatten a b f :
  sum_upto (a * b) f = sum_upto a (fun i => sum_upto b (fun j => f (i * b + j))).
Proof.
  induction a as [|a IH]; [reflexivity|].
  replace (S a * b) with (a * b + b) by lia.
  rewrite sum_upto_add, IH. reflexivity.
Qed.

Lemma sum_upto_const n k : sum_upto n (fun _ => k) = n * k.
Proof. induction n as [|n IH]; simpl; lia. Qed.

(** Counting in an array is summing over its indices. *)
Lemma count_in_row_sum col (a : Row) :
  count_in_row col a = sum_upto (length a) (fun p => indicator col (at_index a p)).
Proof.
  unfold count_in_row. induction a as [|v a IH] using rev_ind; [reflexivity|].
  rewrite filter_app, !length_app, IH. simpl. rewrite Nat.add_1_r. simpl.
  rewrite filter_cons, filter_nil. f_equal.
  - apply sum_upto_ext. intros p Hp. unfold at_index.
    now rewrite lookup_app_l.
  - unfold at_index. rewrite lookup_app_r by lia. rewrite Nat.sub_diag. simpl.
    unfold indicator. now destruct (decide (v = Str col)).
Qed.

Lemma sum_upto_update n (f : nat -> nat) p v :
  p < n ->
  sum_upto n (fun q => if decide (q = p) then v else f q) + f p = sum_upto n f + v.
Proof.
  induction n as [|n IH]; intros Hp; [lia|]. simpl.
  destruct (decide (n = p)) as [->|Hne].
  - rewrite (sum_upto_ext p _ f); [lia|].
    intros q Hq. now rewrite decide_False by lia.
  - specialize (IH ltac:(lia)). lia.
Qed.

Lemma swap_spec (a : Row) i j :
  i < length a -> j < length a ->
  length (swap a i j) = length a /\
  forall p, at_index (swap a i j) p =
    if decide (p = j) then at_index a i
    else if decide (p = i) then at_index a j else at_index a p.
Proof.
  intros Hi Hj. unfold swap. split.
  - unfold array_set. rewrite (decide_True _ _ Hi).
    rewrite decide_True by (rewrite length_insert; lia).
    now rewrite !length_insert.
  - intros p. rewrite !at_index_array_set. reflexivity.
Qed.

(** A swap inside the array keeps the number of stickers of each
    colour. *)
Lemma swap_count col (a : Row) i j :
  i < length a -> j < length a ->
  length (swap a i j) = length a /\ count_in_row col (swap a i j) = count_in_row col a.
Proof.
  intros Hi Hj. destruct (swap_spec a i j Hi Hj) as [Hlen Hat].
  split; [assumption|]. rewrite !count_in_row_sum, Hlen.
  set (f := fun p => indicator col (at_index a p)).
  rewrite (sum_upto_ext _ _
             (fun p => if decide (p = j) then f i
                       else (fun q => if decide (q = i) then f j else f q) p)).
  2:{ intros p Hp. rewrite Hat. unfold f.
      destruct (decide (p = j)); [reflexivity|].
      destruct (decide (p = i)); reflexivity. }
  pose proof (sum_upto_update (length a)
                (fun q => if decide (q = i) then f j else f q) j (f i) Hj) as H1.
  pose proof (sum_upto_update (length a) f i (f j) Hi) as H2.
  cbv beta in H1. destruct (decide (j = i)) as [->|Hne]; lia.
Qed.

Section RandomConfigurationFacts.

Variable Math_random : nat -> nat * nat.
Hypothesis Math_random_unit :
  forall k, fst (Math_random k) < snd (Math_random k).

Lemma shuffle_from_count col i : forall k (a : Row),
  i < length a \/ (i = 0) ->
  length (shuffle_from Math_random i k a) = length a /\
  count_in_row col (shuffle_from Math_random i k a) = count_in_row col a.
Proof.
  induction i as [|i IH]; intros k a Hi; [simpl; auto|].
  cbn [shuffle_from].
  pose proof (random_index_lt Math_random Math_random_unit k (S i + 1) ltac:(lia)) as Hj.
  destruct (swap_count col a (S i) (random_index Math_random k (S i + 1)))
    as [Hlen Hcount]; [lia|lia|].
  destruct (IH (S k) (swap a (S i) (random_index Math_random k (S i + 1))))
    as [Hlen' Hcount']; [rewrite Hlen; lia|].
  split; [lia|]. now rewrite Hcount'.
Qed.

End RandomConfigurationFacts.

Lemma push_times_app count color (a : Row) :
  push_times count color a = (a ++ replicate count (Str color))%list.
Proof.
  unfold push_times. induction count as [|k IH]; simpl.
  - now rewrite app_nil_r.
  - rewrite IH, <- app_assoc. f_equal.
    change [Str color] with (replicate 1 (Str color)).
    rewrite <- replicate_add. now rewrite Nat.add_comm.
Qed.

Lemma count_in_row_app col (a b : Row) :
  count_in_row col (a ++ b) = count_in_row col a + count_in_row col b.
Proof. unfold count_in_row. now rewrite filter_app, length_app. Qed.

Lemma count_in_row_replicate col col' k :
  count_in_row col (replicate k (Str col')) = if decide (col' = col) then k else 0.
Proof.
  unfold count_in_row. destruct (decide (col' = col)) as [->|Hne].
  - induction k as [|k IH]; [reflexivity|].
    cbn [replicate]. rewrite filter_cons_True by reflexivity.
    cbn [length]. now rewrite IH.
  - induction k as [|k IH]; [reflexivity|].
    cbn [replicate]. rewrite filter_cons_False by congruence. exact IH.
Qed.

(** The array holds [n * n] stickers of each of the six colours and
    nothing else. *)
Lemma colorArray_of_spec n :
  length (colorArray_of n) = 6 * (n * n) /\
  forall col, count_in_row col (colorArray_of n) =
              if bool_decide (In col colors) then n * n else 0.
Proof.
  unfold colorArray_of. replace (n * n * 6 / 6) with (n * n)
    by (symmetry; apply Nat.div_mul; lia).
  unfold colors. cbn [fold_left]. rewrite !push_times_app. split.
  - rewrite !length_app, !length_replicate. simpl. lia.
  - intros col. rewrite !count_in_row_app, !count_in_row_replicate.
    cbn [count_in_row filter length].
    destruct (bool_decide (In col ["W"; "Y"; "G"; "B"; "R"; "O"])) eqn:Hin.
    + apply bool_decide_eq_true in Hin. simpl in Hin.
      destruct Hin as [<-|[<-|[<-|[<-|[<-|[<-|[]]]]]]]; simpl; lia.
    + apply bool_decide_eq_false in Hin. simpl in Hin.
      repeat (rewrite decide_False by (intros <-; tauto)). reflexivity.
Qed.

(** The two inner loops on one face: the stickers of the face become
    the next [n * n] elements of the array, in row-major order. *)
Lemma fill_face (arr : Row) face n idx0 cu :
  well_formed cu -> size cu = n ->
  exists cu',
    for_upto n (fun row => for_upto n (fun col => assign_next arr face row col))
      (cu, idx0) = Done (cu', idx0 + n * n) /\
    well_formed cu' /\ size cu' = n /\
    (forall f, f <> face -> get_face f cu' = get_face f cu) /\
    get_face face cu' =
      tabulate_grid n (fun r c => at_index arr (idx0 + (r * n + c))).
Proof.
  intros Hwf Hsize. unfold for_upto.
  destruct (for_range_inv
              (fun r (st : Cube * nat) =>
                 well_formed (fst st) /\ size (fst st) = n /\
                 snd st = idx0 + r * n /\
                 (forall f, f <> face -> get_face f (fst st) = get_face f cu) /\
                 (forall r' c', r' < r -> c' < n ->
                    cell (get_face face (fst st)) r' c' =
                    Some (at_index arr (idx0 + (r' * n + c')))))
              (fun row => for_range 0 n (fun col => assign_next arr face row col))
              n 0 (cu, idx0))
    as ([cu' idx'] & Hrun & Hwf' & Hsize' & Hidx & Hothers & Hcells).
  - cbn [fst snd]. repeat split; auto with lia.
  - intros r [cu0 i0] Hr (Hwf0 & Hsize0 & Hi0 & Hoth0 & Hcells0).
    cbn [fst snd] in *.
    destruct (for_range_inv
                (fun c (st : Cube * nat) =>
                   well_formed (fst st) /\ size (fst st) = n /\
                   snd st = idx0 + (r * n + c) /\
                   (forall f, f <> face -> get_face f (fst st) = get_face f cu) /\
                   (forall r' c', r' < r -> c' < n ->
                      cell (get_face face (fst st)) r' c' =
                      Some (at_index arr (idx0 + (r' * n + c')))) /\
                   (forall c', c' < c ->
                      cell (get_face face (fst st)) r c' =
                      Some (at_index arr (idx0 + (r * n + c')))))
                (fun col => assign_next arr face r col) n 0 (cu0, i0))
      as ([cu1 i1] & Hrun1 & Hwf1 & Hsize1 & Hi1 & Hoth1 & Hcells1 & Hrow1).
    + cbn [fst snd]. repeat split; auto with lia.
    + intros c [cu2 i2] Hc (Hwf2 & Hsize2 & Hi2 & Hoth2 & Hcells2 & Hrow2).
      cbn [fst snd] in *. unfold assign_next. cbn [fst snd].
      destruct (put_wf face r c (at_index arr i2) cu2)
        as (cu3 & Hput & Hwf3 & Hsize3); [assumption|lia|lia|].
      destruct (put_any face r c (at_index arr i2) cu2)
        as (cu3' & Hput' & _ & Hoth3 & _ & Hcells3).
      { destruct (well_formed_face cu2 face Hwf2) as [Hlen _]. lia. }
      rewrite Hput in Hput'. injection Hput' as <-. rewrite Hput.
      eexists. split; [reflexivity|]. cbn [fst snd].
      split; [assumption|]. split; [lia|]. split; [lia|]. split.
      { intros f Hf. rewrite Hoth3 by assumption. now apply Hoth2. }
      split.
      * intros r' c' Hr' Hc'. rewrite Hcells3.
        rewrite decide_False by lia. now apply Hcells2.
      * intros c' Hc'. rewrite Hcells3.
        destruct (decide (r = r /\ c' = c)) as [[_ ->]|Hne].
        -- now rewrite Hi2.
        -- apply Hrow2. lia.
    + exists (cu1, i1). split; [exact Hrun1|]. cbn [fst snd] in *.
      split; [assumption|]. split; [assumption|]. split; [lia|].
      split; [assumption|].
      intros r' c' Hr' Hc'. destruct (decide (r' = r)) as [->|Hne].
      * apply Hrow1. lia.
      * apply Hcells1; lia.
  - cbn [fst snd] in *. exists cu'. split.
    + rewrite Hrun. f_equal. f_equal. lia.
    + split; [assumption|]. split; [assumption|]. split; [assumption|].
      apply (square_ext n).
      * rewrite <- Hsize'. now apply well_formed_face.
      * apply square_tabulate.
      * intros r c Hr Hc. rewrite cell_tabulate by assumption.
        apply Hcells; lia.
Qed.

(** The three loops of the assignment: face number [q] receives the
    elements [q * n * n ..] of the array. *)
Lemma fill_faces (arr : Row) cu :
  well_formed cu ->
  exists cu',
    for_each face_keys (fun face =>
      for_upto (size cu) (fun row =>
        for_upto (size cu) (fun col => assign_next arr face row col)))
      (cu, 0) = Done (cu', 6 * (size cu * size cu)) /\
    well_formed cu' /\ size cu' = size cu /\
    forall f, get_face f cu' =
      tabulate_grid (size cu)
        (fun r c => at_index arr (face_index f * (size cu * size cu) + (r * size cu + c))).
Proof.
  intros Hwf. set (n := size cu). unfold face_keys. cbn [for_each].
  destruct (fill_face arr Up n 0 cu Hwf eq_refl)
    as (c1 & -> & Hwf1 & Hs1 & Ho1 & Hf1).
  destruct (fill_face arr Down n (0 + n * n) c1 Hwf1 Hs1)
    as (c2 & -> & Hwf2 & Hs2 & Ho2 & Hf2).
  destruct (fill_face arr Left n (0 + n * n + n * n) c2 Hwf2 Hs2)
    as (c3 & -> & Hwf3 & Hs3 & Ho3 & Hf3).
  destruct (fill_face arr Right n (0 + n * n + n * n + n * n) c3 Hwf3 Hs3)
    as (c4 & -> & Hwf4 & Hs4 & Ho4 & Hf4).
  destruct (fill_face arr Front n (0 + n * n + n * n + n * n + n * n) c4 Hwf4 Hs4)
    as (c5 & -> & Hwf5 & Hs5 & Ho5 & Hf5).
  destruct (fill_face arr Back n (0 + n * n + n * n + n * n + n * n + n * n) c5 Hwf5 Hs5)
    as (c6 & -> & Hwf6 & Hs6 & Ho6 & Hf6).
  exists c6. split; [f_equal; f_equal; lia|].
  split; [assumption|]. split; [assumption|].
  intros f. destruct f; cbn [face_index].
  - rewrite Ho6, Ho5, Ho4, Ho3, Ho2, Hf1 by discriminate. reflexivity.
  - rewrite Ho6, Ho5, Ho4, Ho3, Hf2 by discriminate.
    f_equal. now rewrite Nat.mul_1_l.
  - rewrite Ho6, Ho5, Ho4, Hf3 by discriminate.
    replace (2 * (n * n)) with (0 + n * n + n * n) by lia. reflexivity.
  - rewrite Ho6, Ho5, Hf4 by discriminate.
    replace (3 * (n * n)) with (0 + n * n + n * n + n * n) by lia. reflexivity.
  - rewrite Ho6, Hf5 by discriminate.
    replace (4 * (n * n)) with (0 + n * n + n * n + n * n + n * n) by lia.
    reflexivity.
  - rewrite Hf6.
    replace (5 * (n * n)) with (0 + n * n + n * n + n * n + n * n + n * n) by lia.
    reflexivity.
Qed.

(** Counting on a cube filled from an array is counting in the array. *)
Lemma count_filled col (arr : Row) n c :
  size c = n -> length arr = 6 * (n * n) ->
  (forall f, get_face f c =
     tabulate_grid n (fun r c => at_index arr (face_index f * (n * n) + (r * n + c)))) ->
  count_color col c = count_in_row col arr.
Proof.
  intros Hsize Hlen Hfaces. rewrite count_in_row_sum, Hlen.
  rewrite sum_upto_flatten. unfold count_color, face_keys. cbn [foldr].
  rewrite !Hfaces, !count_tabulate. cbn [face_index sum_upto].
  rewrite !(sum_upto_flatten n n). cbn [Nat.mul]. lia.
Qed.

(** X21. [generateRandomConfiguration]: on a cube whose faces are
    size x size grids, and whatever numbers below 1 [Math.random]
    returns, the method completes and leaves a cube of the same size
    whose faces are size x size grids and on which each of the six
    colours is on exactly size * size stickers: the shuffle only
    exchanges elements of the array of colours. *)
Theorem X21_random_configuration_is_balanced
  (Math_random : nat -> nat * nat) (c : Cube) :
  (forall k, fst (Math_random k) < snd (Math_random k)) ->
  well_formed c ->
  exists c',
    generateRandomConfiguration Math_random c = Done c' /\
    well_formed c' /\ size c' = size c /\ balanced c'.
Proof.
  intros Hunit Hwf. unfold generateRandomConfiguration.
  set (arr := shuffle_from Math_random (length (colorArray_of (size c)) - 1) 0
                (colorArray_of (size c))).
  destruct (fill_faces arr c Hwf) as (c' & -> & Hwf' & Hsize' & Hfaces).
  exists c'. cbn [fst]. split; [reflexivity|]. split; [assumption|].
  split; [assumption|].
  destruct (colorArray_of_spec (size c)) as [Hlen Hcount].
  assert (Hshuffle : forall col,
            length arr = length (colorArray_of (size c)) /\
            count_in_row col arr = count_in_row col (colorArray_of (size c))).
  { intros col. apply shuffle_from_count; [assumption|].
    destruct (length (colorArray_of (size c))); [right; reflexivity|left; lia]. }
  unfold balanced. apply List.Forall_forall. intros col Hcol.
  rewrite (count_filled col arr (size c) c').
  - destruct (Hshuffle col) as [_ ->]. rewrite Hcount, Hsize'.
    now rewrite bool_decide_eq_true_2.
  - assumption.
  - destruct (Hshuffle col) as [-> _]. assumption.
  - assumption.
Qed.

Lemma X21_random_configuration_is_balanced_witness :
  (forall k, fst (sevenths k) < snd (sevenths k)) /\
  well_formed (new_Cube 2 false) /\
  exists c',
    generateRandomConfiguration sevenths (new_Cube 2 false) = Done c' /\
    well_formed c' /\ size c' = size (new_Cube 2 false) /\ balanced c'.
Proof.
  assert (Hwf : well_formed (new_Cube 2 false)).
  { apply (bool_decide_unpack (well_formed (new_Cube 2 false))).
    vm_compute. exact I. }
  split; [exact sevenths_unit|]. split; [exact Hwf|].
  exact (X21_random_configuration_is_balanced sevenths (new_Cube 2 false)
           sevenths_unit Hwf).
Defined.

Lemma X16_applyScramble_skips_unknown_moves_witness :
  Forall (fun m => In m ["f"; "f'"; "r"; "r'"; "u"; "u'";
                         "b"; "b'"; "l"; "l'"; "d"; "d'"]) ["f"; "u'"] /\
  applyScramble hand_coloured_2 ["f"; "u'"] = Done hand_coloured_2.
Proof.
  assert (H : Forall (fun m => In m ["f"; "f'"; "r"; "r'"; "u"; "u'";
                                     "b"; "b'"; "l"; "l'"; "d"; "d'"]) ["f"; "u'"]).
  { apply Forall_cons; split; [simpl; tauto|].
    apply Forall_cons; split; [simpl; tauto|]. apply Forall_nil_2. }
  split; [exact H|].
  exact (proj2 (X16_applyScramble_skips_unknown_moves ["f"; "u'"] hand_coloured_2) H).
Defined.
